(** * Sharding and dispatch of batches across processes (accelerate/data_loader.py)

    A shallow embedding of the batch sharding classes of
    [src/accelerate/data_loader.py] and the properties of their
    specification.

    Conventions of the embedding.
    - A Python list is a Rocq [list]; a batch of indices is a [list A] for an
      arbitrary item type [A], a tensor batch is the list of its items along
      dimension 0.
    - Sizes, positions and process counts are [nat]; the topology invariant
      [1 <= num_processes] and [process_index < num_processes] is a
      hypothesis of the theorems that need it.  Counters that the code
      subtracts from, and the [remainder] statistic with its sentinel [-1],
      are [Z].
    - A generator is modelled by the list of the values it yields.
    - Code that can raise returns an [outcome]; [while] loops run on fuel
      and [OutOfFuel] stands for a loop that does not terminate. *)

From stdpp Require Import gmap strings list fin_maps.
From Stdlib Require Import ZArith Lia.

Set Default Proof Using "Type".

(** ** Python values, exceptions and results *)

(** The exceptions raised by the modelled code (all subclasses of
    [Exception]). *)
Inductive exn : Type :=
| ValueError
| TypeError
| AttributeError
| KeyError
| IndexError
| ZeroDivisionError
| UnboundLocalError.

(** Result of running a piece of code: a value, an exception, or a loop
    that exhausted its fuel. *)
Inductive outcome (T : Type) : Type :=
| Done (t : T)
| Raised (e : exn)
| OutOfFuel.

Arguments Done {T} t.
Arguments Raised {T} e.
Arguments OutOfFuel {T}.

#[global] Instance outcome_ret : MRet outcome := fun _ t => Done t.
#[global] Instance outcome_bind : MBind outcome := fun _ _ k m =>
  match m with
  | Done t => k t
  | Raised e => Raised e
  | OutOfFuel => OutOfFuel
  end.

(** An attribute of a Python object that may be absent ([hasattr]). *)
Inductive attr (T : Type) : Type :=
| NoAttr
| Attr (v : T).

Arguments NoAttr {T}.
Arguments Attr {T} v.

(** [getattr(obj, name, default)]. *)
Definition getattr {T} (a : attr T) (default : T) : T :=
  match a with
  | NoAttr => default
  | Attr v => v
  end.

(** [obj.name], raising [AttributeError] when the attribute is absent. *)
Definition getattr_strict {T} (a : attr T) : outcome T :=
  match a with
  | NoAttr => Raised AttributeError
  | Attr v => Done v
  end.

(** [l[start:stop]] for non-negative bounds. *)
Definition py_slice {A} (l : list A) (start stop : nat) : list A :=
  take (stop - start) (drop start l).

(** [for idx, x in enumerate(xs): st = body(st, idx, x)], started at
    index [idx]. *)
Fixpoint for_enumerate {S X} (body : S → nat → X → S) (st : S) (idx : nat)
    (xs : list X) : S :=
  match xs with
  | [] => st
  | x :: xs' => for_enumerate body (body st idx x) (idx + 1) xs'
  end.

(** [while len(l) < target: l += l]. *)
Fixpoint double_until {A} (fuel target : nat) (l : list A) : outcome (list A) :=
  if length l <? target then
    match fuel with
    | 0 => OutOfFuel
    | S fuel' => double_until fuel' target (l ++ l)
    end
  else Done l.

(** [math.ceil(n / d)] for a length [n] and a positive [d]: the float
    quotient of two integers below [2^53] is rounded correctly, so its
    ceiling is the ceiling of the exact quotient. *)
Definition math_ceil_div (n d : nat) : nat :=
  if n mod d =? 0 then n / d else n / d + 1.

(** ** The batch sampler that is sharded

    A [torch.utils.data.BatchSampler] or a look-alike: the batches it
    yields, and its optional [batch_size] (possibly [None]) and [drop_last]
    attributes.  [len(batch_sampler)] is the number of batches. *)
Record BatchSampler (A : Type) : Type := {
  sampler_batches : list (list A);
  sampler_batch_size : attr (option nat);
  sampler_drop_last : attr bool
}.

Arguments sampler_batches {A} _.
Arguments sampler_batch_size {A} _.
Arguments sampler_drop_last {A} _.

(** ** BatchSamplerShard *)

Module BatchSamplerShard.
Section BatchSamplerShard.
Context {A : Type}.

Record t : Type := {
  batch_sampler : BatchSampler A;
  num_processes : nat;
  process_index : nat;
  split_batches : bool;
  even_batches : bool;
  batch_size : option nat;
  drop_last : bool
}.

(** [BatchSamplerShard.__init__]. *)
Definition __init__ (batch_sampler : BatchSampler A)
    (num_processes process_index : nat)
    (split_batches even_batches : bool) : outcome t :=
  _ ← (if split_batches then
         bsz ← getattr_strict (sampler_batch_size batch_sampler);
         match bsz with
         | None => Raised TypeError
         | Some b =>
             if num_processes =? 0 then Raised ZeroDivisionError
             else if negb (b mod num_processes =? 0) then Raised ValueError
             else Done ()
         end
       else Done ());
  let batch_size := getattr (sampler_batch_size batch_sampler) None in
  let drop_last := getattr (sampler_drop_last batch_sampler) false in
  if bool_decide (batch_size = None) && even_batches then Raised ValueError
  else Done {| batch_sampler := batch_sampler;
               num_processes := num_processes;
               process_index := process_index;
               split_batches := split_batches;
               even_batches := even_batches;
               batch_size := batch_size;
               drop_last := drop_last |}.

(** [BatchSamplerShard.total_length]. *)
Definition total_length (self : t) : nat :=
  length (sampler_batches (batch_sampler self)).

(** [BatchSamplerShard.__len__]. *)
Definition __len__ (self : t) : outcome nat :=
  let n := length (sampler_batches (batch_sampler self)) in
  if split_batches self then Done n
  else if num_processes self =? 0 then Raised ZeroDivisionError
  else if n mod num_processes self =? 0 then Done (n / num_processes self)
  else
    let length := n / num_processes self in
    if drop_last self then Done length
    else if even_batches self then Done (length + 1)
    else if process_index self <? n mod num_processes self
         then Done (length + 1) else Done length.

(** [len(batch) == self.batch_size]; an [int] never equals [None]. *)
Definition len_is (batch : list A) (batch_size : option nat) : bool :=
  match batch_size with
  | None => false
  | Some b => length batch =? b
  end.

(** Local variables of [_iter_with_split] after the [for] loop: [sp_cur]
    holds the loop variables [idx] and [batch], unbound when the sampler
    was empty. *)
Record split_locals : Type := {
  sp_initial_data : list A;
  sp_cur : option (nat * list A);
  sp_yielded : list (list A)
}.

Definition split_body (self : t) (batch_length : nat) (st : split_locals)
    (idx : nat) (batch : list A) : split_locals :=
  let initial_data := if idx =? 0 then batch else sp_initial_data st in
  let lo := batch_length * process_index self in
  let hi := batch_length * (process_index self + 1) in
  {| sp_initial_data := initial_data;
     sp_cur := Some (idx, batch);
     sp_yielded :=
       if len_is batch (batch_size self)
       then sp_yielded st ++ [py_slice batch lo hi]
       else sp_yielded st |}.

(** [BatchSamplerShard._iter_with_split].  [initial_data] is the first
    batch itself, not a copy: when that batch is also the last one
    ([idx = 0] after the loop), doubling [initial_data] in place doubles
    [batch] too. *)
Definition _iter_with_split (self : t) : outcome (list (list A)) :=
  bsz ← getattr_strict (sampler_batch_size (batch_sampler self));
  b0 ← match bsz with None => Raised TypeError | Some b => Done b end;
  _ ← (if num_processes self =? 0 then Raised ZeroDivisionError else Done ());
  let batch_length := b0 / num_processes self in
  let lo := batch_length * process_index self in
  let hi := batch_length * (process_index self + 1) in
  let st := for_enumerate (split_body self batch_length)
              {| sp_initial_data := []; sp_cur := None; sp_yielded := [] |}
              0 (sampler_batches (batch_sampler self)) in
  if negb (drop_last self) && (0 <? length (sp_initial_data st)) then
    match sp_cur st with
    | None => Raised UnboundLocalError
    | Some (idx, batch) =>
        match batch_size self with
        | None => Raised TypeError
        | Some b =>
            if length batch <? b then
              if negb (even_batches self) then
                if lo <? length batch
                then Done (sp_yielded st ++ [py_slice batch lo hi])
                else Done (sp_yielded st)
              else
                initial_data ← double_until b b (sp_initial_data st);
                let batch := if idx =? 0 then initial_data else batch in
                let batch := batch ++ initial_data in
                Done (sp_yielded st ++ [py_slice batch lo hi])
            else Done (sp_yielded st)
        end
    end
  else Done (sp_yielded st).

(** Local variables of [_iter_with_no_split] after the [for] loop. *)
Record no_split_locals : Type := {
  ns_initial_data : list A;
  ns_batch_to_yield : list A;
  ns_cur : option (nat * list A);
  ns_yielded : list (list A)
}.

Definition no_split_body (self : t) (st : no_split_locals)
    (idx : nat) (batch : list A) : no_split_locals :=
  let initial_data :=
    if negb (drop_last self) && (idx <? num_processes self)
    then ns_initial_data st ++ batch else ns_initial_data st in
  let batch_to_yield :=
    if idx mod num_processes self =? process_index self
    then batch else ns_batch_to_yield st in
  if (idx mod num_processes self =? num_processes self - 1)
     && (bool_decide (batch_size self = None) || len_is batch (batch_size self))
  then {| ns_initial_data := initial_data;
          ns_batch_to_yield := [];
          ns_cur := Some (idx, batch);
          ns_yielded := ns_yielded st ++ [batch_to_yield] |}
  else {| ns_initial_data := initial_data;
          ns_batch_to_yield := batch_to_yield;
          ns_cur := Some (idx, batch);
          ns_yielded := ns_yielded st |}.

(** The last [while] loop of [_iter_with_no_split]: complete the pending
    batch, then hand out slices of [initial_data] until the round is
    full.  [batch += ...] extends in place the last batch of the source
    when that batch is short; no batch yielded before is that list, so no
    yielded batch changes.  [end_index] is never below [cycle_index] as
    long as [batch] holds at most [b] indices. *)
Fixpoint cycle_loop (self : t) (b : nat) (initial_data : list A)
    (fuel idx : nat) (batch : list A) (cycle_index : nat)
    (yielded : list (list A)) : outcome (list (list A)) :=
  if negb (idx mod num_processes self =? 0) || (0 <? length batch) then
    match fuel with
    | 0 => OutOfFuel
    | S fuel' =>
        let end_index := cycle_index + b - length batch in
        let batch := batch ++ py_slice initial_data cycle_index end_index in
        let yielded :=
          if idx mod num_processes self =? process_index self
          then yielded ++ [batch] else yielded in
        cycle_loop self b initial_data fuel' (idx + 1) [] end_index yielded
    end
  else Done yielded.

(** [idx % self.num_processes] in the first pass of the loop of
    [_iter_with_no_split] raises when there are no processes to share the
    batches among. *)
Definition check_num_processes (self : t) : outcome () :=
  match sampler_batches (batch_sampler self) with
  | [] => Done ()
  | _ :: _ =>
      if num_processes self =? 0 then Raised ZeroDivisionError else Done ()
  end.

(** [BatchSamplerShard._iter_with_no_split]. *)
Definition _iter_with_no_split (self : t) : outcome (list (list A)) :=
  _ ← check_num_processes self;
  let st := for_enumerate (no_split_body self)
              {| ns_initial_data := []; ns_batch_to_yield := [];
                 ns_cur := None; ns_yielded := [] |}
              0 (sampler_batches (batch_sampler self)) in
  if negb (drop_last self) && (0 <? length (ns_initial_data st)) then
    if negb (even_batches self) then
      if 0 <? length (ns_batch_to_yield st)
      then Done (ns_yielded st ++ [ns_batch_to_yield st])
      else Done (ns_yielded st)
    else
      match batch_size self with
      | None => Raised TypeError
      | Some b =>
          let yielded :=
            if length (ns_batch_to_yield st) =? b
            then ns_yielded st ++ [ns_batch_to_yield st]
            else ns_yielded st in
          initial_data ← double_until (num_processes self * b)
                            (num_processes self * b) (ns_initial_data st);
          match ns_cur st with
          | None => Raised UnboundLocalError
          | Some (idx, batch) =>
              let '(batch, idx) :=
                if length batch =? b then ([], idx + 1) else (batch, idx) in
              cycle_loop self b initial_data (num_processes self)
                idx batch 0 yielded
          end
      end
  else Done (ns_yielded st).

(** [BatchSamplerShard.__iter__]. *)
Definition __iter__ (self : t) : outcome (list (list A)) :=
  if split_batches self then _iter_with_split self
  else _iter_with_no_split self.

End BatchSamplerShard.
Arguments t : clear implicits.
End BatchSamplerShard.

(** ** IterableDatasetShard *)

Module IterableDatasetShard.
Section IterableDatasetShard.
Context {A : Type}.

(** [dataset] is the element stream of one traversal of the wrapped
    iterable dataset (its reseeding by epoch is outside the model). *)
Record t : Type := {
  dataset : list A;
  batch_size : nat;
  drop_last : bool;
  num_processes : nat;
  process_index : nat;
  split_batches : bool
}.

(** [IterableDatasetShard.__init__]. *)
Definition __init__ (dataset : list A) (batch_size : nat) (drop_last : bool)
    (num_processes process_index : nat) (split_batches : bool) : outcome t :=
  _ ← (if split_batches && (1 <? batch_size) then
         if num_processes =? 0 then Raised ZeroDivisionError
         else if negb (batch_size mod num_processes =? 0)
              then Raised ValueError else Done ()
       else Done ());
  Done {| dataset := dataset;
          batch_size := batch_size;
          drop_last := drop_last;
          num_processes := num_processes;
          process_index := process_index;
          split_batches := split_batches |}.

(** [for i in process_slice: yield current_batch[i]]. *)
Fixpoint yield_slice (current_batch : list A) (process_slice : list nat)
    (yielded : list A) : outcome (list A) :=
  match process_slice with
  | [] => Done yielded
  | i :: rest =>
      match current_batch !! i with
      | None => Raised IndexError
      | Some x => yield_slice current_batch rest (yielded ++ [x])
      end
  end.

(** Local variables of [__iter__]. *)
Record locals : Type := {
  first_batch : option (list A);
  current_batch : list A;
  yielded : list A
}.

Definition body (real_batch_size : nat) (process_slice : list nat)
    (st : locals) (element : A) : outcome locals :=
  let current_batch := current_batch st ++ [element] in
  if length current_batch =? real_batch_size then
    ys ← yield_slice current_batch process_slice (yielded st);
    Done {| first_batch := match first_batch st with
                           | None => Some current_batch
                           | Some fb => Some fb
                           end;
            current_batch := [];
            yielded := ys |}
  else Done {| first_batch := first_batch st;
               current_batch := current_batch;
               yielded := yielded st |}.

(** [for element in self.dataset: ...]. *)
Fixpoint for_dataset (real_batch_size : nat) (process_slice : list nat)
    (st : locals) (elements : list A) : outcome locals :=
  match elements with
  | [] => Done st
  | element :: rest =>
      st' ← body real_batch_size process_slice st element;
      for_dataset real_batch_size process_slice st' rest
  end.

(** [while len(current_batch) < real_batch_size:
       current_batch += first_batch]. *)
Fixpoint extend_until (fuel target : nat) (current_batch first_batch : list A)
    : outcome (list A) :=
  if length current_batch <? target then
    match fuel with
    | 0 => OutOfFuel
    | S fuel' =>
        extend_until fuel' target (current_batch ++ first_batch) first_batch
    end
  else Done current_batch.

(** [IterableDatasetShard.__iter__]: the elements yielded on this
    process. *)
Definition __iter__ (self : t) : outcome (list A) :=
  let real_batch_size :=
    if split_batches self then batch_size self
    else batch_size self * num_processes self in
  process_batch_size ←
    (if split_batches self then
       if num_processes self =? 0 then Raised ZeroDivisionError
       else Done (batch_size self / num_processes self)
     else Done (batch_size self));
  let process_slice :=
    seq (process_index self * process_batch_size) process_batch_size in
  st ← for_dataset real_batch_size process_slice
         {| first_batch := None; current_batch := []; yielded := [] |}
         (dataset self);
  if negb (drop_last self) && (0 <? length (current_batch st)) then
    let first_batch := match first_batch st with
                       | None => current_batch st
                       | Some fb => fb
                       end in
    current_batch ← extend_until real_batch_size real_batch_size
                       (current_batch st) first_batch;
    yield_slice current_batch process_slice (yielded st)
  else Done (yielded st).

(** [IterableDatasetShard.__len__], for a sized dataset whose length is
    the number of elements it yields. *)
Definition __len__ (self : t) : outcome nat :=
  let total := batch_size self * num_processes self in
  if total =? 0 then Raised ZeroDivisionError
  else if drop_last self
  then Done (length (dataset self) / total * batch_size self)
  else Done (math_ceil_div (length (dataset self)) total * batch_size self).

End IterableDatasetShard.
Arguments t : clear implicits.
End IterableDatasetShard.

(** ** The session registry (GradientState) *)

Module GradientState.

(** Modelled from the spec: [GradientState] lives in [accelerate/state.py],
    outside the sources at hand.  The spec describes it as the process-wide
    session registry that holds a reference to every loader whose traversal
    is in progress; a loader is named by an identifier. *)
Record t : Type := {
  dataloader_references : list nat
}.

(** Modelled from the spec: registering a session adds its loader to the
    registry. *)
Definition _add_dataloader (self : t) (dataloader : nat) : t :=
  {| dataloader_references := dataloader_references self ++ [dataloader] |}.

Fixpoint remove_first (x : nat) (l : list nat) : list nat :=
  match l with
  | [] => []
  | y :: l' => if x =? y then l' else y :: remove_first x l'
  end.

(** Modelled from the spec: ending a session takes its loader out of the
    registry. *)
Definition _remove_dataloader (self : t) (dataloader : nat) : t :=
  {| dataloader_references :=
       remove_first dataloader (dataloader_references self) |}.

End GradientState.

(** ** DataLoaderStateMixin *)

Module DataLoaderStateMixin.

Record t : Type := {
  end_of_dataloader : bool;
  remainder : Z
}.

(** What [begin] reads from the loader it is mixed into: [self._drop_last]
    (absent on loaders that never set it), [len(self.dataset)] (raises on
    a dataset without a length), the optional [total_dataset_length] of
    the dataset and the property [self.total_batch_size] (raises when the
    loader or its batch sampler lacks what the property reads). *)
Record view : Type := {
  _drop_last : attr bool;
  dataset_len : exn + Z;
  dataset_total_dataset_length : attr Z;
  total_batch_size : exn + Z
}.

(** [DataLoaderStateMixin.reset]. *)
Definition reset (self : t) : t :=
  {| end_of_dataloader := false; remainder := -1 |}.

(** The body of the [with suppress(Exception)] block of [begin]: the
    value assigned to [self.remainder], if the assignment is reached.
    The default of [getattr] is evaluated before the attribute is looked
    up. *)
Definition remainder_block (v : view) : exn + option Z :=
  match _drop_last v with
  | NoAttr => inl AttributeError
  | Attr true => inr None
  | Attr false =>
      match dataset_len v with
      | inl e => inl e
      | inr len =>
          let length := getattr (dataset_total_dataset_length v) len in
          match total_batch_size v with
          | inl e => inl e
          | inr total =>
              if (total =? 0)%Z then inl ZeroDivisionError
              else inr (Some (length mod total)%Z)
          end
      end
  end.

(** [DataLoaderStateMixin.begin], for the loader named [self_id]. *)
Definition begin (v : view) (self_id : nat) (self : t)
    (gradient_state : GradientState.t) : t * GradientState.t :=
  let self := reset self in
  let self :=
    match remainder_block v with
    | inr (Some r) =>
        {| end_of_dataloader := end_of_dataloader self; remainder := r |}
    | inr None => self
    | inl _ => self
    end in
  (self, GradientState._add_dataloader gradient_state self_id).

(** [DataLoaderStateMixin.end]. *)
Definition end_ (self_id : nat) (gradient_state : GradientState.t)
    : GradientState.t :=
  GradientState._remove_dataloader gradient_state self_id.

End DataLoaderStateMixin.

(** ** Checkpoints of the base loader *)

(** The values found in a state dict. *)
#[warnings="-register-all"]
Inductive pyval : Type :=
| PyNone
| PyBool (b : bool)
| PyInt (z : Z)
| PyDict (d : gmap string pyval).

(** [d[key]]. *)
Definition py_getitem (d : gmap string pyval) (key : string) : outcome pyval :=
match d !! key with
| Some v => Done v
| None => Raised KeyError
end.

(** [v > 0]; [bool] is a subclass of [int]. *)
Definition py_gt0 (v : pyval) : outcome bool :=
match v with
| PyInt z => Done (0 <? z)%Z
| PyBool b => Done b
| PyNone | PyDict _ => Raised TypeError
end.

(** [v - delta]. *)
Definition py_sub (v : pyval) (delta : Z) : outcome pyval :=
match v with
| PyInt z => Done (PyInt (z - delta))
| PyBool b => Done (PyInt ((if b then 1 else 0) - delta))
| PyNone | PyDict _ => Raised TypeError
end.

(** [PartialState()]: whether the run is distributed
  ([distributed_type != DistributedType.NO]) and its topology. *)
Record PartialState : Type := {
distributed : bool;
state_num_processes : nat;
state_process_index : nat
}.

(** The base loader ([DataLoader] or [StatefulDataLoader]): the batches one
  traversal yields, the [state_dict()] it reports once [n] batches were
  drawn from its iterator ([None] for a loader without that method) and
  its [batch_size] attribute. *)
Record DataLoader (X : Type) : Type := {
loader_batches : list X;
loader_state_dict : option (nat → gmap string pyval);
loader_batch_size : option Z
}.

Arguments loader_batches {X} _.
Arguments loader_state_dict {X} _.
Arguments loader_batch_size {X} _.

(** ** DataLoaderAdapter *)

Module DataLoaderAdapter.

(** [if d[key] > 0: d[key] -= delta]. *)
Definition decrement_if_positive (d : gmap string pyval) (key : string)
    (delta : Z) : outcome (gmap string pyval) :=
  v ← py_getitem d key;
  positive ← py_gt0 v;
  if positive : bool then
    v' ← py_sub v delta;
    Done (<[key := v']> d)
  else Done d.

(** [DataLoaderAdapter.adjust_state_dict_for_prefetch], on
    [self.dl_state_dict]; [batch_size] is [self.batch_size], read from the
    base loader. *)
Definition adjust_state_dict_for_prefetch (ps : PartialState)
    (batch_size : option Z) (dl_state_dict : gmap string pyval)
    : outcome (gmap string pyval) :=
  if distributed ps then
    let factor := (Z.of_nat (state_num_processes ps) - 1)%Z in
    d ← decrement_if_positive dl_state_dict "_sampler_iter_yielded" factor;
    d ← decrement_if_positive d "_num_yielded" factor;
    index_sampler_state ← py_getitem d "_index_sampler_state";
    match index_sampler_state with
    | PyNone => Done d
    | PyDict inner =>
        match inner !! "samples_yielded" with
        | None => Done d
        | Some v =>
            positive ← py_gt0 v;
            if positive : bool then
              match batch_size with
              | None => Raised TypeError
              | Some b =>
                  v' ← py_sub v (b * factor);
                  Done (<["_index_sampler_state" :=
                            PyDict (<["samples_yielded" := v']> inner)]> d)
              end
            else Done d
        end
    | PyBool _ | PyInt _ => Raised TypeError
    end
  else Done dl_state_dict.

(** [DataLoaderAdapter._update_state_dict]: the new value of
    [self.dl_state_dict], when [drawn] batches were drawn from the base
    loader. *)
Definition _update_state_dict {X} (ps : PartialState)
    (base_dataloader : DataLoader X) (drawn : nat)
    (end_of_dataloader : bool) (dl_state_dict : option (gmap string pyval))
    : outcome (option (gmap string pyval)) :=
  match loader_state_dict base_dataloader with
  | None => Done dl_state_dict
  | Some state_dict =>
      d ← adjust_state_dict_for_prefetch ps
            (loader_batch_size base_dataloader) (state_dict drawn);
      Done (Some (<["_iterator_finished" := PyBool end_of_dataloader]> d))
  end.

(** [DataLoaderAdapter.__len__]. *)
Definition __len__ {X} (base_dataloader : DataLoader X) : nat :=
  length (loader_batches base_dataloader).

End DataLoaderAdapter.

(** ** DataLoaderShard *)

Module DataLoaderShard.
Section DataLoaderShard.
Context {X : Type}.

Record t : Type := {
  base_dataloader : DataLoader X;
  skip_batches : Z;
  self_id : nat;
  self_view : DataLoaderStateMixin.view
}.

(** The attributes of the loader that a traversal updates, with the
    process-wide registry. *)
Record session : Type := {
  mixin : DataLoaderStateMixin.t;
  dl_state_dict : option (gmap string pyval);
  gradient_state : GradientState.t;
  iteration : Z
}.

(** What the consumer of the generator finds when a batch is yielded: the
    batch, and [self.end_of_dataloader] and [self.dl_state_dict] as they
    stand at that moment. *)
Record yield : Type := {
  yield_batch : X;
  yield_end_of_dataloader : bool;
  yield_state_dict : option (gmap string pyval)
}.

Definition set_state_dict (sess : session)
    (d : option (gmap string pyval)) : session :=
  {| mixin := mixin sess; dl_state_dict := d;
     gradient_state := gradient_state sess; iteration := iteration sess |}.

(** [if batch_index >= self.skip_batches: yield current_batch]. *)
Definition yield_if_due (self : t) (sess : session) (batch_index : nat)
    (current_batch : X) (yielded : list yield) : list yield :=
  if (skip_batches self <=? Z.of_nat batch_index)%Z
  then yielded
       ++ [{| yield_batch := current_batch;
              yield_end_of_dataloader :=
                DataLoaderStateMixin.end_of_dataloader (mixin sess);
              yield_state_dict := dl_state_dict sess |}]
  else yielded.

(** The [while True] loop of [__iter__]: [current_batch] was drawn, [rest]
    are the batches to come and [drawn] batches were drawn from the base
    loader so far.  [send_to_device] leaves the content of the batch as it
    is. *)
Fixpoint loop (ps : PartialState) (self : t) (sess : session)
    (batch_index : nat) (current_batch : X) (rest : list X) (drawn : nat)
    (yielded : list yield) : outcome (session * list yield) :=
  d ← DataLoaderAdapter._update_state_dict ps (base_dataloader self) drawn
        (DataLoaderStateMixin.end_of_dataloader (mixin sess))
        (dl_state_dict sess);
  let sess := set_state_dict sess d in
  match rest with
  | next_batch :: rest' =>
      loop ps self sess (batch_index + 1) next_batch rest' (drawn + 1)
        (yield_if_due self sess batch_index current_batch yielded)
  | [] =>
      let sess :=
        {| mixin :=
             {| DataLoaderStateMixin.end_of_dataloader := true;
                DataLoaderStateMixin.remainder :=
                  DataLoaderStateMixin.remainder (mixin sess) |};
           dl_state_dict := dl_state_dict sess;
           gradient_state := gradient_state sess;
           iteration := iteration sess |} in
      d ← DataLoaderAdapter._update_state_dict ps (base_dataloader self) drawn
            true (dl_state_dict sess);
      let sess := set_state_dict sess d in
      Done (sess, yield_if_due self sess batch_index current_batch yielded)
  end.

(** [DataLoaderShard.__iter__]: the session after the traversal and what
    was yielded.  The synchronisation of the random number generators and
    the reseeding of the sampler by [set_epoch(self.iteration)], which
    leaves [self.iteration] as it is, are outside the model. *)
Definition __iter__ (ps : PartialState) (self : t) (sess : session)
    : outcome (session * list yield) :=
  let '(m, gs) :=
    DataLoaderStateMixin.begin (self_view self) (self_id self)
      (mixin sess) (gradient_state sess) in
  let sess := {| mixin := m; dl_state_dict := dl_state_dict sess;
                 gradient_state := gs; iteration := iteration sess |} in
  match loader_batches (base_dataloader self) with
  | [] =>
      Done ({| mixin := mixin sess; dl_state_dict := dl_state_dict sess;
               gradient_state :=
                 DataLoaderStateMixin.end_ (self_id self) (gradient_state sess);
               iteration := iteration sess |}, [])
  | current_batch :: rest =>
      '(sess, yielded) ← loop ps self sess 0 current_batch rest 1 [];
      Done ({| mixin := mixin sess; dl_state_dict := dl_state_dict sess;
               gradient_state :=
                 DataLoaderStateMixin.end_ (self_id self) (gradient_state sess);
               iteration := (iteration sess + 1)%Z |}, yielded)
  end.

End DataLoaderShard.
Arguments t : clear implicits.
Arguments yield : clear implicits.
End DataLoaderShard.

(** ** SkipBatchSampler *)

Module SkipBatchSampler.
Section SkipBatchSampler.
Context {A : Type}.

Record t : Type := {
  batch_sampler : BatchSampler A;
  skip_batches : Z
}.

(** [SkipBatchSampler.__iter__]. *)
Definition __iter__ (self : t) : list (list A) :=
  for_enumerate
    (fun yielded index samples =>
       if (skip_batches self <=? Z.of_nat index)%Z
       then yielded ++ [samples] else yielded)
    [] 0 (sampler_batches (batch_sampler self)).

(** [SkipBatchSampler.total_length]. *)
Definition total_length (self : t) : nat :=
  length (sampler_batches (batch_sampler self)).

(** [SkipBatchSampler.__len__]. *)
Definition __len__ (self : t) : Z :=
  (Z.of_nat (length (sampler_batches (batch_sampler self)))
   - skip_batches self)%Z.

End SkipBatchSampler.
Arguments t : clear implicits.
End SkipBatchSampler.

(** ** SkipDataLoader *)

Module SkipDataLoader.
Section SkipDataLoader.
Context {X : Type}.

Record t : Type := {
  base_dataloader : DataLoader X;
  skip_batches : Z;
  self_id : nat;
  self_view : DataLoaderStateMixin.view
}.

(** The attributes of the loader that a traversal updates, with the
    process-wide registry. *)
Record session : Type := {
  mixin : DataLoaderStateMixin.t;
  dl_state_dict : option (gmap string pyval);
  gradient_state : GradientState.t
}.

(** The body of the [for] loop of [__iter__]. *)
Definition body (ps : PartialState) (self : t)
    (st : outcome (session * list X)) (index : nat) (batch : X)
    : outcome (session * list X) :=
  '(sess, yielded) ← st;
  if (skip_batches self <=? Z.of_nat index)%Z then
    d ← DataLoaderAdapter._update_state_dict ps (base_dataloader self)
          (index + 1)
          (DataLoaderStateMixin.end_of_dataloader (mixin sess))
          (dl_state_dict sess);
    Done ({| mixin := mixin sess; dl_state_dict := d;
             gradient_state := gradient_state sess |},
          yielded ++ [batch])
  else Done (sess, yielded).

(** [SkipDataLoader.__iter__]: the session after the traversal and the
    batches yielded. *)
Definition __iter__ (ps : PartialState) (self : t) (sess : session)
    : outcome (session * list X) :=
  let '(m, gs) :=
    DataLoaderStateMixin.begin (self_view self) (self_id self)
      (mixin sess) (gradient_state sess) in
  let sess := {| mixin := m; dl_state_dict := dl_state_dict sess;
                 gradient_state := gs |} in
  '(sess, yielded) ←
    for_enumerate (body ps self) (Done (sess, [])) 0
      (loader_batches (base_dataloader self));
  Done ({| mixin := mixin sess; dl_state_dict := dl_state_dict sess;
           gradient_state :=
             DataLoaderStateMixin.end_ (self_id self) (gradient_state sess) |},
        yielded).

(** [SkipDataLoader.__len__]. *)
Definition __len__ (self : t) : Z :=
  (Z.of_nat (DataLoaderAdapter.__len__ (base_dataloader self))
   - skip_batches self)%Z.

End SkipDataLoader.
Arguments t : clear implicits.
End SkipDataLoader.

(** ** Operations on batches

  The tensor utilities of [accelerate/utils] are outside the sources at
  hand; a batch is the list of its items along dimension 0. *)

(** Modelled from the spec: [concatenate(batches, dim=0)] joins batches end
  to end (the spec's [concatenate] on batches). *)
Definition concatenate {A} (batches : list (list A)) : list A :=
concat batches.

(** Modelled from the spec: [slice_tensors(batch, slice(start, stop))] is the
  contiguous window of the batch (the spec's [slice]). *)
Definition slice_tensors {A} (batch : list A) (start stop : nat) : list A :=
py_slice batch start stop.

(** Modelled from the spec: [find_batch_size(batch)] is the element count of
  the batch. *)
Definition find_batch_size {A} (batch : list A) : nat :=
length batch.

(** Modelled from the spec: [get_data_structure(batch)] is the shape
  descriptor from which the other processes build their placeholder;
  for a list of items it is the element count. *)
Definition get_data_structure {A} (batch : list A) : nat :=
length batch.

(** ** DataLoaderDispatcher

  The traversal of one process.  Only the designated process (index 0)
  draws from the base loader; [broadcast_object_list] and [broadcast]
  leave on every process the value of the designated process, so the
  model of process [p] computes these values as the designated process
  does, from the designated process's iterator, and keeps the effects on
  [self] that the code guards by [process_index == 0] for that process
  only. *)

Module DataLoaderDispatcher.
Section DataLoaderDispatcher.
Context {A : Type}.

(** [state] is [self.state]; [submesh_tp] tells whether a device mesh with
    a "tp" dimension was given. *)
Record t : Type := {
  base_dataloader : DataLoader (list A);
  split_batches : bool;
  skip_batches : Z;
  _drop_last : bool;
  submesh_tp : bool;
  state : PartialState;
  self_id : nat;
  self_view : DataLoaderStateMixin.view
}.

(** The attributes of the loader that a traversal updates, with the
    process-wide registry. *)
Record session : Type := {
  mixin : DataLoaderStateMixin.t;
  dl_state_dict : option (gmap string pyval);
  gradient_state : GradientState.t;
  iteration : nat;
  _stop_iteration : bool
}.

(** The iterator of the base loader on the designated process: how many
    batches were drawn and the batches to come. *)
Record iterator : Type := {
  drawn : nat;
  rest : list (list A)
}.

(** [next(iterator)]; [None] is [StopIteration]. *)
Definition next (it : iterator) : option (list A * iterator) :=
  match rest it with
  | [] => None
  | batch :: rest' => Some (batch, {| drawn := drawn it + 1; rest := rest' |})
  end.

(** [self._update_state_dict()], when this process drew [n] batches from
    its base loader. *)
Definition update_state_dict (self : t) (n : nat) (sess : session)
    : outcome session :=
  d ← DataLoaderAdapter._update_state_dict (state self)
        (base_dataloader self) n
        (DataLoaderStateMixin.end_of_dataloader (mixin sess))
        (dl_state_dict sess);
  Done {| mixin := mixin sess; dl_state_dict := d;
          gradient_state := gradient_state sess;
          iteration := iteration sess;
          _stop_iteration := _stop_iteration sess |}.

(** The call [self._update_state_dict()] inside the
    [process_index == 0] branch of [_fetch_batches]. *)
Definition update_state_dict_on_main (self : t) (it : iterator)
    (sess : session) : outcome session :=
  if state_process_index (state self) =? 0
  then update_state_dict self (drawn it) sess
  else Done sess.

(** [for _ in range(n): self._update_state_dict();
       batches.append(next(iterator))]; the flag tells whether
    [StopIteration] ended the loop. *)
Fixpoint fetch_loop (self : t) (n : nat) (sess : session) (it : iterator)
    (batches : list (list A))
    : outcome (session * iterator * list (list A) * bool) :=
  match n with
  | 0 => Done (sess, it, batches, false)
  | S n' =>
      sess ← update_state_dict_on_main self it sess;
      match next it with
      | None => Done (sess, it, batches, true)
      | Some (batch, it') => fetch_loop self n' sess it' (batches ++ [batch])
      end
  end.

Definition set_stop_iteration (sess : session) (stop : bool) : session :=
  {| mixin := mixin sess; dl_state_dict := dl_state_dict sess;
     gradient_state := gradient_state sess;
     iteration := iteration sess;
     _stop_iteration := stop |}.

(** [DataLoaderDispatcher._fetch_batches]: the batch held by the
    designated process and the [batch_info] pair (descriptor or [None],
    stop flag) that every process holds after the broadcasts. *)
Definition _fetch_batches (self : t) (sess : session) (it : iterator)
    : outcome (session * iterator * option (list A) * (option nat * bool)) :=
  let num_processes := state_num_processes (state self) in
  '(sess, it, batches, batch, batch_info) ←
    (if split_batches self then
       sess ← update_state_dict_on_main self it sess;
       match next it with
       | Some (batch, it') =>
           Done (sess, it', None, Some batch,
                 (Some (get_data_structure batch), false))
       | None => Done (sess, it, None, None, (None, true))
       end
     else if submesh_tp self then
       sess ← update_state_dict_on_main self it sess;
       match next it with
       | Some (batch, it') =>
           let batches := replicate num_processes batch in
           let batch := concatenate batches in
           Done (sess, it', Some batches, Some batch,
                 (Some (get_data_structure batch), false))
       | None => Done (sess, it, Some [], None, (None, true))
       end
     else
       '(sess, it, batches, stopped) ←
         fetch_loop self num_processes sess it [];
       if stopped : bool
       then Done (sess, it, Some batches, None, (None, true))
       else
         let batch := concatenate batches in
         Done (sess, it, Some batches, Some batch,
               (Some (get_data_structure batch), false)));
  let sess := set_stop_iteration sess (snd batch_info) in
  if _stop_iteration sess then
    if negb (split_batches self) && negb (_drop_last self) then
      match batches with
      | Some (b :: bs) =>
          let batch := concatenate (b :: bs) in
          Done (sess, it, Some batch,
                (Some (get_data_structure batch), false))
      | Some [] | None => Done (sess, it, batch, (None, true))
      end
    else Done (sess, it, batch, batch_info)
  else Done (sess, it, batch, batch_info).

(** What one pass of the [while] loop of [__iter__] did: the combined
    batch after the broadcast, the value of [stop_iteration], the pool
    [first_batch], the batch that was sliced and the chunk size
    [batch_size] used for the slice, the slice of this process, and
    whether it was yielded ([batch_index >= self.skip_batches]). *)
Record round : Type := {
  round_batch : list A;
  round_stop : bool;
  round_first_batch : option (list A);
  round_sliced : list A;
  round_batch_size : nat;
  round_slice : list A;
  round_yielded : bool
}.

(** The number of batches this process drew from its own base loader. *)
Definition own_drawn (self : t) (it : iterator) : nat :=
  if state_process_index (state self) =? 0 then drawn it else 0.

(** The [while not stop_iteration] loop of [__iter__]. *)
Fixpoint iter_loop (self : t) (fuel : nat) (sess : session) (it : iterator)
    (next_batch : option (list A)) (next_batch_info : option nat * bool)
    (first_batch : option (list A)) (batch_index : nat)
    (rounds : list round) : outcome (session * list round) :=
  match fuel with
  | 0 => OutOfFuel
  | S fuel' =>
      let num_processes := state_num_processes (state self) in
      let process_index := state_process_index (state self) in
      match next_batch with
      | None => Raised ValueError
      | Some batch =>
          let first_batch :=
            match first_batch with
            | None =>
                if negb (_drop_last self)
                then Some (slice_tensors batch 0 num_processes)
                else None
            | Some fb => Some fb
            end in
          let observed_batch_size := find_batch_size batch in
          let batch_size := observed_batch_size / num_processes in
          '(sess1, it1, next_batch1, next_batch_info1, stop_iteration) ←
            (if negb (_stop_iteration sess) then
               '(sess1, it1, nb, nbi) ← _fetch_batches self sess it;
               Done (sess1, it1, nb, nbi,
                     _stop_iteration sess1 && bool_decide (fst nbi = None))
             else Done (sess, it, next_batch, next_batch_info, true));
          '(sliced, batch_size) ←
            (if negb (_drop_last self) && stop_iteration
                && negb (observed_batch_size mod num_processes =? 0)
             then
               match first_batch with
               | Some fb => Done (concatenate [batch; fb], batch_size + 1)
               | None => Raised TypeError
               end
             else Done (batch, batch_size));
          let slice :=
            slice_tensors sliced (process_index * batch_size)
              ((process_index + 1) * batch_size) in
          sess2 ←
            (if stop_iteration : bool then
               sess' ← update_state_dict self (own_drawn self it1)
                 {| mixin :=
                      {| DataLoaderStateMixin.end_of_dataloader := true;
                         DataLoaderStateMixin.remainder :=
                           DataLoaderStateMixin.remainder (mixin sess1) |};
                    dl_state_dict := dl_state_dict sess1;
                    gradient_state := gradient_state sess1;
                    iteration := iteration sess1;
                    _stop_iteration := _stop_iteration sess1 |};
               Done {| mixin :=
                         {| DataLoaderStateMixin.end_of_dataloader :=
                              DataLoaderStateMixin.end_of_dataloader
                                (mixin sess');
                            DataLoaderStateMixin.remainder :=
                              Z.of_nat observed_batch_size |};
                       dl_state_dict := dl_state_dict sess';
                       gradient_state := gradient_state sess';
                       iteration := iteration sess';
                       _stop_iteration := _stop_iteration sess' |}
             else Done sess1);
          let rounds :=
            rounds ++ [{| round_batch := batch;
                          round_stop := stop_iteration;
                          round_first_batch := first_batch;
                          round_sliced := sliced;
                          round_batch_size := batch_size;
                          round_slice := slice;
                          round_yielded :=
                            (skip_batches self <=? Z.of_nat batch_index)%Z |}] in
          if stop_iteration : bool then Done (sess2, rounds)
          else iter_loop self fuel' sess2 it1 next_batch1 next_batch_info1
                 first_batch (batch_index + 1) rounds
      end
  end.

(** [DataLoaderDispatcher.__iter__], with the record of every pass of its
    loop.  [set_epoch(self.iteration)] leaves [self.iteration] as it is
    and reseeds the sampler, which is outside the model. *)
Definition rounds (self : t) (sess : session)
    : outcome (session * list round) :=
  let '(m, gs) :=
    DataLoaderStateMixin.begin (self_view self) (self_id self)
      (mixin sess) (gradient_state sess) in
  let sess := {| mixin := m; dl_state_dict := dl_state_dict sess;
                 gradient_state := gs; iteration := iteration sess;
                 _stop_iteration := false |} in
  let main_iterator :=
    {| drawn := 0; rest := loader_batches (base_dataloader self) |} in
  '(sess, it, next_batch, next_batch_info) ←
    _fetch_batches self sess main_iterator;
  '(sess, rs) ←
    iter_loop self (length (loader_batches (base_dataloader self)) + 1)
      sess it next_batch next_batch_info None 0 [];
  Done ({| mixin := mixin sess; dl_state_dict := dl_state_dict sess;
           gradient_state :=
             DataLoaderStateMixin.end_ (self_id self) (gradient_state sess);
           iteration := iteration sess + 1;
           _stop_iteration := _stop_iteration sess |}, rs).

(** [DataLoaderDispatcher.__iter__]: the batches yielded on this
    process. *)
Definition __iter__ (self : t) (sess : session)
    : outcome (session * list (list A)) :=
  '(sess, rs) ← rounds self sess;
  Done (sess, map round_slice (List.filter round_yielded rs)).

(** [DataLoaderDispatcher.__len__]. *)
Definition __len__ (self : t) : outcome nat :=
  let whole_length := DataLoaderAdapter.__len__ (base_dataloader self) in
  let num_processes := state_num_processes (state self) in
  if split_batches self then Done whole_length
  else if num_processes =? 0 then Raised ZeroDivisionError
  else if _drop_last self then Done (whole_length / num_processes)
  else Done (math_ceil_div whole_length num_processes).

End DataLoaderDispatcher.
Arguments t : clear implicits.
Arguments round : clear implicits.
End DataLoaderDispatcher.

(** ** SeedableRandomSampler *)

Module SeedableRandomSampler.

(** [generator] is the seed that the generator of the sampler was last
    given, [None] when the sampler has no generator yet.  [draw seed] is
    the sequence of indices that [RandomSampler.__iter__] of
    [torch.utils.data] yields from a generator that was just given [seed]:
    for a fixed data source it is a function of the state of the
    generator. *)
Record t : Type := {
  initial_seed : Z;
  epoch : Z;
  generator : option Z;
  draw : Z → list nat
}.

(** [SeedableRandomSampler.set_epoch]. *)
Definition set_epoch (self : t) (epoch : Z) : t :=
  {| initial_seed := initial_seed self; epoch := epoch;
     generator := generator self; draw := draw self |}.

(** [self.generator.manual_seed(seed)], on a generator that may be new. *)
Definition manual_seed (self : t) (seed : Z) : t :=
  {| initial_seed := initial_seed self; epoch := epoch self;
     generator := Some seed; draw := draw self |}.

(** [SeedableRandomSampler.__iter__], traversed to its end: the sampler
    afterwards and the indices yielded. *)
Definition __iter__ (self : t) : t * list nat :=
  let self :=
    match generator self with
    | None => manual_seed self (initial_seed self)
    | Some _ => self
    end in
  let seed := (epoch self + initial_seed self)%Z in
  let self := manual_seed self seed in
  (set_epoch self (epoch self + 1), draw self seed).

(** [n] traversals in a row: the sampler afterwards and what each
    traversal yielded. *)
Fixpoint traversals (n : nat) (self : t) : t * list (list nat) :=
  match n with
  | 0 => (self, [])
  | S n' =>
      let '(self, yielded) := __iter__ self in
      let '(self, rest) := traversals n' self in
      (self, yielded :: rest)
  end.

End SeedableRandomSampler.

(** ** prepare_data_loader: the checks before the shards are built *)

Module prepare_data_loader.

(** A device mesh: the names of its dimensions ([mesh_dim_names]) with
    the size of the submesh of each ([torch_device_mesh[name].size()]). *)
Definition DeviceMesh : Type := list (string * nat).

(** [size = 1; if name in mesh.mesh_dim_names: size = mesh[name].size()]. *)
Definition submesh_size (mesh : DeviceMesh) (name : string) : nat :=
  match List.find (fun dim => String.eqb dim.1 name) mesh with
  | Some dim => dim.2
  | None => 1
  end.

(** The arguments of [prepare_data_loader] that its checks read. *)
Record args : Type := {
  num_processes : option nat;
  process_index : option nat;
  split_batches : bool;
  put_on_device : bool;
  dispatch_batches : option bool;
  torch_device_mesh : option DeviceMesh
}.

(** What the checks read of the data loader: whether its dataset is an
    [IterableDataset], its [batch_size] and the [batch_size] attribute of
    its batch sampler. *)
Record loader : Type := {
  dataset_is_iterable : bool;
  loader_batch_size : option nat;
  batch_sampler_batch_size : attr (option nat)
}.

(** The default of [dispatch_batches] and the requirement that batches
    are dispatched only when they are put on the device. *)
Definition resolve_dispatch (a : args) (dl : loader) : outcome bool :=
  let dispatch :=
    match dispatch_batches a with
    | None => if negb (put_on_device a) then false else dataset_is_iterable dl
    | Some dispatch => dispatch
    end in
  if dispatch && negb (put_on_device a) then Raised ValueError
  else Done dispatch.

(** The process count and index as seen from the data, when a device mesh
    is given: the processes of one "tp" (and "cp") group receive the same
    batch.  [deepspeed] tells whether the distributed type is DEEPSPEED. *)
Definition topology (deepspeed : bool) (mesh : option DeviceMesh)
    (num_processes process_index : nat) : outcome (nat * nat) :=
  match mesh with
  | None => Done (num_processes, process_index)
  | Some mesh =>
      if deepspeed then
        let submesh_tp_size := submesh_size mesh "tp" in
        if submesh_tp_size =? 0 then Raised ZeroDivisionError
        else Done (num_processes / submesh_tp_size,
                   process_index / submesh_tp_size)
      else
        let submesh_tp_size := submesh_size mesh "tp" in
        let submesh_cp_size := submesh_size mesh "cp" in
        let submesh_dp_size := submesh_size mesh "dp_replicate" in
        let submesh_fsdp_size := submesh_size mesh "dp_shard" in
        if submesh_tp_size * submesh_cp_size =? 0
        then Raised ZeroDivisionError
        else Done (submesh_fsdp_size * submesh_dp_size,
                   process_index / (submesh_tp_size * submesh_cp_size))
  end.

(** The sanity check of [split_batches]. *)
Definition sanity_check (a : args) (dl : loader) (num_processes : nat)
    : outcome () :=
  if split_batches a then
    batch_size_for_check ←
      match loader_batch_size dl with
      | Some b => Done (Some b)
      | None =>
          match batch_sampler_batch_size dl with
          | Attr b => Done b
          | NoAttr => Raised ValueError
          end
      end;
    match batch_size_for_check with
    | None => Raised TypeError
    | Some b =>
        if 1 <? b then
          if num_processes =? 0 then Raised ZeroDivisionError
          else if negb (b mod num_processes =? 0) then Raised ValueError
          else Done ()
        else Done ()
    end
  else Done ().

(** The first part of [prepare_data_loader], up to the sanity check:
    whether batches are dispatched, and the process count and index that
    the shards are built with. *)
Definition checks (state : PartialState) (deepspeed : bool) (a : args)
    (dl : loader) : outcome (bool * nat * nat) :=
  dispatch ← resolve_dispatch a dl;
  let num_processes :=
    default (state_num_processes state) (num_processes a) in
  let process_index :=
    default (state_process_index state) (process_index a) in
  '(num_processes, process_index) ←
    topology deepspeed (torch_device_mesh a) num_processes process_index;
  _ ← sanity_check a dl num_processes;
  Done (dispatch, num_processes, process_index).

End prepare_data_loader.

(** ** Reference definitions from the specification *)

(** [ceil(n / m)] on naturals. *)
Definition ceil_div (n m : nat) : nat := (n + m - 1) / m.

(** The length the specification gives to a shard of a sampler of [len]
  batches: floor division when the last round is dropped, ceiling when it
  is evened out, and one more batch for the processes below the remainder
  otherwise. *)
Definition spec_shard_len (len num_processes process_index : nat)
  (drop_last even_batches : bool) : nat :=
if drop_last then len / num_processes
else if even_batches then ceil_div len num_processes
else if process_index <? len mod num_processes
     then len / num_processes + 1
     else len / num_processes.

(** A sampler that yields [batches] with nominal size [b]. *)
Definition sampler_of {A} (batches : list (list A)) (b : nat) (drop_last : bool)
  : BatchSampler A :=
{| sampler_batches := batches;
   sampler_batch_size := Attr (Some b);
   sampler_drop_last := Attr drop_last |}.

(** A shard over [sampler_of batches b drop_last], as [__init__] builds
  it. *)
Definition shard_of {A} (batches : list (list A)) (b : nat) (drop_last : bool)
  (num_processes process_index : nat) (split_batches even_batches : bool)
  : BatchSamplerShard.t A :=
{| BatchSamplerShard.batch_sampler := sampler_of batches b drop_last;
   BatchSamplerShard.num_processes := num_processes;
   BatchSamplerShard.process_index := process_index;
   BatchSamplerShard.split_batches := split_batches;
   BatchSamplerShard.even_batches := even_batches;
   BatchSamplerShard.batch_size := Some b;
   BatchSamplerShard.drop_last := drop_last |}.

(** The stream shard of the scenario of the specification: the stream
  [0..7] on two processes, split batches. *)
Definition stream_scenario (batch_size process_index : nat)
  : outcome (list nat) :=
self ← IterableDatasetShard.__init__ (seq 0 8) batch_size false 2
          process_index true;
IterableDatasetShard.__iter__ self.

(** A base loader with checkpoints, of batch size 2: once [n] batches were
  drawn its counters stand at [n] batches and [2 * n] samples. *)
Definition stateful_loader : DataLoader (list nat) :=
{| loader_batches := [[0; 1]; [2; 3]; [4; 5]];
   loader_state_dict :=
     Some (fun n =>
             {[ "_sampler_iter_yielded" := PyInt (Z.of_nat n);
                "_num_yielded" := PyInt (Z.of_nat n);
                "_index_sampler_state" :=
                  PyDict {[ "samples_yielded" := PyInt (2 * Z.of_nat n) ]} ]});
   loader_batch_size := Some 2%Z |}.

(** Two processes, seen from process 0. *)
Definition two_processes : PartialState :=
{| distributed := true; state_num_processes := 2; state_process_index := 0 |}.

(** The value under [key] of a captured checkpoint. *)
Definition checkpoint_entry (captured : outcome (option (gmap string pyval)))
  (key : string) : option pyval :=
match captured with
| Done (Some d) => d !! key
| Done None | Raised _ | OutOfFuel => None
end.


(** The dispatcher [self] as process [p] holds it. *)
Definition on_process {A} (self : DataLoaderDispatcher.t A) (p : nat)
    : DataLoaderDispatcher.t A :=
  {| DataLoaderDispatcher.base_dataloader :=
       DataLoaderDispatcher.base_dataloader self;
     DataLoaderDispatcher.split_batches :=
       DataLoaderDispatcher.split_batches self;
     DataLoaderDispatcher.skip_batches := DataLoaderDispatcher.skip_batches self;
     DataLoaderDispatcher._drop_last := DataLoaderDispatcher._drop_last self;
     DataLoaderDispatcher.submesh_tp := DataLoaderDispatcher.submesh_tp self;
     DataLoaderDispatcher.state :=
       {| distributed := distributed (DataLoaderDispatcher.state self);
          state_num_processes :=
            state_num_processes (DataLoaderDispatcher.state self);
          state_process_index := p |};
     DataLoaderDispatcher.self_id := DataLoaderDispatcher.self_id self;
     DataLoaderDispatcher.self_view := DataLoaderDispatcher.self_view self |}.

(** What a pass of the dispatcher's loop holds on every process alike:
    all of its record but the slice. *)
Definition round_data {A} (r : DataLoaderDispatcher.round A)
    : list A * bool * option (list A) * list A * nat * bool :=
  (DataLoaderDispatcher.round_batch r, DataLoaderDispatcher.round_stop r,
   DataLoaderDispatcher.round_first_batch r,
   DataLoaderDispatcher.round_sliced r,
   DataLoaderDispatcher.round_batch_size r,
   DataLoaderDispatcher.round_yielded r).

(** A pass of the loop of [self] is well formed for the pool [pool]: its
    slice is the window of this process, of the chunk size of the pass, in
    the batch that was sliced; that batch is the combined batch followed by
    the pool and the chunk is one more than the quotient on a last pass of
    a size that the process count does not divide when [_drop_last] is
    false, and they are the combined batch and the quotient otherwise. *)
Definition round_ok {A} (self : DataLoaderDispatcher.t A)
    (pool : option (list A)) (r : DataLoaderDispatcher.round A) : Prop :=
  let num_processes := state_num_processes (DataLoaderDispatcher.state self) in
  let process_index := state_process_index (DataLoaderDispatcher.state self) in
  let n := length (DataLoaderDispatcher.round_batch r) in
  DataLoaderDispatcher.round_first_batch r = pool ∧
  DataLoaderDispatcher.round_slice r
  = py_slice (DataLoaderDispatcher.round_sliced r)
      (process_index * DataLoaderDispatcher.round_batch_size r)
      ((process_index + 1) * DataLoaderDispatcher.round_batch_size r) ∧
  if negb (DataLoaderDispatcher._drop_last self)
     && DataLoaderDispatcher.round_stop r
     && negb (n mod num_processes =? 0)
  then ∃ fb, pool = Some fb ∧
             DataLoaderDispatcher.round_sliced r
             = DataLoaderDispatcher.round_batch r ++ fb ∧
             DataLoaderDispatcher.round_batch_size r = n / num_processes + 1
  else DataLoaderDispatcher.round_sliced r = DataLoaderDispatcher.round_batch r ∧
       DataLoaderDispatcher.round_batch_size r = n / num_processes.

(** Two dispatchers that differ at most in the process that holds them. *)
Definition same_traversal {A} (self1 self2 : DataLoaderDispatcher.t A) : Prop :=
  DataLoaderDispatcher.base_dataloader self1
  = DataLoaderDispatcher.base_dataloader self2 ∧
  DataLoaderDispatcher.split_batches self1
  = DataLoaderDispatcher.split_batches self2 ∧
  DataLoaderDispatcher.skip_batches self1
  = DataLoaderDispatcher.skip_batches self2 ∧
  DataLoaderDispatcher._drop_last self1
  = DataLoaderDispatcher._drop_last self2 ∧
  DataLoaderDispatcher.submesh_tp self1
  = DataLoaderDispatcher.submesh_tp self2 ∧
  state_num_processes (DataLoaderDispatcher.state self1)
  = state_num_processes (DataLoaderDispatcher.state self2).

(** The pool after a pass on [batch], from the pool [first_batch] before
    it. *)
Definition pool_after {A} (self : DataLoaderDispatcher.t A)
    (first_batch : option (list A)) (batch : list A) : option (list A) :=
  match first_batch with
  | None =>
      if negb (DataLoaderDispatcher._drop_last self)
      then Some (take (state_num_processes (DataLoaderDispatcher.state self))
                   batch)
      else None
  | Some fb => Some fb
  end.

(** A dispatcher over a plain base loader that yields [batches], on process
    [p] of [P]. *)
Definition dispatcher_of {A} (batches : list (list A)) (P p : nat)
    (split_batches drop_last : bool) : DataLoaderDispatcher.t A :=
  {| DataLoaderDispatcher.base_dataloader :=
       {| loader_batches := batches;
          loader_state_dict := None;
          loader_batch_size := None |};
     DataLoaderDispatcher.split_batches := split_batches;
     DataLoaderDispatcher.skip_batches := 0;
     DataLoaderDispatcher._drop_last := drop_last;
     DataLoaderDispatcher.submesh_tp := false;
     DataLoaderDispatcher.state :=
       {| distributed := true; state_num_processes := P;
          state_process_index := p |};
     DataLoaderDispatcher.self_id := 0;
     DataLoaderDispatcher.self_view :=
       {| DataLoaderStateMixin._drop_last := Attr drop_last;
          DataLoaderStateMixin.dataset_len := inl TypeError;
          DataLoaderStateMixin.dataset_total_dataset_length := NoAttr;
          DataLoaderStateMixin.total_batch_size := inl AttributeError |} |}.

(** The session of a dispatcher before its first traversal. *)
Definition fresh_session : DataLoaderDispatcher.session :=
  {| DataLoaderDispatcher.mixin :=
       {| DataLoaderStateMixin.end_of_dataloader := false;
          DataLoaderStateMixin.remainder := -1 |};
     DataLoaderDispatcher.dl_state_dict := None;
     DataLoaderDispatcher.gradient_state :=
       {| GradientState.dataloader_references := [] |};
     DataLoaderDispatcher.iteration := 0;
     DataLoaderDispatcher._stop_iteration := false |}.

(** The passes of a traversal, empty when it did not complete. *)
Definition rounds_of {A} (self : DataLoaderDispatcher.t A)
    (sess : DataLoaderDispatcher.session)
    : list (DataLoaderDispatcher.round A) :=
  match DataLoaderDispatcher.rounds self sess with
  | Done (_, rs) => rs
  | Raised _ | OutOfFuel => []
  end.

(** The slices of pass [k] on the processes [0 .. P - 1], in that order;
    [sess p] is the session of process [p]. *)
Definition slices_of_round {A} (self : DataLoaderDispatcher.t A)
    (sess : nat → DataLoaderDispatcher.session) (k : nat) : list (list A) :=
  map (fun p =>
         match rounds_of (on_process self p) (sess p) !! k with
         | Some r => DataLoaderDispatcher.round_slice r
         | None => []
         end)
    (seq 0 (state_num_processes (DataLoaderDispatcher.state self))).

(** Four batches of two items dispatched to three processes: the second
    pass has the two items of the fourth batch for three processes. *)
Definition uneven_dispatcher : DataLoaderDispatcher.t nat :=
  dispatcher_of [[0; 1]; [2; 3]; [4; 5]; [6; 7]] 3 0 false false.

(** A source of nominal batch size [b], as a batch sampler yields it:
    every batch is non-empty and holds at most [b] indices, and every batch
    but the last holds [b] of them. *)
Definition well_formed {A} (b : nat) (batches : list (list A)) : Prop :=
  0 < b ∧
  ∀ i batch, batches !! i = Some batch →
    0 < length batch ≤ b ∧ (i + 1 < length batches → length batch = b).

(** The batch at position [i], empty beyond the end. *)
Definition batch_at {A} (batches : list (list A)) (i : nat) : list A :=
  default [] (batches !! i).

(** The [j]-th window of width [b] of a sequence of indices. *)
Definition window {A} (indices : list A) (b j : nat) : list A :=
  py_slice indices (j * b) ((j + 1) * b).

(** [m] copies of [l], end to end. *)
Definition copies {A} (m : nat) (l : list A) : list A :=
  concat (replicate m l).

(** The batches that the shard of process [p] yields, for a source that
    yields [batches] with nominal size [b]: construction, then
    traversal. *)
Definition shard_batches {A} (batches : list (list A)) (b : nat)
    (drop_last : bool) (P p : nat) (split_batches even_batches : bool)
    : outcome (list (list A)) :=
  self ← BatchSamplerShard.__init__ (sampler_of batches b drop_last) P p
            split_batches even_batches;
  BatchSamplerShard.__iter__ self.

(** The batches of [R] elements that a stream of elements is cut into: the
    complete ones and, unless the last round is dropped, the remainder
    completed with elements from the first batch (the remainder itself when
    there is no complete batch), repeated as often as needed. *)
Definition stream_batches {A} (ds : list A) (R : nat) (drop_last : bool)
    : list (list A) :=
  let k := length ds / R in
  let rem := drop (k * R) ds in
  map (window ds R) (seq 0 k)
  ++ if negb drop_last && (0 <? length rem)
     then [take R (rem ++ copies R (if k =? 0 then rem else take R ds))]
     else [].

(** The size of the batches the stream is cut into. *)
Definition real_batch_size {A} (self : IterableDatasetShard.t A) : nat :=
  if IterableDatasetShard.split_batches self
  then IterableDatasetShard.batch_size self
  else IterableDatasetShard.batch_size self
       * IterableDatasetShard.num_processes self.

(** The number of elements of a batch that go to one process. *)
Definition process_batch_size {A} (self : IterableDatasetShard.t A) : nat :=
  if IterableDatasetShard.split_batches self
  then IterableDatasetShard.batch_size self
       / IterableDatasetShard.num_processes self
  else IterableDatasetShard.batch_size self.

(** The shard [self] as process [p] holds it. *)
Definition stream_shard_on {A} (self : IterableDatasetShard.t A) (p : nat)
    : IterableDatasetShard.t A :=
  {| IterableDatasetShard.dataset := IterableDatasetShard.dataset self;
     IterableDatasetShard.batch_size := IterableDatasetShard.batch_size self;
     IterableDatasetShard.drop_last := IterableDatasetShard.drop_last self;
     IterableDatasetShard.num_processes :=
       IterableDatasetShard.num_processes self;
     IterableDatasetShard.process_index := p;
     IterableDatasetShard.split_batches :=
       IterableDatasetShard.split_batches self |}.

(** The elements a shard yields, none when its traversal raises. *)
Definition stream_shard_output {A} (self : IterableDatasetShard.t A) : list A :=
  match IterableDatasetShard.__iter__ self with
  | Done ys => ys
  | Raised _ | OutOfFuel => []
  end.

Definition stream_shard {A} (dataset : list A) (batch_size : nat)
    (drop_last : bool) (num_processes process_index : nat)
    (split_batches : bool) : outcome (list A) :=
  self ← IterableDatasetShard.__init__ dataset batch_size drop_last
            num_processes process_index split_batches;
  IterableDatasetShard.__iter__ self.

(** The elements of [l] at the positions that [keep] selects, positions
    counted from [idx]. *)
Fixpoint at_positions {X} (keep : nat → bool) (idx : nat) (l : list X)
    : list X :=
  match l with
  | [] => []
  | x :: l' =>
      (if keep idx then [x] else []) ++ at_positions keep (idx + 1) l'
  end.

(** The elements of [l] at the positions [p], [p + P], [p + 2 P], ... *)
Definition stride {X} (l : list X) (P p : nat) : list X :=
  at_positions (fun i => i mod P =? p) 0 l.

(** The batch passes the test of the loop of [_iter_with_no_split]:
    [self.batch_size is None or len(batch) == self.batch_size]. *)
Definition round_closes {A} (self : BatchSamplerShard.t A) (batch : list A)
    : bool :=
  bool_decide (BatchSamplerShard.batch_size self = None)
  || BatchSamplerShard.len_is batch (BatchSamplerShard.batch_size self).

(** A checkpoint that [_update_state_dict] captures when [n] batches were
    drawn and [end_of_dataloader] is [e]. *)
Definition snapshot {X} (ps : PartialState) (base : DataLoader X) (n : nat)
    (e : bool) (d : option (gmap string pyval)) : Prop :=
  ∃ old, DataLoaderAdapter._update_state_dict ps base n e old = Done d.

Definition empty_shard_loader : DataLoaderShard.t (list nat) :=
  {| DataLoaderShard.base_dataloader :=
       {| loader_batches := [];
          loader_state_dict := None;
          loader_batch_size := Some 2%Z |};
     DataLoaderShard.skip_batches := 0;
     DataLoaderShard.self_id := 0;
     DataLoaderShard.self_view :=
       {| DataLoaderStateMixin._drop_last := Attr false;
          DataLoaderStateMixin.dataset_len := inr 0%Z;
          DataLoaderStateMixin.dataset_total_dataset_length := NoAttr;
          DataLoaderStateMixin.total_batch_size := inr 2%Z |} |}.

Definition third_epoch_session : DataLoaderShard.session :=
  {| DataLoaderShard.mixin :=
       {| DataLoaderStateMixin.end_of_dataloader := true;
          DataLoaderStateMixin.remainder := 1 |};
     DataLoaderShard.dl_state_dict := None;
     DataLoaderShard.gradient_state :=
       {| GradientState.dataloader_references := [] |};
     DataLoaderShard.iteration := 3 |}.

Definition stateful_shard_loader : DataLoaderShard.t (list nat) :=
  {| DataLoaderShard.base_dataloader := stateful_loader;
     DataLoaderShard.skip_batches := 0;
     DataLoaderShard.self_id := 0;
     DataLoaderShard.self_view :=
       {| DataLoaderStateMixin._drop_last := Attr false;
          DataLoaderStateMixin.dataset_len := inr 6%Z;
          DataLoaderStateMixin.dataset_total_dataset_length := NoAttr;
          DataLoaderStateMixin.total_batch_size := inr 4%Z |} |}.

(** The combined batches that the designated process makes of the batches
    [r] of the base loader: each batch with [split_batches]; each batch
    repeated [num_processes] times with a "tp" submesh; otherwise the
    batches joined [num_processes] at a time, the last incomplete group
    kept unless [_drop_last] is set. *)
Definition combined_batches {A} (self : DataLoaderDispatcher.t A)
    (r : list (list A)) : list (list A) :=
  let P := state_num_processes (DataLoaderDispatcher.state self) in
  if DataLoaderDispatcher.split_batches self then r
  else if DataLoaderDispatcher.submesh_tp self
  then map (fun batch => concat (replicate P batch)) r
  else map (fun j => concat (take P (drop (j * P) r)))
         (seq 0 (if DataLoaderDispatcher._drop_last self
                 then length r / P
                 else math_ceil_div (length r) P)).

(** The combined batches of a traversal. *)
Definition dispatch_batches {A} (self : DataLoaderDispatcher.t A)
    : list (list A) :=
  combined_batches self
    (loader_batches (DataLoaderDispatcher.base_dataloader self)).

(** What [_fetch_batches] makes of the batches [r] that remain in the base
    loader: the combined batch, if any, the flag [_stop_iteration] and the
    batches that remain afterwards. *)
Definition fetch_outcome {A} (self : DataLoaderDispatcher.t A)
    (r : list (list A)) : option (list A) * bool * list (list A) :=
  let P := state_num_processes (DataLoaderDispatcher.state self) in
  if DataLoaderDispatcher.split_batches self then
    match r with
    | batch :: r' => (Some batch, false, r')
    | [] => (None, true, [])
    end
  else if DataLoaderDispatcher.submesh_tp self then
    match r with
    | batch :: r' => (Some (concat (replicate P batch)), false, r')
    | [] => (None, true, [])
    end
  else if P <=? length r then (Some (concat (take P r)), false, drop P r)
  else (if negb (DataLoaderDispatcher._drop_last self) && (0 <? length r)
        then Some (concat r) else None, true, []).

(** Three batches dispatched whole to the second of two processes of a
    "tp" submesh. *)
Definition tp_dispatcher : DataLoaderDispatcher.t nat :=
  {| DataLoaderDispatcher.base_dataloader :=
       {| loader_batches := [[0; 1]; [2; 3]; [4]];
          loader_state_dict := None;
          loader_batch_size := Some 2%Z |};
     DataLoaderDispatcher.split_batches := false;
     DataLoaderDispatcher.skip_batches := 0;
     DataLoaderDispatcher._drop_last := false;
     DataLoaderDispatcher.submesh_tp := true;
     DataLoaderDispatcher.state :=
       {| distributed := true; state_num_processes := 2;
          state_process_index := 1 |};
     DataLoaderDispatcher.self_id := 0;
     DataLoaderDispatcher.self_view :=
       DataLoaderDispatcher.self_view uneven_dispatcher |}.

(** The dispatcher [uneven_dispatcher] set to skip its first batch. *)
Definition skipping_dispatcher : DataLoaderDispatcher.t nat :=
  {| DataLoaderDispatcher.base_dataloader :=
       DataLoaderDispatcher.base_dataloader uneven_dispatcher;
     DataLoaderDispatcher.split_batches := false;
     DataLoaderDispatcher.skip_batches := 1;
     DataLoaderDispatcher._drop_last := false;
     DataLoaderDispatcher.submesh_tp := false;
     DataLoaderDispatcher.state := DataLoaderDispatcher.state uneven_dispatcher;
     DataLoaderDispatcher.self_id := 0;
     DataLoaderDispatcher.self_view :=
       DataLoaderDispatcher.self_view uneven_dispatcher |}.

(** The keys of a state dict that [adjust_state_dict_for_prefetch] reads
    and may update. *)
Definition prefetch_keys : list string :=
  ["_sampler_iter_yielded"; "_num_yielded"; "_index_sampler_state"].

(** A state dict with an entry of the user's own beside the counters. *)
Definition checkpoint_with_epoch : gmap string pyval :=
  {[ "_sampler_iter_yielded" := PyInt 3;
     "_num_yielded" := PyInt 3;
     "_index_sampler_state" := PyNone;
     "epoch" := PyInt 7 ]}.

(** A loader over an iterable dataset with batches of four elements. *)
Definition stream_loader : prepare_data_loader.loader :=
  {| prepare_data_loader.dataset_is_iterable := true;
     prepare_data_loader.loader_batch_size := Some 4;
     prepare_data_loader.batch_sampler_batch_size := NoAttr |}.

(** [prepare_data_loader(dataloader, split_batches=True)]. *)
Definition split_args : prepare_data_loader.args :=
  {| prepare_data_loader.num_processes := None;
     prepare_data_loader.process_index := None;
     prepare_data_loader.split_batches := true;
     prepare_data_loader.put_on_device := false;
     prepare_data_loader.dispatch_batches := None;
     prepare_data_loader.torch_device_mesh := None |}.

(** * Properties *)

(** ** Lengths *)

Lemma ceil_div_exact n m : 0 < m → n mod m = 0 → ceil_div n m = n / m.
Proof.
  intros Hm Hr. unfold ceil_div. symmetry.
  apply (Nat.div_unique _ _ _ (m - 1)); [lia|].
  pose proof (Nat.div_mod_eq n m). lia.
Qed.

Lemma ceil_div_inexact n m :
  0 < m → n mod m ≠ 0 → ceil_div n m = n / m + 1.
Proof.
  intros Hm Hr. unfold ceil_div. symmetry.
  apply (Nat.div_unique _ _ _ (n mod m - 1)).
  - pose proof (Nat.mod_upper_bound n m). lia.
  - pose proof (Nat.div_mod_eq n m). lia.
Qed.

(** C2, as stated, fails: with [split_batches] the length of the shard is
    the length of the sampler, here 2, not [floor(2 / 2) = 1]. *)
Lemma shard_len_split_counterexample :
  BatchSamplerShard.__len__
    (shard_of [[0; 1]; [2; 3]] 2 true 2 0 true true)
  = Done 2 ∧
  2 ≠ spec_shard_len 2 2 0 true true.
Proof. split; [reflexivity|]. vm_compute. discriminate. Qed.

(** C2, amended: without [split_batches] the length of a shard is the
    floor/ceiling division of the specification; with [split_batches] it is
    the length of the sampler. *)
Theorem shard_len (A : Type) (self : BatchSamplerShard.t A) :
  0 < BatchSamplerShard.num_processes self →
  BatchSamplerShard.__len__ self =
    let len := length (sampler_batches (BatchSamplerShard.batch_sampler self)) in
    Done (if BatchSamplerShard.split_batches self then len
          else spec_shard_len len
                 (BatchSamplerShard.num_processes self)
                 (BatchSamplerShard.process_index self)
                 (BatchSamplerShard.drop_last self)
                 (BatchSamplerShard.even_batches self)).
Proof.
  intros HP. unfold BatchSamplerShard.__len__, spec_shard_len. simpl.
  destruct (BatchSamplerShard.split_batches self); [done|].
  set (n := length _). set (P := BatchSamplerShard.num_processes self) in *.
  assert ((P =? 0) = false) as -> by (apply Nat.eqb_neq; lia).
  destruct (n mod P =? 0) eqn:Hr.
  - apply Nat.eqb_eq in Hr.
    destruct (BatchSamplerShard.drop_last self); [done|].
    destruct (BatchSamplerShard.even_batches self).
    + by rewrite ceil_div_exact.
    + rewrite Hr. by destruct (_ <? 0) eqn:E; [apply Nat.ltb_lt in E; lia|].
  - apply Nat.eqb_neq in Hr.
    destruct (BatchSamplerShard.drop_last self); [done|].
    destruct (BatchSamplerShard.even_batches self);
      [|by destruct (_ <? _)].
    by rewrite ceil_div_inexact.
Qed.

Lemma shard_len_witness :
  BatchSamplerShard.__len__
    (shard_of [[0; 1]; [2; 3]; [4]] 2 false 2 1 false true) = Done 2.
Proof.
  rewrite (shard_len nat (shard_of [[0; 1]; [2; 3]; [4]] 2 false 2 1 false true)).
  - reflexivity.
  - simpl. lia.
Defined.

(** ** Construction *)

(** C3, as stated, fails: a stream shard with [split_batches] whose batch
    size 1 is not a multiple of the 2 processes is constructed. *)
Lemma stream_shard_init_counterexample :
  1 mod 2 ≠ 0 ∧
  ∃ self, IterableDatasetShard.__init__ (seq 0 8) 1 false 2 0 true = Done self.
Proof. split; [done|]. eexists. reflexivity. Qed.

(** C3, amended.  [BatchSamplerShard]: with [split_batches] and a batch size
    that is not a multiple of the process count construction raises
    [ValueError]; without [split_batches], with [even_batches] and no batch
    size, it raises [ValueError]; with [split_batches] and no batch size it
    fails when it reads the batch size; in every other case it succeeds.
    [IterableDatasetShard]: construction raises [ValueError] when
    [split_batches] is set, the batch size exceeds 1 and is not a multiple
    of the process count, and succeeds in every other case. *)
Theorem shard_init_errors (A : Type) :
  (∀ (bs : BatchSampler A) P p even b,
      0 < P → sampler_batch_size bs = Attr (Some b) → b mod P ≠ 0 →
      BatchSamplerShard.__init__ bs P p true even = Raised ValueError) ∧
  (∀ (bs : BatchSampler A) P p,
      getattr (sampler_batch_size bs) None = None →
      BatchSamplerShard.__init__ bs P p false true = Raised ValueError) ∧
  (∀ (bs : BatchSampler A) P p even,
      0 < P → getattr (sampler_batch_size bs) None = None →
      ∃ e, e ≠ ValueError ∧
           BatchSamplerShard.__init__ bs P p true even = Raised e) ∧
  (∀ (bs : BatchSampler A) P p split even,
      0 < P →
      (split = true →
       ∃ b, sampler_batch_size bs = Attr (Some b) ∧ b mod P = 0) →
      (even = true → getattr (sampler_batch_size bs) None ≠ None) →
      ∃ self, BatchSamplerShard.__init__ bs P p split even = Done self) ∧
  (∀ (dataset : list A) b drop_last P p,
      0 < P → 1 < b → b mod P ≠ 0 →
      IterableDatasetShard.__init__ dataset b drop_last P p true
      = Raised ValueError) ∧
  (∀ (dataset : list A) b drop_last P p split,
      0 < P → (split = false ∨ b ≤ 1 ∨ b mod P = 0) →
      ∃ self,
        IterableDatasetShard.__init__ dataset b drop_last P p split = Done self).
Proof.
  repeat split.
  - intros bs P p even b HP Hb Hmod. unfold BatchSamplerShard.__init__.
    rewrite Hb. simpl.
    destruct (P =? 0) eqn:E; [apply Nat.eqb_eq in E; lia|].
    destruct (b mod P =? 0) eqn:E'; [apply Nat.eqb_eq in E'; lia|].
    done.
  - intros bs P p Hb. unfold BatchSamplerShard.__init__. simpl.
    rewrite Hb. done.
  - intros bs P p even HP Hb. unfold BatchSamplerShard.__init__.
    destruct (sampler_batch_size bs) as [|[b|]]; simpl in *; try done.
    + by exists AttributeError.
    + by exists TypeError.
  - intros bs P p split even HP Hsplit Heven.
    unfold BatchSamplerShard.__init__.
    destruct split.
    + destruct Hsplit as (b & Hb & Hmod); [done|]. rewrite Hb. simpl.
      destruct (P =? 0) eqn:E; [apply Nat.eqb_eq in E; lia|].
      rewrite Hmod. simpl. eauto.
    + simpl. destruct even; [|rewrite andb_false_r; eauto].
      rewrite bool_decide_eq_false_2; [simpl; eauto|]. by apply Heven.
  - intros dataset b drop_last P p HP Hb Hmod.
    unfold IterableDatasetShard.__init__. simpl.
    destruct (1 <? b) eqn:E1; [|apply Nat.ltb_ge in E1; lia].
    destruct (P =? 0) eqn:E; [apply Nat.eqb_eq in E; lia|].
    destruct (b mod P =? 0) eqn:E'; [apply Nat.eqb_eq in E'; lia|].
    done.
  - intros dataset b drop_last P p split HP Hcase.
    unfold IterableDatasetShard.__init__.
    destruct split; simpl; [|eauto].
    destruct (1 <? b) eqn:E1; [|simpl; eauto].
    apply Nat.ltb_lt in E1.
    destruct Hcase as [?|[?|Hmod]]; [done|lia|].
    destruct (P =? 0) eqn:E; [apply Nat.eqb_eq in E; lia|].
    rewrite Hmod. simpl. eauto.
Qed.

Lemma shard_init_errors_witness :
  BatchSamplerShard.__init__ (sampler_of [[0; 1; 2]] 3 false) 2 0 true true
  = Raised ValueError.
Proof.
  apply (proj1 (shard_init_errors nat) (sampler_of [[0; 1; 2]] 3 false)
           2 0 true 3).
  - lia.
  - reflexivity.
  - simpl. lia.
Defined.

(** ** The stream scenario *)

(** C6, as stated, fails: with [batch_size = 1] the slice of each process
    within a batch is empty and process 0 yields nothing. *)
Lemma stream_scenario_counterexample :
  stream_scenario 1 0 = Done [] ∧ stream_scenario 1 0 ≠ Done [0; 1; 4; 5].
Proof. split; [reflexivity|]. vm_compute. discriminate. Qed.

(** C6, amended: for the stream [0..7] on two processes with
    [split_batches], it is with [batch_size = 4] that process 0 yields
    [0, 1, 4, 5] and process 1 yields [2, 3, 6, 7]. *)
Theorem stream_scenario_batch_size_4 :
  stream_scenario 4 0 = Done [0; 1; 4; 5] ∧
  stream_scenario 4 1 = Done [2; 3; 6; 7].
Proof. split; reflexivity. Qed.

(** ** Skipping the first batches *)

Lemma for_enumerate_app {S X} (body : S → nat → X → S) st idx xs ys :
  for_enumerate body st idx (xs ++ ys)
  = for_enumerate body (for_enumerate body st idx xs) (idx + length xs) ys.
Proof.
  revert st idx. induction xs as [|x xs IH]; intros st idx; simpl.
  - by rewrite Nat.add_0_r.
  - rewrite IH. f_equal. lia.
Qed.






(** ** The session of a traversal *)

(** C8: [begin] leaves [end_of_dataloader] false and registers the loader in
    every case; [remainder] is the total dataset length modulo the total
    batch size when [_drop_last] is false and the computation succeeds, and
    the sentinel [-1] when [_drop_last] is true or when the computation
    raises, whatever the exception. *)
Theorem begin_resets_and_registers (v : DataLoaderStateMixin.view)
    (self_id : nat) (self : DataLoaderStateMixin.t) (gs : GradientState.t) :
  let result := DataLoaderStateMixin.begin v self_id self gs in
  DataLoaderStateMixin.end_of_dataloader result.1 = false ∧
  result.2 = GradientState._add_dataloader gs self_id ∧
  self_id ∈ GradientState.dataloader_references result.2 ∧
  (DataLoaderStateMixin._drop_last v = Attr true →
   DataLoaderStateMixin.remainder result.1 = (-1)%Z) ∧
  (∀ len total,
      DataLoaderStateMixin._drop_last v = Attr false →
      DataLoaderStateMixin.dataset_len v = inr len →
      DataLoaderStateMixin.total_batch_size v = inr total →
      total ≠ 0%Z →
      DataLoaderStateMixin.remainder result.1
      = (getattr (DataLoaderStateMixin.dataset_total_dataset_length v) len
         mod total)%Z) ∧
  (DataLoaderStateMixin._drop_last v = NoAttr ∨
   DataLoaderStateMixin._drop_last v = Attr false ∧
   ((∃ e, DataLoaderStateMixin.dataset_len v = inl e) ∨
    (∃ e, DataLoaderStateMixin.total_batch_size v = inl e) ∨
    DataLoaderStateMixin.total_batch_size v = inr 0%Z) →
   DataLoaderStateMixin.remainder result.1 = (-1)%Z).
Proof.
  unfold DataLoaderStateMixin.begin, DataLoaderStateMixin.remainder_block.
  simpl. repeat split.
  - by repeat case_match.
  - apply elem_of_app. right. by apply list_elem_of_singleton.
  - intros ->. done.
  - intros len total -> -> -> Hne.
    destruct (total =? 0)%Z eqn:E; [apply Z.eqb_eq in E; done|]. done.
  - intros [->|[-> Hraise]]; [done|].
    destruct (DataLoaderStateMixin.dataset_len v) as [e|len]; [done|].
    destruct Hraise as [[e ?]|[[e ->]| ->]]; done.
Qed.

Lemma begin_resets_and_registers_witness :
  DataLoaderStateMixin.remainder
    (DataLoaderStateMixin.begin
       {| DataLoaderStateMixin._drop_last := Attr false;
          DataLoaderStateMixin.dataset_len := inr 10%Z;
          DataLoaderStateMixin.dataset_total_dataset_length := NoAttr;
          DataLoaderStateMixin.total_batch_size := inr 4%Z |}
       7
       {| DataLoaderStateMixin.end_of_dataloader := true;
          DataLoaderStateMixin.remainder := 5 |}
       {| GradientState.dataloader_references := [] |}).1
  = 2%Z.
Proof.
  refine (proj1 (proj2 (proj2 (proj2 (proj2
            (begin_resets_and_registers _ 7 _ _))))) 10%Z 4%Z _ _ _ _);
    [reflexivity | reflexivity | reflexivity | lia].
Defined.

(** ** Checkpoints *)





(** ** Dispatch *)

Lemma concat_process_slices {A} (l : list A) k P :
  concat (map (fun p => py_slice l (p * k) ((p + 1) * k)) (seq 0 P))
  = take (P * k) l.
Proof.
  induction P as [|P IH]; [done|].
  rewrite seq_S, map_app, concat_app, IH. simpl. rewrite app_nil_r.
  unfold py_slice. replace ((P + 1) * k - P * k) with k by lia.
  rewrite take_take_drop. f_equal. lia.
Qed.

Lemma take_whole_rounds {A} (l : list A) P :
  0 < P → length l mod P = 0 → take (P * (length l / P)) l = l.
Proof.
  intros HP Hr. apply take_ge. pose proof (Nat.div_mod_eq (length l) P). lia.
Qed.

Lemma take_padded_round {A} (l fb : list A) P :
  0 < P →
  take (P * (length l / P + 1)) (l ++ fb)
  = l ++ take (P - length l mod P) fb.
Proof.
  intros HP. pose proof (Nat.div_mod_eq (length l) P).
  pose proof (Nat.mod_upper_bound (length l) P).
  rewrite take_app, take_ge by lia. do 2 f_equal. lia.
Qed.

Lemma outcome_bind_Done {T U} (m : outcome T) (k : T → outcome U) y :
  m ≫= k = Done y → ∃ x, m = Done x ∧ k x = Done y.
Proof. destruct m; simpl; intros H; try done. eauto. Qed.

Lemma py_slice_0 {A} (l : list A) n : py_slice l 0 n = take n l.
Proof. unfold py_slice. by rewrite Nat.sub_0_r, drop_0. Qed.

Lemma pool_after_idemp {A} (self : DataLoaderDispatcher.t A) fb b b' :
  pool_after self (pool_after self fb b) b' = pool_after self fb b.
Proof.
  unfold pool_after. destruct fb; [done|].
  by destruct (DataLoaderDispatcher._drop_last self).
Qed.

Lemma iter_loop_rounds {A} (self : DataLoaderDispatcher.t A) fuel :
  ∀ sess it nb nbi fb idx rs sess' rs',
    DataLoaderDispatcher.iter_loop self fuel sess it nb nbi fb idx rs
    = Done (sess', rs') →
    ∃ r new,
      rs' = rs ++ r :: new ∧
      nb = Some (DataLoaderDispatcher.round_batch r) ∧
      Forall (round_ok self
                (pool_after self fb (DataLoaderDispatcher.round_batch r)))
        (r :: new) ∧
      ∀ i r', (r :: new) !! i = Some r' →
              DataLoaderDispatcher.round_stop r' = bool_decide (i = length new).
Proof.
  induction fuel as [|fuel IH];
    intros sess it nb nbi fb idx rs sess' rs' Hrun; [done|].
  cbn [DataLoaderDispatcher.iter_loop] in Hrun.
  destruct nb as [batch|]; [|done].
  apply outcome_bind_Done in Hrun as ([[[[sess1 it1] nb1] nbi1] stop] & Hnext & Hrun).
  apply outcome_bind_Done in Hrun as ([sliced bs] & Hsl & Hrun).
  apply outcome_bind_Done in Hrun as (sess2 & Hsess2 & Hrun).
  rewrite py_slice_0 in *. fold (pool_after self fb batch) in *.
  clear Hnext Hsess2.
  match type of Hrun with
  | context [rs ++ [?r]] =>
      set (r1 := r) in *;
      assert (round_ok self (pool_after self fb batch) r1) as Hok
  end.
  { unfold round_ok. simpl. split; [done|]. split; [done|].
    unfold find_batch_size in Hsl.
    destruct (negb _ && stop && negb _).
    - destruct (pool_after self fb batch) as [pool|]; [|done].
      injection Hsl as <- <-. exists pool. unfold concatenate. simpl.
      by rewrite app_nil_r.
    - by injection Hsl as <- <-. }
  destruct stop.
  - injection Hrun as <- <-. exists r1, []. split; [done|]. split; [done|].
    split; [by apply Forall_singleton|].
    intros [|i] r'; simpl; [|done]. by intros [= <-].
  - apply IH in Hrun as (r2 & new & -> & Hnb1 & Hall & Hstops).
    rewrite pool_after_idemp in Hall.
    exists r1, (r2 :: new). split; [by rewrite <- app_assoc|].
    split; [done|]. split; [by apply Forall_cons|].
    intros [|i] r'; simpl.
    + by intros [= <-].
    + intros Hi. rewrite (Hstops i r' Hi).
      apply bool_decide_ext. lia.
Qed.

Ltac bind_inv H :=
  let x := fresh "x" in
  let Hx := fresh "Hx" in
  apply outcome_bind_Done in H as (x & Hx & H).

Lemma fetch_loop_agree {A} (self1 self2 : DataLoaderDispatcher.t A) n :
  ∀ sess1 sess2 it bs s1 s2 it1 it2 bs1 bs2 f1 f2,
    DataLoaderDispatcher.fetch_loop self1 n sess1 it bs
    = Done (s1, it1, bs1, f1) →
    DataLoaderDispatcher.fetch_loop self2 n sess2 it bs
    = Done (s2, it2, bs2, f2) →
    it1 = it2 ∧ bs1 = bs2 ∧ f1 = f2.
Proof.
  induction n as [|n IH]; intros sess1 sess2 it bs s1 s2 it1 it2 bs1 bs2 f1 f2;
    simpl; intros H1 H2.
  - by simplify_eq.
  - bind_inv H1. bind_inv H2.
    destruct (DataLoaderDispatcher.next it) as [[b it']|].
    + eapply IH; eauto.
    + by simplify_eq.
Qed.

Lemma fetch_batches_agree {A} (self1 self2 : DataLoaderDispatcher.t A)
    sess1 sess2 it s1 s2 it1 it2 b1 b2 i1 i2 :
  same_traversal self1 self2 →
  DataLoaderDispatcher._fetch_batches self1 sess1 it = Done (s1, it1, b1, i1) →
  DataLoaderDispatcher._fetch_batches self2 sess2 it = Done (s2, it2, b2, i2) →
  it1 = it2 ∧ b1 = b2 ∧ i1 = i2 ∧
  DataLoaderDispatcher._stop_iteration s1
  = DataLoaderDispatcher._stop_iteration s2.
Proof.
  intros (Hbase & Hsplit & Hskip & Hdrop & Htp & HP) H1 H2.
  unfold DataLoaderDispatcher._fetch_batches in H1, H2.
  rewrite <- ?Hsplit, <- ?Hdrop, <- ?Htp, <- ?HP in H2.
  apply outcome_bind_Done in H1 as ([[[[s1' it1'] bs1] b1'] i1'] & Hd1 & H1).
  apply outcome_bind_Done in H2 as ([[[[s2' it2'] bs2] b2'] i2'] & Hd2 & H2).
  assert (it1' = it2' ∧ bs1 = bs2 ∧ b1' = b2' ∧ i1' = i2')
    as (<- & <- & <- & <-).
  { destruct (DataLoaderDispatcher.split_batches self1).
    - bind_inv Hd1. bind_inv Hd2.
      destruct (DataLoaderDispatcher.next it) as [[b it']|]; by simplify_eq.
    - destruct (DataLoaderDispatcher.submesh_tp self1).
      + bind_inv Hd1. bind_inv Hd2.
        destruct (DataLoaderDispatcher.next it) as [[b it']|]; by simplify_eq.
      + apply outcome_bind_Done in Hd1 as ([[[t1 u1] v1] w1] & Hl1 & Hd1).
        apply outcome_bind_Done in Hd2 as ([[[t2 u2] v2] w2] & Hl2 & Hd2).
        destruct (fetch_loop_agree self1 self2 _ _ _ _ _ _ _ _ _ _ _ _ _
                    Hl1 Hl2) as (<- & <- & <-).
        destruct w1; by simplify_eq. }
  simpl in H1, H2.
  destruct i1'.2; [|by simplify_eq].
  destruct (negb _ && negb _); [|by simplify_eq].
  destruct bs1 as [[|b bs]|]; by simplify_eq.
Qed.

Lemma iter_loop_agree {A} (self1 self2 : DataLoaderDispatcher.t A) fuel :
  same_traversal self1 self2 →
  ∀ sess1 sess2 it nb nbi fb idx rs1 rs2 s1 s2 r1 r2,
    DataLoaderDispatcher._stop_iteration sess1
    = DataLoaderDispatcher._stop_iteration sess2 →
    fmap round_data rs1 = fmap round_data rs2 →
    DataLoaderDispatcher.iter_loop self1 fuel sess1 it nb nbi fb idx rs1
    = Done (s1, r1) →
    DataLoaderDispatcher.iter_loop self2 fuel sess2 it nb nbi fb idx rs2
    = Done (s2, r2) →
    fmap round_data r1 = fmap round_data r2.
Proof.
  intros Hsame. pose proof Hsame as (Hbase & Hsplit & Hskip & Hdrop & Htp & HP).
  induction fuel as [|fuel IH];
    intros sess1 sess2 it nb nbi fb idx rs1 rs2 s1 s2 r1 r2 Hstop Hrs H1 H2;
    [done|].
  cbn [DataLoaderDispatcher.iter_loop] in H1, H2.
  rewrite <- ?Hdrop, <- ?HP, <- ?Hskip, <- Hstop in H2.
  destruct nb as [batch|]; [|done].
  apply outcome_bind_Done in H1
    as ([[[[sess1' it1] nb1] nbi1] stop1] & Hnext1 & H1).
  apply outcome_bind_Done in H2
    as ([[[[sess2' it2] nb2] nbi2] stop2] & Hnext2 & H2).
  assert (it1 = it2 ∧ nb1 = nb2 ∧ nbi1 = nbi2 ∧ stop1 = stop2 ∧
          DataLoaderDispatcher._stop_iteration sess1'
          = DataLoaderDispatcher._stop_iteration sess2')
    as (<- & <- & <- & <- & Hstop').
  { destruct (DataLoaderDispatcher._stop_iteration sess1) eqn:Hstop1;
      simpl in Hnext1, Hnext2.
    - simplify_eq. repeat split; congruence.
    - apply outcome_bind_Done in Hnext1 as ([[[t1 u1] v1] w1] & Hf1 & Hnext1).
      apply outcome_bind_Done in Hnext2 as ([[[t2 u2] v2] w2] & Hf2 & Hnext2).
      destruct (fetch_batches_agree _ _ _ _ _ _ _ _ _ _ _ _ _ Hsame Hf1 Hf2)
        as (<- & <- & <- & Hst).
      simplify_eq. by rewrite Hst. }
  apply outcome_bind_Done in H1 as ([sliced1 bs1] & Hsl1 & H1).
  apply outcome_bind_Done in H2 as ([sliced2 bs2] & Hsl2 & H2).
  rewrite Hsl1 in Hsl2. injection Hsl2 as <- <-.
  apply outcome_bind_Done in H1 as (sess1'' & Hs1 & H1).
  apply outcome_bind_Done in H2 as (sess2'' & Hs2 & H2).
  destruct stop1.
  - injection H1 as _ <-. injection H2 as _ <-.
    rewrite !fmap_app, Hrs. done.
  - injection Hs1 as <-. injection Hs2 as <-.
    eapply (IH _ _ _ _ _ _ _ _ _ _ _ _ _ Hstop' _ H1 H2).
    Unshelve. rewrite !fmap_app, Hrs. done.
Qed.

Lemma rounds_agree {A} (self1 self2 : DataLoaderDispatcher.t A)
    sess1 sess2 s1 s2 r1 r2 :
  same_traversal self1 self2 →
  DataLoaderDispatcher.rounds self1 sess1 = Done (s1, r1) →
  DataLoaderDispatcher.rounds self2 sess2 = Done (s2, r2) →
  fmap round_data r1 = fmap round_data r2.
Proof.
  intros Hsame H1 H2. pose proof Hsame as (Hbase & _).
  unfold DataLoaderDispatcher.rounds in H1, H2. rewrite <- Hbase in H2.
  destruct (DataLoaderStateMixin.begin _ _ _ _) as [m1 gs1] in H1.
  destruct (DataLoaderStateMixin.begin _ _ _ _) as [m2 gs2] in H2.
  apply outcome_bind_Done in H1 as ([[[t1 u1] v1] w1] & Hf1 & H1).
  apply outcome_bind_Done in H2 as ([[[t2 u2] v2] w2] & Hf2 & H2).
  destruct (fetch_batches_agree _ _ _ _ _ _ _ _ _ _ _ _ _ Hsame Hf1 Hf2)
    as (<- & <- & <- & Hstop).
  apply outcome_bind_Done in H1 as ([t1' rs1] & Hl1 & H1).
  apply outcome_bind_Done in H2 as ([t2' rs2] & Hl2 & H2).
  injection H1 as _ <-. injection H2 as _ <-.
  by eapply (iter_loop_agree self1 self2 _ Hsame _ _ _ _ _ _ _ [] []).
Qed.

Lemma rounds_ok {A} (self : DataLoaderDispatcher.t A) sess sess' rs :
  DataLoaderDispatcher.rounds self sess = Done (sess', rs) →
  ∃ first rest,
    rs = first :: rest ∧
    Forall (round_ok self
              (pool_after self None (DataLoaderDispatcher.round_batch first)))
      rs ∧
    ∀ k r, rs !! k = Some r →
           DataLoaderDispatcher.round_stop r = bool_decide (k = length rest).
Proof.
  intros H. unfold DataLoaderDispatcher.rounds in H.
  destruct (DataLoaderStateMixin.begin _ _ _ _) as [m gs].
  apply outcome_bind_Done in H as ([[[t u] v] w] & Hf & H).
  apply outcome_bind_Done in H as ([t' rs'] & Hl & H).
  injection H as _ <-.
  apply iter_loop_rounds in Hl as (first & rest & -> & _ & Hall & Hstops).
  eauto.
Qed.

Lemma same_traversal_on_process {A} (self : DataLoaderDispatcher.t A) p q :
  same_traversal (on_process self p) (on_process self q).
Proof. by repeat split. Qed.

Lemma round_slices_eq {A} (self : DataLoaderDispatcher.t A)
    (sess : nat → DataLoaderDispatcher.session) k r0 :
  let P := state_num_processes (DataLoaderDispatcher.state self) in
  (∀ p, p < P →
        ∃ sess' rs,
          DataLoaderDispatcher.rounds (on_process self p) (sess p)
          = Done (sess', rs)) →
  rounds_of (on_process self 0) (sess 0) !! k = Some r0 →
  (∀ p, p < P → is_Some (rounds_of (on_process self p) (sess p) !! k)) ∧
  slices_of_round self sess k
  = map (fun p =>
           py_slice (DataLoaderDispatcher.round_sliced r0)
             (p * DataLoaderDispatcher.round_batch_size r0)
             ((p + 1) * DataLoaderDispatcher.round_batch_size r0))
      (seq 0 P).
Proof.
  intros P Hdone Hk.
  assert (∀ p, p < P →
    ∃ rp, rounds_of (on_process self p) (sess p) !! k = Some rp ∧
          DataLoaderDispatcher.round_slice rp
          = py_slice (DataLoaderDispatcher.round_sliced r0)
              (p * DataLoaderDispatcher.round_batch_size r0)
              ((p + 1) * DataLoaderDispatcher.round_batch_size r0)) as Hp.
  { intros p Hlt. destruct (Hdone p Hlt) as (sp & rsp & Hrp).
    assert (0 < P) as H0 by lia. destruct (Hdone 0 H0) as (s0 & rs0 & Hr0).
    unfold rounds_of in Hk |- *. rewrite Hr0 in Hk. rewrite Hrp.
    pose proof (rounds_agree _ _ _ _ _ _ _ _
                  (same_traversal_on_process self p 0) Hrp Hr0) as Hag.
    assert ((round_data <$> rsp) !! k = Some (round_data r0)) as Hlk
      by (by rewrite Hag, list_lookup_fmap, Hk).
    rewrite list_lookup_fmap in Hlk.
    destruct (rsp !! k) as [rp|] eqn:Hrpk; [|done].
    exists rp. split; [done|].
    injection Hlk as _ _ _ Hsl Hbs _.
    apply rounds_ok in Hrp as (first & rest & _ & Hall & _).
    rewrite Forall_lookup in Hall.
    destruct (Hall k rp Hrpk) as (_ & Hslice & _).
    simpl in Hslice. by rewrite Hslice, Hsl, Hbs. }
  split.
  - intros p Hlt. destruct (Hp p Hlt) as (rp & -> & _). eauto.
  - unfold slices_of_round. apply map_ext_in. intros p Hin.
    apply in_seq in Hin. destruct (Hp p) as (rp & -> & ->); [lia|done].
Qed.

(** C4, as stated, fails: on the second pass of [uneven_dispatcher] the
    slices of the three processes put together are [6, 7, 0], the combined
    batch [6, 7] completed from the pool, not the combined batch. *)
Lemma dispatch_round_trip_counterexample :
  DataLoaderDispatcher.round_batch
    <$> rounds_of (on_process uneven_dispatcher 0) fresh_session !! 1
  = Some [6; 7] ∧
  concat (slices_of_round uneven_dispatcher (fun _ => fresh_session) 1)
  = [6; 7; 0] ∧
  [6; 7; 0] ≠ [6; 7].
Proof. repeat split; try discriminate; vm_compute; reflexivity. Qed.

(** C4, amended: when the traversal completes on every process, the slices
    of the processes for pass [k], put together in the order of the
    processes, are the combined batch of that pass when its size is a
    multiple of the process count; on a last pass whose size is not, with
    [_drop_last] false, they are the combined batch followed by the first
    items of the pool (the leading [num_processes] items of the first
    combined batch), as many as the round lacks. *)
Theorem dispatch_round_trip {A} (self : DataLoaderDispatcher.t A)
    (sess : nat → DataLoaderDispatcher.session) (k : nat)
    (r0 : DataLoaderDispatcher.round A) :
  let P := state_num_processes (DataLoaderDispatcher.state self) in
  let n := length (DataLoaderDispatcher.round_batch r0) in
  0 < P →
  (∀ p, p < P →
        ∃ sess' rs,
          DataLoaderDispatcher.rounds (on_process self p) (sess p)
          = Done (sess', rs)) →
  rounds_of (on_process self 0) (sess 0) !! k = Some r0 →
  (∀ p, p < P → is_Some (rounds_of (on_process self p) (sess p) !! k)) ∧
  (n mod P = 0 →
   concat (slices_of_round self sess k) = DataLoaderDispatcher.round_batch r0) ∧
  (n mod P ≠ 0 →
   DataLoaderDispatcher.round_stop r0 = true →
   DataLoaderDispatcher._drop_last self = false →
   ∃ first,
     rounds_of (on_process self 0) (sess 0) !! 0 = Some first ∧
     concat (slices_of_round self sess k)
     = DataLoaderDispatcher.round_batch r0
       ++ take (P - n mod P)
            (take P (DataLoaderDispatcher.round_batch first))).
Proof.
  intros P n HP Hdone Hk.
  destruct (round_slices_eq self sess k r0 Hdone Hk) as (Hsome & Hslices).
  split; [done|]. rewrite Hslices, concat_process_slices.
  destruct (Hdone 0 HP) as (s0 & rs0 & Hr0).
  unfold rounds_of in Hk |- *. rewrite Hr0 in Hk |- *.
  apply rounds_ok in Hr0 as (first & rest & -> & Hall & _).
  rewrite Forall_lookup in Hall.
  destruct (Hall k r0 Hk) as (_ & _ & Hcase). simpl in Hcase.
  fold P n in Hcase. split.
  - intros Hmod. rewrite Hmod in Hcase. simpl in Hcase.
    rewrite andb_false_r in Hcase. destruct Hcase as [-> ->].
    by apply take_whole_rounds.
  - intros Hmod Hstop Hdrop. exists first. split; [done|].
    rewrite Hstop, Hdrop in Hcase.
    destruct (n mod P =? 0) eqn:E; [apply Nat.eqb_eq in E; done|].
    simpl in Hcase. destruct Hcase as (fb & Hpool & -> & ->).
    unfold pool_after in Hpool. simpl in Hpool. injection Hpool as <-.
    by apply take_padded_round.
Qed.

Lemma dispatch_round_trip_witness :
  ∃ r0,
    rounds_of (on_process uneven_dispatcher 0) fresh_session !! 0 = Some r0 ∧
    concat (slices_of_round uneven_dispatcher (fun _ => fresh_session) 0)
    = DataLoaderDispatcher.round_batch r0.
Proof.
  eexists. split; [vm_compute; reflexivity|].
  refine (proj1 (proj2
    (dispatch_round_trip uneven_dispatcher (fun _ => fresh_session) 0
       _ _ _ _)) _).
  - simpl. lia.
  - intros p Hp. simpl in Hp.
    destruct p as [|[|[|p]]]; [| | |lia]; vm_compute; eauto.
  - vm_compute. reflexivity.
  - reflexivity.
Defined.

(** C5, as stated, fails: with [_drop_last] no pool is retained from the
    first combined batch. *)
Lemma dispatch_pool_counterexample :
  DataLoaderDispatcher.round_first_batch
    <$> rounds_of (dispatcher_of [[0; 1]; [2; 3]] 2 0 false true)
          fresh_session !! 0
  = Some None.
Proof. vm_compute. reflexivity. Qed.

(** C5, amended: when [_drop_last] is false, the leading [num_processes]
    items of the first combined batch are the pool of every pass; the last
    pass is the one that stops; on it, when the size of the combined batch
    is not a multiple of the process count, the pool is appended to the
    combined batch before slicing and the chunk is the quotient plus one;
    on every other pass the combined batch is sliced as it is with the
    quotient as chunk; the slice of the process is its window of that
    chunk size. *)
Theorem dispatch_pool {A} (self : DataLoaderDispatcher.t A)
    (sess sess' : DataLoaderDispatcher.session)
    (rs : list (DataLoaderDispatcher.round A)) :
  let P := state_num_processes (DataLoaderDispatcher.state self) in
  let p := state_process_index (DataLoaderDispatcher.state self) in
  DataLoaderDispatcher._drop_last self = false →
  DataLoaderDispatcher.rounds self sess = Done (sess', rs) →
  ∃ first rest,
    rs = first :: rest ∧
    ∀ k r, rs !! k = Some r →
      let pool := take P (DataLoaderDispatcher.round_batch first) in
      let n := length (DataLoaderDispatcher.round_batch r) in
      DataLoaderDispatcher.round_first_batch r = Some pool ∧
      DataLoaderDispatcher.round_stop r = bool_decide (k = length rest) ∧
      DataLoaderDispatcher.round_slice r
      = py_slice (DataLoaderDispatcher.round_sliced r)
          (p * DataLoaderDispatcher.round_batch_size r)
          ((p + 1) * DataLoaderDispatcher.round_batch_size r) ∧
      (DataLoaderDispatcher.round_stop r = true → n mod P ≠ 0 →
       DataLoaderDispatcher.round_sliced r
       = DataLoaderDispatcher.round_batch r ++ pool ∧
       DataLoaderDispatcher.round_batch_size r = n / P + 1) ∧
      (DataLoaderDispatcher.round_stop r = false ∨ n mod P = 0 →
       DataLoaderDispatcher.round_sliced r = DataLoaderDispatcher.round_batch r ∧
       DataLoaderDispatcher.round_batch_size r = n / P).
Proof.
  intros P p Hdrop Hrun.
  apply rounds_ok in Hrun as (first & rest & -> & Hall & Hstops).
  exists first, rest. split; [done|]. intros k r Hk pool n.
  rewrite Forall_lookup in Hall.
  destruct (Hall k r Hk) as (Hfb & Hslice & Hcase).
  unfold pool_after in Hfb, Hcase. rewrite Hdrop in Hfb, Hcase.
  simpl in Hfb, Hcase. fold P n pool in Hfb, Hcase.
  split; [done|]. split; [by apply Hstops|]. split; [done|]. split.
  - intros Hstop Hmod. rewrite Hstop in Hcase.
    destruct (n mod P =? 0) eqn:E; [apply Nat.eqb_eq in E; done|].
    simpl in Hcase. destruct Hcase as (fb & [= <-] & ? & ?). done.
  - intros [Hstop|Hmod].
    + by rewrite Hstop in Hcase.
    + rewrite Hmod in Hcase. simpl in Hcase. by rewrite andb_false_r in Hcase.
Qed.

Lemma dispatch_pool_witness :
  ∃ first rest,
    rounds_of uneven_dispatcher fresh_session = first :: rest ∧
    ∀ k r, rounds_of uneven_dispatcher fresh_session !! k = Some r →
      DataLoaderDispatcher.round_first_batch r = Some [0; 1; 2].
Proof.
  assert (∃ s, DataLoaderDispatcher.rounds uneven_dispatcher fresh_session
               = Done (s, rounds_of uneven_dispatcher fresh_session))
    as [s Hs] by (vm_compute; eauto).
  destruct (dispatch_pool uneven_dispatcher fresh_session s _ eq_refl Hs)
    as (first & rest & Heq & Hall).
  exists first, rest. split; [done|]. intros k r Hk.
  destruct (Hall k r Hk) as (-> & _).
  rewrite Heq in Hs. vm_compute in Hs. by injection Hs as _ <- _.
Defined.

(** ** Shards of a batch sampler *)

Lemma mod_succ_wrap n P :
  0 < P → n mod P = P - 1 → (n + 1) mod P = 0 ∧ (n + 1) / P = n / P + 1.
Proof.
  intros HP Hr. pose proof (Nat.div_mod_eq n P).
  split; symmetry.
  - apply (Nat.mod_unique _ _ (n / P + 1)); lia.
  - apply (Nat.div_unique _ _ _ 0); lia.
Qed.

Lemma mod_succ_step n P :
  0 < P → n mod P ≠ P - 1 →
  (n + 1) mod P = n mod P + 1 ∧ (n + 1) / P = n / P.
Proof.
  intros HP Hr. pose proof (Nat.div_mod_eq n P).
  pose proof (Nat.mod_upper_bound n P).
  split; symmetry.
  - apply (Nat.mod_unique _ _ (n / P)); lia.
  - apply (Nat.div_unique _ _ _ (n mod P + 1)); lia.
Qed.

Lemma batch_at_app_l {A} (l k : list (list A)) i :
  i < length l → batch_at (l ++ k) i = batch_at l i.
Proof. intros Hi. unfold batch_at. by rewrite lookup_app_l. Qed.

Lemma batch_at_app_r {A} (l : list (list A)) x :
  batch_at (l ++ [x]) (length l) = x.
Proof.
  unfold batch_at. rewrite lookup_app_r by lia.
  by rewrite Nat.sub_diag.
Qed.

Lemma batch_at_length {A} (batches : list (list A)) b i :
  Forall (fun x => length x = b) batches →
  i < length batches →
  length (batch_at batches i) = b.
Proof.
  intros Hfull Hi. unfold batch_at.
  destruct (lookup_lt_is_Some_2 batches i Hi) as [x Hx]. rewrite Hx.
  apply (Forall_lookup_1 _ _ _ _ Hfull Hx).
Qed.

Lemma no_split_initial_data {A} (self : BatchSamplerShard.t A) batches :
  ∀ st idx,
    BatchSamplerShard.ns_initial_data
      (for_enumerate (BatchSamplerShard.no_split_body self) st idx batches)
    = BatchSamplerShard.ns_initial_data st
      ++ (if BatchSamplerShard.drop_last self then []
          else concat (take (BatchSamplerShard.num_processes self - idx)
                         batches)).
Proof.
  induction batches as [|x batches IH]; intros st idx; simpl.
  - rewrite take_nil. destruct (BatchSamplerShard.drop_last self);
      by rewrite app_nil_r.
  - rewrite IH. unfold BatchSamplerShard.no_split_body.
    destruct (BatchSamplerShard.drop_last self); simpl.
    + by destruct (_ && _).
    + destruct (idx <? BatchSamplerShard.num_processes self) eqn:E.
      * apply Nat.ltb_lt in E.
        replace (BatchSamplerShard.num_processes self - idx)
          with (S (BatchSamplerShard.num_processes self - (idx + 1))) by lia.
        simpl. destruct (_ && _); simpl; by rewrite <- app_assoc.
      * apply Nat.ltb_ge in E.
        replace (BatchSamplerShard.num_processes self - idx) with 0 by lia.
        replace (BatchSamplerShard.num_processes self - (idx + 1))
          with 0 by lia.
        rewrite !take_0. by destruct (_ && _).
Qed.

Lemma check_num_processes_ok {A} (self : BatchSamplerShard.t A) :
  0 < BatchSamplerShard.num_processes self →
  BatchSamplerShard.check_num_processes self = Done ().
Proof.
  intros HP. unfold BatchSamplerShard.check_num_processes.
  destruct (sampler_batches _); [done|].
  by assert ((BatchSamplerShard.num_processes self =? 0) = false) as ->
    by (apply Nat.eqb_neq; lia).
Qed.

Lemma no_split_loop_full {A} (self : BatchSamplerShard.t A) b full :
  let P := BatchSamplerShard.num_processes self in
  let p := BatchSamplerShard.process_index self in
  let st :=
    for_enumerate (BatchSamplerShard.no_split_body self)
      {| BatchSamplerShard.ns_initial_data := [];
         BatchSamplerShard.ns_batch_to_yield := [];
         BatchSamplerShard.ns_cur := None;
         BatchSamplerShard.ns_yielded := [] |} 0 full in
  let n := length full in
  BatchSamplerShard.batch_size self = Some b →
  0 < P → p < P →
  Forall (fun x => length x = b) full →
  BatchSamplerShard.ns_batch_to_yield st
  = (if p <? n mod P then batch_at full (n / P * P + p) else []) ∧
  BatchSamplerShard.ns_cur st
  = match n with 0 => None | S n' => Some (n', batch_at full n') end ∧
  BatchSamplerShard.ns_yielded st
  = map (fun k => batch_at full (k * P + p)) (seq 0 (n / P)).
Proof.
  intros P p st n Hb HP Hp. subst st n.
  induction full as [|x full IH] using rev_ind; intros Hfull.
  - cbn [for_enumerate length].
    by rewrite (Nat.Div0.mod_0_l P), (Nat.Div0.div_0_l P).
  - rewrite Forall_app, Forall_singleton in Hfull.
    destruct Hfull as [Hfull Hx].
    destruct (IH Hfull) as (Hbty & Hcur & Hout). clear IH.
    rewrite for_enumerate_app. simpl.
    set (st := for_enumerate _ _ 0 full) in *.
    pose proof (batch_at_app_r full x) as Hlast.
    assert (∀ i, i < length full → batch_at (full ++ [x]) i = batch_at full i)
      as Hprev by (intros i Hi; by apply batch_at_app_l).
    set (n := length full) in *.
    rewrite length_app. simpl. fold n.
    unfold BatchSamplerShard.no_split_body. fold P p.
    rewrite Hb. simpl. rewrite Hx, Nat.eqb_refl, andb_true_r.
    pose proof (Nat.div_mod_eq n P) as Hdm.
    pose proof (Nat.mod_upper_bound n P) as Hub.
    destruct (n mod P =? P - 1) eqn:Hwrap.
    + apply Nat.eqb_eq in Hwrap.
      destruct (mod_succ_wrap n P HP Hwrap) as [-> ->]. simpl.
      split; [done|]. split.
      { replace (n + 1) with (S n) by lia. by rewrite Hlast. }
      rewrite seq_app, map_app. simpl. rewrite Hout. f_equal.
      * apply map_ext_in. intros k Hk. apply in_seq in Hk.
        rewrite Hprev; [done|]. nia.
      * f_equal. destruct (n mod P =? p) eqn:E.
        -- apply Nat.eqb_eq in E.
           replace (n / P * P + p) with n by lia. by rewrite Hlast.
        -- apply Nat.eqb_neq in E. rewrite Hbty.
           destruct (p <? n mod P) eqn:E'; [|apply Nat.ltb_ge in E'; lia].
           apply Nat.ltb_lt in E'. rewrite Hprev; [done|]. lia.
    + apply Nat.eqb_neq in Hwrap.
      destruct (mod_succ_step n P HP Hwrap) as [-> ->]. simpl.
      split; [|split].
      * destruct (n mod P =? p) eqn:E.
        -- apply Nat.eqb_eq in E.
           destruct (p <? n mod P + 1) eqn:E';
             [|apply Nat.ltb_ge in E'; lia].
           replace (n / P * P + p) with n by lia. by rewrite Hlast.
        -- apply Nat.eqb_neq in E. rewrite Hbty.
           destruct (p <? n mod P) eqn:E1.
           ++ apply Nat.ltb_lt in E1.
              destruct (p <? n mod P + 1) eqn:E2;
                [|apply Nat.ltb_ge in E2; lia].
              rewrite Hprev; [done|]. lia.
           ++ apply Nat.ltb_ge in E1.
              by destruct (p <? n mod P + 1) eqn:E2;
                [apply Nat.ltb_lt in E2; lia|].
      * replace (n + 1) with (S n) by lia. by rewrite Hlast.
      * rewrite Hout. apply map_ext_in. intros k Hk. apply in_seq in Hk.
        rewrite Hprev; [done|]. nia.
Qed.

Lemma length_concat_full {A} (full : list (list A)) b :
  Forall (fun x => length x = b) full →
  length (concat full) = length full * b.
Proof.
  induction 1 as [|x full Hx _ IH]; [done|].
  simpl. rewrite length_app, IH, Hx. done.
Qed.

Lemma window_skip {A} (full : list (list A)) (rest : list A) b i :
  Forall (fun x => length x = b) full →
  window (concat full ++ rest) b (length full + i) = window rest b i.
Proof.
  intros Hfull. unfold window, py_slice.
  pose proof (length_concat_full full b Hfull) as Hlen.
  rewrite drop_app_ge by lia. rewrite Hlen.
  f_equal; [lia|]. f_equal. lia.
Qed.

Lemma window_head {A} (x rest : list A) :
  window (x ++ rest) (length x) 0 = x.
Proof.
  unfold window, py_slice.
  replace (0 * length x) with 0 by lia.
  replace ((0 + 1) * length x - 0) with (length x) by lia.
  by rewrite drop_0, take_app_length.
Qed.

Lemma window_full {A} (full : list (list A)) (rest : list A) b j :
  Forall (fun x => length x = b) full →
  j < length full →
  window (concat full ++ rest) b j = batch_at full j.
Proof.
  intros Hfull Hj. unfold batch_at.
  destruct (lookup_lt_is_Some_2 full j Hj) as [x Hx]. rewrite Hx. simpl.
  pose proof (Forall_lookup_1 _ _ _ _ Hfull Hx) as Hlen. simpl in Hlen.
  assert (concat full ++ rest
          = concat (take j full) ++ (x ++ concat (drop (S j) full) ++ rest))
    as ->.
  { rewrite <- (take_drop_middle full j x Hx) at 1.
    rewrite concat_app. simpl. by rewrite <- !app_assoc. }
  pose proof (window_skip (take j full)
                (x ++ concat (drop (S j) full) ++ rest) b 0
                (Forall_take _ _ _ Hfull)) as Hskip.
  rewrite length_take in Hskip.
  replace (j `min` length full + 0) with j in Hskip by lia.
  rewrite Hskip, <- Hlen. apply window_head.
Qed.

Lemma copies_add {A} m k (l : list A) :
  copies (m + k) l = copies m l ++ copies k l.
Proof. unfold copies. by rewrite replicate_add, concat_app. Qed.

Lemma length_copies {A} m (l : list A) : length (copies m l) = m * length l.
Proof.
  unfold copies. induction m as [|m IH]; [done|].
  simpl. rewrite length_app, IH. done.
Qed.

Lemma double_until_copies {A} (l : list A) target fuel :
  0 < length l →
  ∀ m, 0 < m → target ≤ fuel + m * length l →
    ∃ m', m ≤ m' ∧
          double_until fuel target (copies m l) = Done (copies m' l) ∧
          target ≤ m' * length l.
Proof.
  intros Hl. induction fuel as [|fuel IH]; intros m Hm Hfuel; simpl.
  - rewrite length_copies.
    destruct (_ <? target) eqn:E; [apply Nat.ltb_lt in E; lia|].
    apply Nat.ltb_ge in E. eauto.
  - rewrite length_copies.
    destruct (_ <? target) eqn:E.
    + rewrite <- copies_add.
      destruct (IH (m + m)) as (m' & Hm' & Hrun & Hlen); [lia|nia|].
      exists m'. split; [lia|]. done.
    + apply Nat.ltb_ge in E. eauto.
Qed.

Lemma cycle_loop_empty {A} (self : BatchSamplerShard.t A) b init :
  let P := BatchSamplerShard.num_processes self in
  let p := BatchSamplerShard.process_index self in
  0 < P → p < P →
  ∀ fuel idx c yielded,
    (idx mod P ≠ 0 → P - idx mod P ≤ fuel) →
    BatchSamplerShard.cycle_loop self b init fuel idx [] c yielded
    = Done (yielded
            ++ if (0 <? idx mod P) && (idx mod P <=? p)
               then [py_slice init (c + (p - idx mod P) * b)
                       (c + (p - idx mod P) * b + b)]
               else []).
Proof.
  intros P p HP Hp.
  induction fuel as [|fuel IH]; intros idx c yielded Hfuel.
  - assert (idx mod P = 0) as Hr.
    { destruct (decide (idx mod P = 0)) as [|Hne]; [done|].
      specialize (Hfuel Hne). pose proof (Nat.mod_upper_bound idx P). lia. }
    simpl. fold P. rewrite Hr. simpl. by rewrite app_nil_r.
  - cbn [BatchSamplerShard.cycle_loop]. fold P p.
    pose proof (Nat.mod_upper_bound idx P) as Hub.
    destruct (idx mod P =? 0) eqn:Hr0; simpl.
    + apply Nat.eqb_eq in Hr0. rewrite Hr0. simpl. by rewrite app_nil_r.
    + apply Nat.eqb_neq in Hr0.
      rewrite IH.
      2:{ intros Hne. destruct (decide (idx mod P = P - 1)) as [Hw|Hw].
          - destruct (mod_succ_wrap idx P HP Hw) as [? _]. done.
          - destruct (mod_succ_step idx P HP Hw) as [-> _].
            specialize (Hfuel Hr0). lia. }
      f_equal.
      assert ((0 <? idx mod P) = true) as -> by (apply Nat.ltb_lt; lia).
      simpl.
      destruct (decide (idx mod P = P - 1)) as [Hw|Hw].
      * destruct (mod_succ_wrap idx P HP Hw) as [-> _]. simpl.
        rewrite app_nil_r.
        destruct (idx mod P =? p) eqn:E.
        -- apply Nat.eqb_eq in E.
           assert ((idx mod P <=? p) = true) as -> by (apply Nat.leb_le; lia).
           do 3 f_equal; lia.
        -- apply Nat.eqb_neq in E.
           assert ((idx mod P <=? p) = false) as -> by (apply Nat.leb_gt; lia).
           by rewrite app_nil_r.
      * destruct (mod_succ_step idx P HP Hw) as [-> _].
        assert ((0 <? idx mod P + 1) = true) as -> by (apply Nat.ltb_lt; lia).
        simpl.
        destruct (idx mod P =? p) eqn:E.
        -- apply Nat.eqb_eq in E.
           assert ((idx mod P <=? p) = true) as -> by (apply Nat.leb_le; lia).
           assert ((idx mod P + 1 <=? p) = false) as ->
             by (apply Nat.leb_gt; lia).
           rewrite app_nil_r. do 3 f_equal; lia.
        -- apply Nat.eqb_neq in E.
           destruct (idx mod P + 1 <=? p) eqn:E'.
           ++ apply Nat.leb_le in E'.
              assert ((idx mod P <=? p) = true) as ->
                by (apply Nat.leb_le; lia).
              replace (p - idx mod P) with (S (p - (idx mod P + 1))) by lia.
              do 3 f_equal; lia.
           ++ apply Nat.leb_gt in E'.
              assert ((idx mod P <=? p) = false) as ->
                by (apply Nat.leb_gt; lia).
              done.
Qed.

Lemma cycle_loop_pending {A} (self : BatchSamplerShard.t A) b init
    fuel idx batch c yielded :
  0 < fuel → 0 < length batch →
  BatchSamplerShard.cycle_loop self b init fuel idx batch c yielded
  = BatchSamplerShard.cycle_loop self b init (fuel - 1) (idx + 1) []
      (c + b - length batch)
      (if idx mod BatchSamplerShard.num_processes self
          =? BatchSamplerShard.process_index self
       then yielded ++ [batch ++ py_slice init c (c + b - length batch)]
       else yielded).
Proof.
  intros Hfuel Hbatch. destruct fuel as [|fuel]; [lia|].
  cbn [BatchSamplerShard.cycle_loop].
  assert ((0 <? length batch) = true) as -> by by apply Nat.ltb_lt.
  rewrite orb_true_r. simpl. by rewrite Nat.sub_0_r.
Qed.

Lemma copies_1 {A} (l : list A) : copies 1 l = l.
Proof. unfold copies. simpl. by rewrite app_nil_r. Qed.

Lemma ceil_div_succ n P : 0 < P → ceil_div (n + 1) P = n / P + 1.
Proof.
  intros HP. unfold ceil_div. symmetry.
  pose proof (Nat.div_mod_eq n P). pose proof (Nat.mod_upper_bound n P).
  apply (Nat.div_unique _ _ _ (n mod P)); lia.
Qed.

Lemma well_formed_cases {A} b (batches : list (list A)) :
  well_formed b batches →
  batches = [] ∨
  ∃ full last,
    batches = full ++ [last] ∧
    Forall (fun x => length x = b) full ∧ 0 < length last ≤ b.
Proof.
  intros [Hb Hwf].
  destruct batches as [|x batches] using rev_ind; [by left|]. right.
  exists batches, x. split; [done|]. split.
  - apply Forall_lookup. intros i y Hy.
    apply (Hwf i y).
    + by apply lookup_app_l_Some.
    + rewrite length_app. simpl. apply lookup_lt_Some in Hy. lia.
  - apply (Hwf (length batches) x).
    rewrite lookup_app_r by lia. by rewrite Nat.sub_diag.
Qed.

Lemma no_split_even_all_full {A} (batches : list (list A)) b P p :
  0 < b → 0 < P → p < P →
  batches ≠ [] →
  Forall (fun x => length x = b) batches →
  ∃ m,
    0 < m ∧ P * b ≤ m * length (concat (take P batches)) ∧
    BatchSamplerShard._iter_with_no_split
      (shard_of batches b false P p false true)
    = Done (map (fun k =>
                   window (concat batches
                           ++ copies m (concat (take P batches))) b
                     (k * P + p))
              (seq 0 (ceil_div (length batches) P))).
Proof.
  intros Hb HP Hp Hne Hfull.
  set (self := shard_of batches b false P p false true).
  unfold BatchSamplerShard._iter_with_no_split.
  rewrite check_num_processes_ok by done.
  destruct (no_split_loop_full self b batches eq_refl HP Hp Hfull)
    as (Hbty & Hcur & Hout).
  pose proof (no_split_initial_data self batches
                {| BatchSamplerShard.ns_initial_data := [];
                   BatchSamplerShard.ns_batch_to_yield := [];
                   BatchSamplerShard.ns_cur := None;
                   BatchSamplerShard.ns_yielded := [] |} 0) as Hinit.
  simpl in Hbty, Hcur, Hout, Hinit. rewrite Nat.sub_0_r in Hinit.
  simpl. set (st := for_enumerate _ _ 0 batches) in *.
  rewrite Hinit, Hbty, Hcur, Hout. clear Hinit Hbty Hcur Hout.
  set (init := concat (take P batches)).
  assert (0 < length init) as Hinit.
  { subst init. destruct batches as [|x batches]; [done|].
    apply Forall_cons in Hfull as [Hx _].
    destruct P; [lia|]. simpl. rewrite length_app. lia. }
  assert ((0 <? length init) = true) as -> by by apply Nat.ltb_lt.
  destruct (double_until_copies init (P * b) (P * b) Hinit 1)
    as (m & Hm & Hrun & Hlen); [lia|lia|].
  rewrite copies_1 in Hrun. rewrite Hrun. simpl.
  exists m. split; [lia|]. split; [lia|].
  assert (0 < length batches) as HL
    by (destruct batches; [done|simpl; lia]).
  set (L := length batches) in *.
  assert (match L with
          | 0 => None
          | S n' => Some (n', batch_at batches n')
          end = Some (L - 1, batch_at batches (L - 1))) as ->.
  { destruct L; [lia|]. simpl. by rewrite Nat.sub_0_r. }
  rewrite (batch_at_length batches b (L - 1)) by (done || lia).
  rewrite Nat.eqb_refl. replace (L - 1 + 1) with L by lia.
  rewrite cycle_loop_empty by (done || (simpl; lia)).
  simpl BatchSamplerShard.num_processes.
  simpl BatchSamplerShard.process_index.
  pose proof (Nat.div_mod_eq L P) as Hdm.
  pose proof (Nat.mod_upper_bound L P) as Hub.
  f_equal.
  assert (map (fun k => batch_at batches (k * P + p)) (seq 0 (L / P))
          = map (fun k => window (concat batches ++ copies m init) b
                            (k * P + p)) (seq 0 (L / P))) as ->.
  { apply map_ext_in. intros k Hk. apply in_seq in Hk.
    rewrite window_full; [done|done|]. fold L. nia. }
  destruct (decide (L mod P = 0)) as [Hr|Hr].
  - rewrite ceil_div_exact by done. rewrite Hr. simpl.
    destruct b; [lia|]. simpl. by rewrite app_nil_r.
  - rewrite ceil_div_inexact by done.
    rewrite seq_app, map_app. simpl.
    assert ((0 <? L mod P) = true) as -> by (apply Nat.ltb_lt; lia).
    simpl. destruct (p <? L mod P) eqn:E.
    + apply Nat.ltb_lt in E.
      rewrite (batch_at_length batches b) by (done || (fold L; lia)).
      rewrite Nat.eqb_refl.
      assert ((L mod P <=? p) = false) as -> by (apply Nat.leb_gt; lia).
      rewrite app_nil_r. do 2 f_equal.
      rewrite window_full; [done|done|]. fold L. lia.
    + apply Nat.ltb_ge in E.
      assert ((L mod P <=? p) = true) as -> by (apply Nat.leb_le; lia).
      destruct b as [|b']; [lia|]. simpl length. simpl (0 =? S b').
      cbv iota. do 2 f_equal.
      replace (L / P * P + p) with (L + (p - L mod P)) by lia.
      unfold L. rewrite window_skip by done.
      unfold window. f_equal; lia.
Qed.

Lemma no_split_even_short_last {A} (full : list (list A)) last b P p :
  0 < P → p < P →
  Forall (fun x => length x = b) full →
  0 < length last < b →
  let batches := full ++ [last] in
  ∃ m,
    0 < m ∧ P * b ≤ m * length (concat (take P batches)) ∧
    BatchSamplerShard._iter_with_no_split
      (shard_of batches b false P p false true)
    = Done (map (fun k =>
                   window (concat batches
                           ++ copies m (concat (take P batches))) b
                     (k * P + p))
              (seq 0 (ceil_div (length batches) P))).
Proof.
  intros HP Hp Hfull Hlast batches. subst batches.
  set (self := shard_of (full ++ [last]) b false P p false true).
  unfold BatchSamplerShard._iter_with_no_split.
  rewrite check_num_processes_ok by done.
  pose proof (no_split_initial_data self (full ++ [last])
                {| BatchSamplerShard.ns_initial_data := [];
                   BatchSamplerShard.ns_batch_to_yield := [];
                   BatchSamplerShard.ns_cur := None;
                   BatchSamplerShard.ns_yielded := [] |} 0) as Hinit.
  simpl in Hinit. rewrite Nat.sub_0_r in Hinit.
  destruct (no_split_loop_full self b full eq_refl HP Hp Hfull)
    as (Hbty & Hcur & Hout).
  simpl in Hbty, Hcur, Hout.
  simpl. rewrite for_enumerate_app in Hinit |- *.
  set (st := for_enumerate _ _ 0 full) in *.
  set (n := length full) in *.
  cbn [for_enumerate] in Hinit |- *. replace (0 + n) with n in * by lia.
  set (st' := BatchSamplerShard.no_split_body self st n last) in *.
  assert (BatchSamplerShard.ns_cur st' = Some (n, last) ∧
          BatchSamplerShard.ns_batch_to_yield st'
          = (if n mod P =? p then last
             else BatchSamplerShard.ns_batch_to_yield st) ∧
          BatchSamplerShard.ns_yielded st' = BatchSamplerShard.ns_yielded st)
    as (Hcur' & Hbty' & Hout').
  { subst st'. unfold BatchSamplerShard.no_split_body. simpl.
    assert ((length last =? b) = false) as -> by (apply Nat.eqb_neq; lia).
    rewrite andb_false_r. done. }
  rewrite Hinit, Hcur', Hbty', Hout', Hbty, Hout.
  clear Hinit Hcur' Hbty' Hout' Hbty Hout Hcur.
  set (init := concat (take P (full ++ [last]))).
  assert (0 < length init) as Hinit.
  { subst init. destruct P; [lia|].
    destruct full as [|x full]; simpl; rewrite length_app; [lia|].
    apply Forall_cons in Hfull as [Hx _]. lia. }
  assert ((0 <? length init) = true) as -> by by apply Nat.ltb_lt.
  destruct (double_until_copies init (P * b) (P * b) Hinit 1)
    as (m & Hm & Hrun & Hlen); [lia|lia|].
  rewrite copies_1 in Hrun. rewrite Hrun. simpl.
  exists m. split; [lia|]. split; [lia|].
  assert ((length last =? b) = false) as -> by (apply Nat.eqb_neq; lia).
  rewrite length_app. simpl length. fold n.
  rewrite ceil_div_succ by done.
  rewrite cycle_loop_pending by lia.
  pose proof (Nat.div_mod_eq n P) as Hdm.
  pose proof (Nat.mod_upper_bound n P) as Hub.
  rewrite cycle_loop_empty; [|done|done|].
  2:{ simpl. intros Hne. pose proof (Nat.mod_upper_bound (n + 1) P). lia. }
  simpl BatchSamplerShard.num_processes.
  simpl BatchSamplerShard.process_index.
  f_equal. rewrite seq_app, map_app. simpl.
  rewrite concat_app. simpl. rewrite app_nil_r, <- app_assoc.
  set (init' := copies m init).
  assert (map (fun k => batch_at full (k * P + p)) (seq 0 (n / P))
          = map (fun k => window (concat full ++ last ++ init') b
                            (k * P + p)) (seq 0 (n / P))) as ->.
  { apply map_ext_in. intros k Hk. apply in_seq in Hk.
    rewrite window_full; [done|done|]. fold n. nia. }
  destruct (decide (n mod P = p)) as [Hr|Hr].
  - assert ((n mod P =? p) = true) as -> by by apply Nat.eqb_eq.
    assert ((length last =? b) = false) as -> by (apply Nat.eqb_neq; lia).
    assert (((0 <? (n + 1) mod P) && ((n + 1) mod P <=? p)) = false) as ->.
    { destruct (decide (n mod P = P - 1)) as [Hw|Hw].
      - by destruct (mod_succ_wrap n P HP Hw) as [-> _].
      - destruct (mod_succ_step n P HP Hw) as [-> _].
        apply andb_false_iff. right. apply Nat.leb_gt. lia. }
    rewrite app_nil_r. do 2 f_equal.
    replace (n / P * P + p) with (n + 0) by lia.
    unfold n. rewrite window_skip by done.
    unfold window, py_slice. rewrite !drop_0.
    replace ((0 + 1) * b - 0 * b) with b by lia.
    rewrite take_app, (take_ge last) by lia. do 2 f_equal. lia.
  - assert ((n mod P =? p) = false) as -> by by apply Nat.eqb_neq.
    destruct (p <? n mod P) eqn:E.
    + apply Nat.ltb_lt in E.
      rewrite (batch_at_length full b) by (done || (fold n; lia)).
      rewrite Nat.eqb_refl.
      assert (((0 <? (n + 1) mod P) && ((n + 1) mod P <=? p)) = false) as ->.
      { destruct (decide (n mod P = P - 1)) as [Hw|Hw].
        - by destruct (mod_succ_wrap n P HP Hw) as [-> _].
        - destruct (mod_succ_step n P HP Hw) as [-> _].
          apply andb_false_iff. right. apply Nat.leb_gt. lia. }
      rewrite app_nil_r. do 2 f_equal.
      rewrite window_full; [done|done|]. fold n. lia.
    + apply Nat.ltb_ge in E.
      assert ((length (@nil A) =? b) = false) as ->
        by (apply Nat.eqb_neq; simpl; lia).
      destruct (mod_succ_step n P HP) as [-> _]; [lia|].
      assert (((0 <? n mod P + 1) && (n mod P + 1 <=? p)) = true) as ->.
      { apply andb_true_iff. split; [apply Nat.ltb_lt|apply Nat.leb_le]; lia. }
      do 2 f_equal.
      replace (n / P * P + p) with (n + (p - n mod P)) by lia.
      unfold n. rewrite window_skip by done. fold n.
      unfold window, py_slice.
      replace (p - n mod P) with (S (p - (n mod P + 1))) by lia.
      set (k := p - (n mod P + 1)).
      rewrite drop_app_ge by (simpl; lia).
      f_equal; [simpl; lia|]. f_equal. simpl. lia.
Qed.

Lemma split_loop_yielded {A} (self : BatchSamplerShard.t A) bl b batches :
  BatchSamplerShard.batch_size self = Some b →
  ∀ st idx,
    BatchSamplerShard.sp_yielded
      (for_enumerate (BatchSamplerShard.split_body self bl) st idx batches)
    = BatchSamplerShard.sp_yielded st
      ++ map (fun x =>
                py_slice x (bl * BatchSamplerShard.process_index self)
                  (bl * (BatchSamplerShard.process_index self + 1)))
           (List.filter (fun x => length x =? b) batches).
Proof.
  intros Hb. induction batches as [|x batches IH]; intros st idx; simpl.
  - by rewrite app_nil_r.
  - rewrite IH. unfold BatchSamplerShard.split_body. simpl.
    rewrite Hb. simpl.
    destruct (length x =? b); simpl; by rewrite <- ?app_assoc.
Qed.

Lemma split_loop_cur {A} (self : BatchSamplerShard.t A) bl batches x st idx :
  BatchSamplerShard.sp_cur
    (for_enumerate (BatchSamplerShard.split_body self bl) st idx
       (batches ++ [x]))
  = Some (idx + length batches, x).
Proof. by rewrite for_enumerate_app. Qed.

Lemma split_loop_initial_data_later {A} (self : BatchSamplerShard.t A)
    bl batches :
  ∀ st idx,
    0 < idx →
    BatchSamplerShard.sp_initial_data
      (for_enumerate (BatchSamplerShard.split_body self bl) st idx batches)
    = BatchSamplerShard.sp_initial_data st.
Proof.
  induction batches as [|x batches IH]; intros st idx Hidx; simpl; [done|].
  rewrite IH by lia. simpl.
  by destruct idx; [lia|].
Qed.

Lemma split_loop_initial_data {A} (self : BatchSamplerShard.t A)
    bl batches st :
  batches ≠ [] →
  BatchSamplerShard.sp_initial_data
    (for_enumerate (BatchSamplerShard.split_body self bl) st 0 batches)
  = batch_at batches 0.
Proof.
  destruct batches as [|x batches]; [done|]. intros _. simpl.
  by rewrite split_loop_initial_data_later by lia.
Qed.

Lemma filter_full {A} (full : list (list A)) b :
  Forall (fun x => length x = b) full →
  List.filter (fun x => length x =? b) full = full.
Proof.
  induction 1 as [|x full Hx _ IH]; [done|].
  simpl. by rewrite Hx, Nat.eqb_refl, IH.
Qed.

Lemma py_slice_app_l {A} (x pad : list A) lo hi :
  hi ≤ length x → py_slice (x ++ pad) lo hi = py_slice x lo hi.
Proof.
  intros Hhi. unfold py_slice.
  destruct (decide (lo ≤ hi)) as [Hle|Hgt].
  - rewrite drop_app_le by lia. rewrite take_app_le; [done|].
    rewrite length_drop. lia.
  - replace (hi - lo) with 0 by lia. by rewrite !take_0.
Qed.

Lemma length_py_slice {A} (l : list A) lo hi :
  hi ≤ length l → length (py_slice l lo hi) = hi - lo.
Proof.
  intros Hhi. unfold py_slice. rewrite length_take, length_drop. lia.
Qed.

Lemma split_window_bound b P p : 0 < P → p < P → b / P * (p + 1) ≤ b.
Proof.
  intros HP Hp. pose proof (Nat.Div0.mul_div_le b P).
  assert (b / P * (p + 1) ≤ b / P * P) by (apply Nat.mul_le_mono_l; lia).
  lia.
Qed.

Lemma split_even_closed {A} (batches : list (list A)) b P p :
  0 < P → p < P →
  well_formed b batches →
  ∃ m,
    (batches ≠ [] → b ≤ m * length (batch_at batches 0)) ∧
    BatchSamplerShard._iter_with_split
      (shard_of batches b false P p true true)
    = Done (map (fun x =>
                   py_slice (x ++ copies m (batch_at batches 0))
                     (b / P * p) (b / P * (p + 1)))
              batches).
Proof.
  intros HP Hp Hwf. pose proof (split_window_bound b P p HP Hp) as Hhi.
  destruct (well_formed_cases b batches Hwf)
    as [->|(full & last & -> & Hfull & Hlast)].
  { exists 0. split; [done|]. unfold BatchSamplerShard._iter_with_split.
    simpl. by assert ((P =? 0) = false) as -> by (apply Nat.eqb_neq; lia). }
  set (batches := full ++ [last]).
  set (self := shard_of batches b false P p true true).
  assert (0 < length (batch_at batches 0)) as Hfirst.
  { destruct Hwf as [_ Hwf]. unfold batch_at.
    destruct (batches !! 0) as [x|] eqn:Hx.
    - by apply Hwf in Hx as [[? _] _].
    - apply lookup_ge_None in Hx. subst batches.
      rewrite length_app in Hx. simpl in Hx. lia. }
  unfold BatchSamplerShard._iter_with_split. simpl.
  assert ((P =? 0) = false) as -> by (apply Nat.eqb_neq; lia). simpl.
  fold batches self.
  set (st := for_enumerate _ _ 0 batches).
  assert (BatchSamplerShard.sp_initial_data st = batch_at batches 0) as ->.
  { subst st. apply split_loop_initial_data. subst batches.
    by destruct full. }
  assert (BatchSamplerShard.sp_cur st = Some (length full, last)) as ->.
  { subst st batches. by rewrite split_loop_cur. }
  assert (BatchSamplerShard.sp_yielded st
          = map (fun x => py_slice x (b / P * p) (b / P * (p + 1))) full
            ++ (if length last =? b
                then [py_slice last (b / P * p) (b / P * (p + 1))]
                else [])) as ->.
  { subst st batches. rewrite (split_loop_yielded self _ b) by done.
    simpl. rewrite List.filter_app, map_app, filter_full by done. simpl.
    by destruct (length last =? b). }
  assert ((0 <? length (batch_at batches 0)) = true) as ->
    by by apply Nat.ltb_lt.
  assert (∀ m,
    map (fun x => py_slice x (b / P * p) (b / P * (p + 1))) full
    = map (fun x => py_slice (x ++ copies m (batch_at batches 0))
                      (b / P * p) (b / P * (p + 1))) full) as Hmap.
  { intros m. apply map_ext_in. intros x Hx. rewrite py_slice_app_l; [done|].
    rewrite Forall_forall in Hfull. rewrite (Hfull x); [done|].
    by apply list_elem_of_In. }
  destruct (length last <? b) eqn:Hshort.
  - apply Nat.ltb_lt in Hshort.
    assert ((length last =? b) = false) as -> by (apply Nat.eqb_neq; lia).
    destruct (double_until_copies (batch_at batches 0) b b Hfirst 1)
      as (m0 & Hm0 & Hrun & Hlen); [lia|lia|].
    rewrite copies_1 in Hrun. rewrite Hrun. simpl.
    rewrite app_nil_r.
    destruct (length full =? 0) eqn:Hn.
    + apply Nat.eqb_eq in Hn. apply nil_length_inv in Hn. subst full.
      exists (m0 + m0 - 1). split; [intros _; nia|].
      simpl. do 3 f_equal.
      change (batch_at batches 0) with last.
      rewrite <- copies_add. set (k := m0 + m0 - 1).
      replace (m0 + m0) with (1 + k) by lia.
      by rewrite copies_add, copies_1.
    + exists m0. split; [done|].
      subst batches. rewrite map_app. simpl. by rewrite <- Hmap.
  - apply Nat.ltb_ge in Hshort.
    assert ((length last =? b) = true) as -> by (apply Nat.eqb_eq; lia).
    exists b. split; [intros _; nia|].
    subst batches. rewrite map_app. simpl. rewrite <- Hmap.
    do 3 f_equal. rewrite py_slice_app_l; [done|lia].
Qed.

Lemma init_shard_of {A} (batches : list (list A)) b drop_last P p split even :
  0 < P → (split = true → b mod P = 0) →
  BatchSamplerShard.__init__ (sampler_of batches b drop_last) P p split even
  = Done (shard_of batches b drop_last P p split even).
Proof.
  intros HP Hsplit. unfold BatchSamplerShard.__init__. simpl.
  destruct split; simpl; [|done].
  assert ((P =? 0) = false) as -> by (apply Nat.eqb_neq; lia).
  by rewrite Hsplit.
Qed.


Lemma length_window {A} (indices : list A) b j :
  (j + 1) * b ≤ length indices → length (window indices b j) = b.
Proof.
  intros Hlen. unfold window. rewrite length_py_slice by done. lia.
Qed.


Lemma no_split_even_closed {A} (batches : list (list A)) b P p :
  0 < P → p < P →
  well_formed b batches →
  ∃ m,
    (batches ≠ [] → P * b ≤ m * length (concat (take P batches))) ∧
    BatchSamplerShard._iter_with_no_split
      (shard_of batches b false P p false true)
    = Done (map (fun k =>
                   window (concat batches
                           ++ copies m (concat (take P batches))) b
                     (k * P + p))
              (seq 0 (ceil_div (length batches) P))).
Proof.
  intros HP Hp Hwf. pose proof Hwf as [Hb _].
  destruct (well_formed_cases b batches Hwf)
    as [->|(full & last & -> & Hfull & Hlast)].
  - exists 0. split; [done|].
    unfold BatchSamplerShard._iter_with_no_split, ceil_div. simpl.
    replace (P - 0) with P by lia.
    by rewrite Nat.div_small by lia.
  - destruct (decide (length last = b)) as [Hl|Hl].
    + destruct (no_split_even_all_full (full ++ [last]) b P p)
        as (m & _ & Hlen & Hrun); try done.
      * by destruct full.
      * apply Forall_app. split; [done|]. by apply Forall_singleton.
      * eauto.
    + destruct (no_split_even_short_last full last b P p)
        as (m & _ & Hlen & Hrun); try done; [lia|]. eauto.
Qed.

(** C1, as stated, fails: with [split_batches] a shard yields as many
    batches as the source, here 2 and not [ceil(2 / 2) = 1]. *)
Lemma shard_even_batches_counterexample :
  shard_batches [[0; 1]; [2; 3]] 2 false 2 0 true true = Done [[0]; [2]] ∧
  length [[0]; [2]] ≠ ceil_div 2 2.
Proof. split; [reflexivity|]. vm_compute. discriminate. Qed.

(** C1, amended: for a well-formed source of [L] batches, [drop_last]
    false and [even_batches] true, on process [p < P].  Without
    [split_batches] the shard yields [ceil(L / P)] batches, and its batch of
    round [k] is the window number [k * P + p], of width [b], of the indices
    of the source followed by copies of the indices of its first [P]
    batches.  With [split_batches] the shard yields [L] batches, one for
    each batch of the source: the window of the process in that batch
    followed by copies of the first batch.  In both cases what a yielded
    batch holds beyond the indices of the source are the earliest indices
    of the source, in their order. *)
Theorem shard_even_batches {A} (batches : list (list A)) (b P p : nat)
    (split : bool) :
  0 < P → p < P →
  well_formed b batches →
  (split = true → b mod P = 0) →
  ∃ ys m,
    shard_batches batches b false P p split true = Done ys ∧
    if split then
      length ys = length batches ∧
      ys = map (fun x =>
                  py_slice (x ++ copies m (batch_at batches 0))
                    (b / P * p) (b / P * (p + 1)))
             batches
    else
      length ys = ceil_div (length batches) P ∧
      ys = map (fun k =>
                  window (concat batches
                          ++ copies m (concat (take P batches))) b
                    (k * P + p))
             (seq 0 (ceil_div (length batches) P)).
Proof.
  intros HP Hp Hwf Hsplit. unfold shard_batches.
  rewrite init_shard_of by done. simpl.
  unfold BatchSamplerShard.__iter__. destruct split; simpl.
  - destruct (split_even_closed batches b P p HP Hp Hwf) as (m & _ & Hrun).
    eexists _, m. split; [exact Hrun|]. split; [|done].
    by rewrite length_map.
  - destruct (no_split_even_closed batches b P p HP Hp Hwf) as (m & _ & Hrun).
    eexists _, m. split; [exact Hrun|]. split; [|done].
    by rewrite length_map, length_seq.
Qed.

Lemma well_formed_example : well_formed 3 [[0; 1; 2]; [3; 4; 5]; [6]].
Proof.
  split; [lia|]. intros i batch Hi.
  destruct i as [|[|[|i]]]; simpl in Hi; simplify_eq; simpl; lia.
Qed.

Lemma shard_even_batches_witness :
  ∃ ys m,
    shard_batches [[0; 1; 2]; [3; 4; 5]; [6]] 3 false 2 1 false true = Done ys ∧
    length ys = ceil_div 3 2 ∧
    ys = map (fun k =>
                window (concat [[0; 1; 2]; [3; 4; 5]; [6]]
                        ++ copies m (concat (take 2 [[0; 1; 2]; [3; 4; 5]; [6]])))
                  3 (k * 2 + 1))
           (seq 0 (ceil_div 3 2)).
Proof.
  apply (shard_even_batches [[0; 1; 2]; [3; 4; 5]; [6]] 3 2 1 false).
  - lia.
  - lia.
  - exact well_formed_example.
  - discriminate.
Defined.







(** ** Termination of a dispatched traversal *)

Lemma bind_terminates {T U} (m : outcome T) (k : T → outcome U) :
  m ≠ OutOfFuel →
  (∀ x, m = Done x → k x ≠ OutOfFuel) →
  m ≫= k ≠ OutOfFuel.
Proof. destruct m; simpl; intros Hm Hk; try done. by apply Hk. Qed.

Lemma decrement_if_positive_terminates d key delta :
  DataLoaderAdapter.decrement_if_positive d key delta ≠ OutOfFuel.
Proof.
  unfold DataLoaderAdapter.decrement_if_positive, py_getitem.
  destruct (d !! key) as [[| | |]|]; simpl; try done; by case_match.
Qed.

Lemma adapter_update_terminates {X} ps (base : DataLoader X) n eod d :
  DataLoaderAdapter._update_state_dict ps base n eod d ≠ OutOfFuel.
Proof.
  unfold DataLoaderAdapter._update_state_dict.
  destruct (loader_state_dict base) as [f|]; [|done].
  apply bind_terminates; [|done].
  unfold DataLoaderAdapter.adjust_state_dict_for_prefetch.
  destruct (distributed ps); [|done].
  apply bind_terminates; [apply decrement_if_positive_terminates|].
  intros d1 _.
  apply bind_terminates; [apply decrement_if_positive_terminates|].
  intros d2 _. unfold py_getitem.
  destruct (d2 !! "_index_sampler_state") as [[| | |inner]|]; simpl;
    try done.
  destruct (inner !! "samples_yielded") as [[| |z|]|]; simpl; try done;
    repeat case_match; done.
Qed.

Lemma update_state_dict_terminates {A} (self : DataLoaderDispatcher.t A)
    n sess :
  DataLoaderDispatcher.update_state_dict self n sess ≠ OutOfFuel.
Proof.
  unfold DataLoaderDispatcher.update_state_dict.
  apply bind_terminates; [apply adapter_update_terminates|done].
Qed.

Lemma update_on_main_terminates {A} (self : DataLoaderDispatcher.t A)
    it sess :
  DataLoaderDispatcher.update_state_dict_on_main self it sess ≠ OutOfFuel.
Proof.
  unfold DataLoaderDispatcher.update_state_dict_on_main.
  case_match; [apply update_state_dict_terminates|done].
Qed.

Lemma fetch_loop_terminates {A} (self : DataLoaderDispatcher.t A) n :
  ∀ sess it batches,
    DataLoaderDispatcher.fetch_loop self n sess it batches ≠ OutOfFuel.
Proof.
  induction n as [|n IH]; intros sess it batches; simpl; [done|].
  apply bind_terminates; [apply update_on_main_terminates|].
  intros sess' _. destruct (DataLoaderDispatcher.next it) as [[b it']|];
    [apply IH|done].
Qed.

Lemma fetch_batches_terminates {A} (self : DataLoaderDispatcher.t A)
    sess it :
  DataLoaderDispatcher._fetch_batches self sess it ≠ OutOfFuel.
Proof.
  unfold DataLoaderDispatcher._fetch_batches.
  apply bind_terminates.
  - repeat case_match;
      try (apply bind_terminates; [apply update_on_main_terminates|]);
      try (intros; by repeat case_match).
    apply bind_terminates; [apply fetch_loop_terminates|].
    intros [[[? ?] ?] ?] _. by case_match.
  - intros [[[[? ?] ?] ?] ?] _. by repeat case_match.
Qed.

Lemma fetch_loop_progress {A} (self : DataLoaderDispatcher.t A) n :
  ∀ sess it batches sess' it' batches' stopped,
    DataLoaderDispatcher.fetch_loop self n sess it batches
    = Done (sess', it', batches', stopped) →
    length batches' + length (DataLoaderDispatcher.rest it')
    = length batches + length (DataLoaderDispatcher.rest it) ∧
    (stopped = false → length batches' = length batches + n).
Proof.
  induction n as [|n IH]; intros sess it batches sess' it' batches' stopped;
    simpl; intros H.
  - simplify_eq. split; [done|lia].
  - bind_inv H. unfold DataLoaderDispatcher.next in H.
    destruct (DataLoaderDispatcher.rest it) as [|b rest'] eqn:Hrest.
    + simplify_eq. rewrite Hrest. done.
    + apply IH in H as [Hsum Hlen]. simpl in Hsum.
      rewrite length_app in Hsum, Hlen. simpl in *.
      split; [lia|]. intros Hs. specialize (Hlen Hs). lia.
Qed.

Lemma fetch_batches_progress {A} (self : DataLoaderDispatcher.t A)
    sess it sess' it' nb nbi :
  0 < state_num_processes (DataLoaderDispatcher.state self) →
  DataLoaderDispatcher._fetch_batches self sess it
  = Done (sess', it', nb, nbi) →
  (DataLoaderDispatcher._stop_iteration sess' = false →
   length (DataLoaderDispatcher.rest it')
   < length (DataLoaderDispatcher.rest it)) ∧
  (DataLoaderDispatcher._stop_iteration sess' = true → nbi.1 ≠ None →
   0 < length (DataLoaderDispatcher.rest it)).
Proof.
  intros HP H. unfold DataLoaderDispatcher._fetch_batches in H.
  apply outcome_bind_Done in H as ([[[[s1 it1] bs1] b1] i1] & Hd & H).
  assert ((i1.2 = false →
           length (DataLoaderDispatcher.rest it1)
           < length (DataLoaderDispatcher.rest it)) ∧
          (i1.2 = true →
           i1.1 = None ∧
           match bs1 with
           | Some (_ :: _) => 0 < length (DataLoaderDispatcher.rest it)
           | _ => True
           end)) as [Hgo Hstop].
  { destruct (DataLoaderDispatcher.split_batches self).
    - bind_inv Hd. unfold DataLoaderDispatcher.next in Hd.
      destruct (DataLoaderDispatcher.rest it) as [|b rest'] eqn:Hrest;
        simplify_eq; simpl; split; try done; lia.
    - destruct (DataLoaderDispatcher.submesh_tp self).
      + bind_inv Hd. unfold DataLoaderDispatcher.next in Hd.
        destruct (DataLoaderDispatcher.rest it) as [|b rest'] eqn:Hrest;
          simplify_eq; simpl; split; try done; lia.
      + apply outcome_bind_Done in Hd as ([[[t u] v] w] & Hl & Hd).
        apply fetch_loop_progress in Hl as [Hsum Hlen]. simpl in Hsum.
        destruct w; simplify_eq; simpl; split; try done.
        * intros _. split; [done|].
          destruct v as [|b bs]; [done|]. simpl in Hsum. lia.
        * intros _. specialize (Hlen eq_refl). simpl in Hlen. lia. }
  clear Hd. simpl in H. destruct i1.2 eqn:Hi.
  - destruct (Hstop eq_refl) as [Hnone Hrest].
    destruct (negb _ && negb _).
    + destruct bs1 as [[|b bs]|]; simplify_eq; simpl; split; try done.
    + simplify_eq. simpl. split; [done|]. by intros _ ?.
  - simplify_eq. simpl. split; [by auto|done].
Qed.

Lemma iter_loop_terminates {A} (self : DataLoaderDispatcher.t A) fuel :
  0 < state_num_processes (DataLoaderDispatcher.state self) →
  ∀ sess it nb nbi fb idx rs,
    (if DataLoaderDispatcher._stop_iteration sess then 1
     else length (DataLoaderDispatcher.rest it) + 1) ≤ fuel →
    DataLoaderDispatcher.iter_loop self fuel sess it nb nbi fb idx rs
    ≠ OutOfFuel.
Proof.
  intros HP. induction fuel as [|fuel IH];
    intros sess it nb nbi fb idx rs Hfuel.
  { by destruct (DataLoaderDispatcher._stop_iteration sess); lia. }
  cbn [DataLoaderDispatcher.iter_loop].
  destruct nb as [batch|]; [|done].
  destruct (DataLoaderDispatcher._stop_iteration sess) eqn:Hstop; simpl.
  - apply bind_terminates; [by repeat case_match|].
    intros [sliced bs] _.
    apply bind_terminates; [|done].
    apply bind_terminates; [apply update_state_dict_terminates|done].
  - apply bind_terminates.
    { apply bind_terminates; [apply fetch_batches_terminates|].
      by intros [[[? ?] ?] ?] _. }
    intros [[[[sess1 it1] nb1] nbi1] stop] Hnext.
    apply outcome_bind_Done in Hnext as ([[[t u] v] w] & Hf & Hnext).
    injection Hnext as -> -> -> -> <-.
    apply fetch_batches_progress in Hf as [Hgo Hrem]; [|done].
    apply bind_terminates; [by repeat case_match|].
    intros [sliced bs] _.
    apply bind_terminates.
    { case_match; [|done].
      apply bind_terminates; [apply update_state_dict_terminates|done]. }
    intros sess2 Hs2.
    destruct (DataLoaderDispatcher._stop_iteration sess1
              && bool_decide (nbi1.1 = None)) eqn:Hcont; [done|].
    injection Hs2 as <-. apply IH.
    destruct (DataLoaderDispatcher._stop_iteration sess1) eqn:Hstop1.
    + simpl in Hcont. apply bool_decide_eq_false in Hcont.
      specialize (Hrem eq_refl Hcont). lia.
    + specialize (Hgo eq_refl). lia.
Qed.

(** A traversal by the dispatcher ends: it completes or raises, for any
    base loader and any session, the fuel of the model is enough. *)
Lemma rounds_terminate {A} (self : DataLoaderDispatcher.t A) sess :
  0 < state_num_processes (DataLoaderDispatcher.state self) →
  DataLoaderDispatcher.rounds self sess ≠ OutOfFuel.
Proof.
  intros HP. unfold DataLoaderDispatcher.rounds.
  destruct (DataLoaderStateMixin.begin _ _ _ _) as [m gs].
  apply bind_terminates; [apply fetch_batches_terminates|].
  intros [[[sess1 it1] nb] nbi] Hf.
  apply fetch_batches_progress in Hf as [Hgo Hrem]; [|done]. simpl in *.
  apply bind_terminates; [|by intros [? ?] _].
  apply iter_loop_terminates; [done|].
  destruct (DataLoaderDispatcher._stop_iteration sess1); [lia|].
  specialize (Hgo eq_refl). lia.
Qed.

(** ** Scenarios of the documentation *)

(** The sampler [[0, 1, 2, 3], [4, 5, 6, 7]] on two processes: whole
    batches without [split_batches], halves of every batch with it. *)
Example shard_scenario_no_split :
  shard_batches [[0; 1; 2; 3]; [4; 5; 6; 7]] 4 false 2 0 false true
  = Done [[0; 1; 2; 3]] ∧
  shard_batches [[0; 1; 2; 3]; [4; 5; 6; 7]] 4 false 2 1 false true
  = Done [[4; 5; 6; 7]].
Proof. split; reflexivity. Qed.

Example shard_scenario_split :
  shard_batches [[0; 1; 2; 3]; [4; 5; 6; 7]] 4 false 2 0 true true
  = Done [[0; 1]; [4; 5]] ∧
  shard_batches [[0; 1; 2; 3]; [4; 5; 6; 7]] 4 false 2 1 true true
  = Done [[2; 3]; [6; 7]].
Proof. split; reflexivity. Qed.

(** Seven indices in batches of three on two processes: the short third
    batch is completed from the start, and so is the round. *)
Example shard_scenario_wrap_around :
  shard_batches [[0; 1; 2]; [3; 4; 5]; [6]] 3 false 2 0 false true
  = Done [[0; 1; 2]; [6; 0; 1]] ∧
  shard_batches [[0; 1; 2]; [3; 4; 5]; [6]] 3 false 2 1 false true
  = Done [[3; 4; 5]; [2; 3; 4]].
Proof. split; reflexivity. Qed.

(** A source of two indices for batches of three: the indices are repeated
    until both processes have a full batch. *)
Example shard_scenario_short_source :
  shard_batches [[0; 1]] 3 false 2 0 false true = Done [[0; 1; 0]] ∧
  shard_batches [[0; 1]] 3 false 2 1 false true = Done [[1; 0; 1]].
Proof. split; reflexivity. Qed.

(** Without [even_batches] the short round goes to the first processes
    only. *)
Example shard_scenario_uneven :
  shard_batches [[0; 1; 2]; [3; 4; 5]; [6]] 3 false 2 0 false false
  = Done [[0; 1; 2]; [6]] ∧
  shard_batches [[0; 1; 2]; [3; 4; 5]; [6]] 3 false 2 1 false false
  = Done [[3; 4; 5]].
Proof. split; reflexivity. Qed.

(** ** Shards of a stream *)

Lemma yield_slice_window {A} (batch : list A) lo n :
  ∀ yielded,
    lo + n ≤ length batch →
    IterableDatasetShard.yield_slice batch (seq lo n) yielded
    = Done (yielded ++ py_slice batch lo (lo + n)).
Proof.
  revert lo. induction n as [|n IH]; intros lo yielded Hlen; simpl.
  - unfold py_slice. replace (lo + 0 - lo) with 0 by lia.
    by rewrite take_0, app_nil_r.
  - destruct (lookup_lt_is_Some_2 batch lo) as [x Hx]; [lia|].
    rewrite Hx. rewrite IH by lia. f_equal. rewrite <- app_assoc. f_equal.
    unfold py_slice.
    replace (lo + S n - lo) with (S n) by lia.
    replace (S lo + n - S lo) with n by lia.
    rewrite (drop_S _ _ _ Hx). done.
Qed.

Lemma for_dataset_partial {A} R sl (elems : list A) :
  ∀ st,
    length (IterableDatasetShard.current_batch st) + length elems < R →
    IterableDatasetShard.for_dataset R sl st elems
    = Done {| IterableDatasetShard.first_batch :=
                IterableDatasetShard.first_batch st;
              IterableDatasetShard.current_batch :=
                IterableDatasetShard.current_batch st ++ elems;
              IterableDatasetShard.yielded := IterableDatasetShard.yielded st |}.
Proof.
  induction elems as [|x elems IH]; intros st Hlen; simpl in *.
  - rewrite app_nil_r. by destruct st.
  - unfold IterableDatasetShard.body.
    rewrite length_app. simpl.
    destruct (_ =? R) eqn:E; [apply Nat.eqb_eq in E; lia|].
    simpl. rewrite IH; simpl; [|rewrite length_app; simpl; lia].
    by rewrite <- app_assoc.
Qed.

Lemma for_dataset_app {A} R sl (xs ys : list A) :
  ∀ st,
    IterableDatasetShard.for_dataset R sl st (xs ++ ys)
    = IterableDatasetShard.for_dataset R sl st xs
      ≫= fun st' => IterableDatasetShard.for_dataset R sl st' ys.
Proof.
  induction xs as [|x xs IH]; intros st; simpl; [done|].
  destruct (IterableDatasetShard.body R sl st x) as [st'| |]; simpl; [|done..].
  apply IH.
Qed.

Lemma for_dataset_full {A} R lo n (xs : list A) st :
  0 < R → lo + n ≤ R → length xs = R →
  IterableDatasetShard.current_batch st = [] →
  IterableDatasetShard.for_dataset R (seq lo n) st xs
  = Done {| IterableDatasetShard.first_batch :=
              Some (default xs (IterableDatasetShard.first_batch st));
            IterableDatasetShard.current_batch := [];
            IterableDatasetShard.yielded :=
              IterableDatasetShard.yielded st ++ py_slice xs lo (lo + n) |}.
Proof.
  intros HR Hsl Hlen Hcur.
  destruct (decide (xs = [])) as [->|Hne]; [simpl in Hlen; lia|].
  destruct (exists_last Hne) as (init & x & ->).
  rewrite length_app in Hlen. simpl in Hlen.
  rewrite for_dataset_app, for_dataset_partial by (rewrite Hcur; simpl; lia).
  simpl. unfold IterableDatasetShard.body. simpl. rewrite Hcur. simpl.
  rewrite length_app. simpl.
  assert ((length init + 1 =? R) = true) as -> by (apply Nat.eqb_eq; lia).
  rewrite yield_slice_window by (rewrite length_app; simpl; lia).
  simpl. by destruct (IterableDatasetShard.first_batch st).
Qed.

Lemma window_succ {A} (ds : list A) R j :
  window ds R (S j) = window (drop R ds) R j.
Proof.
  unfold window, py_slice. rewrite drop_drop.
  replace ((S j + 1) * R - S j * R) with ((j + 1) * R - j * R) by lia.
  done.
Qed.

Lemma for_dataset_rounds {A} R lo n :
  0 < R → lo + n ≤ R →
  ∀ k (ds : list A) st,
    IterableDatasetShard.current_batch st = [] →
    length ds / R = k →
    IterableDatasetShard.for_dataset R (seq lo n) st ds
    = Done {| IterableDatasetShard.first_batch :=
                match IterableDatasetShard.first_batch st with
                | Some fb => Some fb
                | None => if k =? 0 then None else Some (take R ds)
                end;
              IterableDatasetShard.current_batch := drop (k * R) ds;
              IterableDatasetShard.yielded :=
                IterableDatasetShard.yielded st
                ++ concat (map (fun j => py_slice (window ds R j) lo (lo + n))
                             (seq 0 k)) |}.
Proof.
  intros HR Hsl. induction k as [|k IH]; intros ds st Hcur Hk.
  - apply Nat.div_small_iff in Hk; [|lia].
    rewrite for_dataset_partial by (rewrite Hcur; simpl; lia).
    rewrite Hcur. simpl. rewrite drop_0, app_nil_r.
    by destruct (IterableDatasetShard.first_batch st).
  - assert (R ≤ length ds) as Hge.
    { destruct (decide (R ≤ length ds)); [done|].
      rewrite Nat.div_small in Hk by lia. done. }
    rewrite <- (take_drop R ds) at 1.
    rewrite for_dataset_app.
    rewrite (for_dataset_full R lo n (take R ds) st)
      by (try done; rewrite length_take; lia).
    simpl. rewrite (IH (drop R ds)); simpl; [|done|].
    + f_equal. f_equal.
      * by destruct (IterableDatasetShard.first_batch st).
      * by rewrite drop_drop.
      * rewrite <- app_assoc. f_equal. f_equal.
        { unfold window, py_slice. simpl.
          by rewrite Nat.add_0_r, Nat.sub_0_r, drop_0. }
        rewrite <- seq_shift, map_map. f_equal.
        apply map_ext. intros j. by rewrite window_succ.
    + rewrite length_drop.
      replace (length ds) with (1 * R + (length ds - R)) in Hk by lia.
      rewrite Nat.div_add_l in Hk by lia. lia.
Qed.

Lemma extend_until_copies {A} (fb : list A) target :
  0 < length fb →
  ∀ fuel cur,
    target ≤ fuel + length cur →
    ∃ m,
      IterableDatasetShard.extend_until fuel target cur fb
      = Done (cur ++ copies m fb) ∧
      target ≤ length (cur ++ copies m fb).
Proof.
  intros Hfb. induction fuel as [|fuel IH]; intros cur Hfuel; simpl.
  - exists 0. unfold copies. simpl. rewrite app_nil_r.
    destruct (length cur <? target) eqn:E; [apply Nat.ltb_lt in E; lia|].
    split; [done|lia].
  - destruct (length cur <? target) eqn:E.
    + destruct (IH (cur ++ fb)) as (m & -> & Hlen);
        [rewrite length_app; lia|].
      exists (S m). unfold copies in *. simpl. rewrite <- app_assoc in *.
      done.
    + apply Nat.ltb_ge in E. exists 0. unfold copies. simpl.
      rewrite app_nil_r. done.
Qed.

Lemma take_copies_prefix {A} (cur fb : list A) R m :
  0 < length fb →
  R ≤ length (cur ++ copies m fb) →
  take R (cur ++ copies m fb) = take R (cur ++ copies R fb).
Proof.
  intros Hfb Hlen. destruct (decide (m ≤ R)) as [Hle|Hgt].
  - assert (copies R fb = copies m fb ++ copies (R - m) fb) as ->
      by (rewrite <- copies_add; f_equal; lia).
    rewrite app_assoc. by rewrite (take_app_le (cur ++ copies m fb) _ R).
  - assert (copies m fb = copies R fb ++ copies (m - R) fb) as ->
      by (rewrite <- copies_add; f_equal; lia).
    rewrite app_assoc. rewrite (take_app_le (cur ++ copies R fb) _ R); [done|].
    rewrite length_app, length_copies. nia.
Qed.

Lemma py_slice_take {A} (l : list A) R lo hi :
  hi ≤ R → py_slice (take R l) lo hi = py_slice l lo hi.
Proof.
  intros Hhi. unfold py_slice.
  destruct (decide (lo ≤ hi)) as [Hle|Hgt].
  - rewrite !take_drop_commute. rewrite take_take.
    do 2 f_equal. lia.
  - replace (hi - lo) with 0 by lia. by rewrite !take_0.
Qed.

Lemma slice_in_batch {A} (self : IterableDatasetShard.t A) :
  0 < IterableDatasetShard.num_processes self →
  IterableDatasetShard.process_index self
  < IterableDatasetShard.num_processes self →
  IterableDatasetShard.process_index self * process_batch_size self
  + process_batch_size self ≤ real_batch_size self.
Proof.
  intros HP Hp. unfold process_batch_size, real_batch_size.
  destruct (IterableDatasetShard.split_batches self); [|nia].
  pose proof (Nat.Div0.mul_div_le (IterableDatasetShard.batch_size self)
                (IterableDatasetShard.num_processes self)).
  nia.
Qed.

Lemma stream_shard_closed {A} (self : IterableDatasetShard.t A) :
  let p := IterableDatasetShard.process_index self in
  let pb := process_batch_size self in
  0 < IterableDatasetShard.num_processes self →
  p < IterableDatasetShard.num_processes self →
  0 < IterableDatasetShard.batch_size self →
  IterableDatasetShard.__iter__ self
  = Done (concat (map (fun batch => py_slice batch (p * pb) ((p + 1) * pb))
                    (stream_batches (IterableDatasetShard.dataset self)
                       (real_batch_size self)
                       (IterableDatasetShard.drop_last self)))).
Proof.
  intros p pb HP Hp Hb.
  pose proof (slice_in_batch self HP Hp) as Hsl. fold p pb in Hsl.
  assert (0 < real_batch_size self) as HR.
  { unfold real_batch_size.
    destruct (IterableDatasetShard.split_batches self); nia. }
  unfold IterableDatasetShard.__iter__.
  fold (real_batch_size self).
  assert ((if IterableDatasetShard.split_batches self
           then if IterableDatasetShard.num_processes self =? 0
                then Raised ZeroDivisionError
                else Done (IterableDatasetShard.batch_size self
                           / IterableDatasetShard.num_processes self)
           else Done (IterableDatasetShard.batch_size self)) = Done pb) as ->.
  { unfold pb, process_batch_size.
    destruct (IterableDatasetShard.split_batches self); [|done].
    destruct (_ =? 0) eqn:E; [apply Nat.eqb_eq in E; lia|done]. }
  simpl. fold p.
  set (R := real_batch_size self) in *.
  set (ds := IterableDatasetShard.dataset self).
  rewrite (for_dataset_rounds R (p * pb) pb HR Hsl (length ds / R) ds)
    by done.
  simpl. unfold stream_batches. fold ds.
  set (k := length ds / R). set (rem := drop (k * R) ds).
  replace ((p + 1) * pb) with (p * pb + pb) by lia.
  rewrite map_app, concat_app, map_map.
  destruct (IterableDatasetShard.drop_last self); simpl.
  { by rewrite app_nil_r. }
  destruct (0 <? length rem) eqn:Hrem; simpl; [|by rewrite app_nil_r].
  apply Nat.ltb_lt in Hrem.
  set (fb := if k =? 0 then rem else take R ds).
  assert (match (if k =? 0 then None else Some (take R ds)) with
          | Some fb0 => fb0
          | None => rem
          end = fb) as -> by (unfold fb; by destruct (k =? 0)).
  assert (0 < length fb) as Hfb.
  { unfold fb. destruct (k =? 0) eqn:Hk; [done|].
    apply Nat.eqb_neq in Hk. rewrite length_take.
    assert (R ≤ length ds); [|lia].
    destruct (decide (R ≤ length ds)); [done|].
    unfold k in Hk. rewrite Nat.div_small in Hk by lia. done. }
  destruct (extend_until_copies fb R Hfb R rem) as (m & -> & Hlen); [lia|].
  simpl. rewrite yield_slice_window by lia.
  rewrite app_nil_r. do 2 f_equal.
  rewrite <- (py_slice_take (rem ++ copies m fb) R) by lia.
  by rewrite (take_copies_prefix rem fb R m).
Qed.

Lemma stream_batches_length {A} (ds : list A) R drop_last :
  0 < R →
  length (stream_batches ds R drop_last)
  = length ds / R
    + (if negb drop_last && negb (length ds mod R =? 0) then 1 else 0).
Proof.
  intros HR. unfold stream_batches.
  rewrite length_app, length_map, length_seq. f_equal.
  rewrite length_drop.
  pose proof (Nat.div_mod_eq (length ds) R).
  replace (length ds - length ds / R * R) with (length ds mod R) by lia.
  destruct drop_last; simpl; [done|].
  destruct (length ds mod R) eqn:E; simpl; done.
Qed.

Lemma stream_batches_sizes {A} (ds : list A) R drop_last :
  0 < R →
  Forall (fun batch => length batch = R) (stream_batches ds R drop_last).
Proof.
  intros HR. unfold stream_batches. apply Forall_app. split.
  - apply Forall_forall. intros x Hx.
    apply list_elem_of_fmap in Hx as (j & -> & Hj).
    apply elem_of_seq in Hj.
    apply length_window.
    pose proof (Nat.Div0.mul_div_le (length ds) R). nia.
  - set (k := length ds / R). set (rem := drop (k * R) ds).
    destruct (negb drop_last && (0 <? length rem)) eqn:E; [|done].
    apply andb_true_iff in E as [_ Hrem]. apply Nat.ltb_lt in Hrem.
    apply Forall_singleton. rewrite length_take, length_app, length_copies.
    assert (0 < length (if k =? 0 then rem else take R ds)); [|nia].
    destruct (k =? 0) eqn:Hk; [done|].
    apply Nat.eqb_neq in Hk. rewrite length_take.
    destruct (decide (R ≤ length ds)); [lia|].
    unfold k in Hk. rewrite Nat.div_small in Hk by lia. done.
Qed.

Lemma length_concat_slices {A} (batches : list (list A)) R lo hi :
  hi ≤ R →
  Forall (fun batch => length batch = R) batches →
  length (concat (map (fun batch => py_slice batch lo hi) batches))
  = length batches * (hi - lo).
Proof.
  intros Hhi Hall. induction Hall as [|x l Hx _ IH]; simpl; [done|].
  rewrite length_app, IH, length_py_slice by lia. done.
Qed.

(** X1: a stream shard built with at least one process, an index below
    the process count and a positive batch size (a multiple of the process
    count, or 1, with [split_batches]) is traversed to its end without an
    error, and yields, batch after batch of the stream, the window of its
    process in that batch; the batches are those of [stream_batches]: the
    complete batches of [real_batch_size] elements and, unless [drop_last]
    is set, the remainder completed from the first batch. *)
Theorem stream_shard_yields {A} (dataset : list A) (b : nat)
    (drop_last : bool) (P p : nat) (split : bool) :
  0 < P → p < P → 0 < b →
  (split = true → b = 1 ∨ b mod P = 0) →
  let R := if split then b else b * P in
  let pb := if split then b / P else b in
  stream_shard dataset b drop_last P p split
  = Done (concat (map (fun batch => py_slice batch (p * pb) ((p + 1) * pb))
                    (stream_batches dataset R drop_last))).
Proof.
  intros HP Hp Hb Hsplit R pb. unfold stream_shard.
  assert (IterableDatasetShard.__init__ dataset b drop_last P p split
          = Done {| IterableDatasetShard.dataset := dataset;
                    IterableDatasetShard.batch_size := b;
                    IterableDatasetShard.drop_last := drop_last;
                    IterableDatasetShard.num_processes := P;
                    IterableDatasetShard.process_index := p;
                    IterableDatasetShard.split_batches := split |}) as ->.
  { unfold IterableDatasetShard.__init__. destruct split; simpl; [|done].
    destruct (1 <? b) eqn:E1; [|done]. apply Nat.ltb_lt in E1.
    destruct Hsplit as [?|Hmod]; [done|lia|].
    destruct (P =? 0) eqn:E; [apply Nat.eqb_eq in E; lia|].
    by rewrite Hmod. }
  simpl. by rewrite stream_shard_closed.
Qed.

Lemma stream_shard_yields_witness :
  stream_shard [0; 1; 2; 3; 4; 5; 6; 7; 8; 9] 2 false 2 1 false
  = Done [2; 3; 6; 7; 0; 1].
Proof.
  rewrite (stream_shard_yields [0; 1; 2; 3; 4; 5; 6; 7; 8; 9] 2 false 2 1 false);
    [reflexivity | lia | lia | lia | discriminate].
Defined.

(** X2: without [split_batches], [len] of a stream shard is the number of
    elements that its traversal yields, for a sized stream. *)
Theorem stream_shard_len {A} (self : IterableDatasetShard.t A) :
  0 < IterableDatasetShard.num_processes self →
  IterableDatasetShard.process_index self
  < IterableDatasetShard.num_processes self →
  0 < IterableDatasetShard.batch_size self →
  IterableDatasetShard.split_batches self = false →
  ∃ ys,
    IterableDatasetShard.__iter__ self = Done ys ∧
    IterableDatasetShard.__len__ self = Done (length ys).
Proof.
  intros HP Hp Hb Hsplit. eexists. split; [by apply stream_shard_closed|].
  pose proof (slice_in_batch self HP Hp) as Hsl.
  unfold IterableDatasetShard.__len__, process_batch_size, real_batch_size in *.
  rewrite Hsplit in *.
  set (b := IterableDatasetShard.batch_size self) in *.
  set (P := IterableDatasetShard.num_processes self) in *.
  set (p := IterableDatasetShard.process_index self) in *.
  set (ds := IterableDatasetShard.dataset self).
  assert (0 < b * P) as HR by nia.
  rewrite (length_concat_slices _ (b * P))
    by (try apply stream_batches_sizes; lia).
  rewrite stream_batches_length by done.
  replace ((p + 1) * b - p * b) with b by lia.
  destruct (b * P =? 0) eqn:E; [apply Nat.eqb_eq in E; lia|].
  unfold math_ceil_div.
  destruct (IterableDatasetShard.drop_last self); simpl.
  - f_equal. lia.
  - destruct (length ds mod (b * P) =? 0); simpl; f_equal; lia.
Qed.

Lemma stream_shard_len_witness :
  ∃ ys,
    IterableDatasetShard.__iter__
      {| IterableDatasetShard.dataset := [0; 1; 2; 3; 4; 5; 6; 7; 8; 9];
         IterableDatasetShard.batch_size := 2;
         IterableDatasetShard.drop_last := false;
         IterableDatasetShard.num_processes := 2;
         IterableDatasetShard.process_index := 1;
         IterableDatasetShard.split_batches := false |} = Done ys ∧
    length ys = 6.
Proof.
  destruct (stream_shard_len
              {| IterableDatasetShard.dataset := [0; 1; 2; 3; 4; 5; 6; 7; 8; 9];
                 IterableDatasetShard.batch_size := 2;
                 IterableDatasetShard.drop_last := false;
                 IterableDatasetShard.num_processes := 2;
                 IterableDatasetShard.process_index := 1;
                 IterableDatasetShard.split_batches := false |})
    as (ys & Hys & Hlen); [simpl; lia | simpl; lia | simpl; lia | reflexivity |].
  exists ys. split; [done|].
  change (Done 6 = Done (length ys)) in Hlen. by injection Hlen as <-.
Defined.

(** X3: the processes share every batch of the stream: the [j]-th blocks
    of [process_batch_size] elements of the shards of the processes
    [0 .. P - 1], put together in that order, are the [j]-th batch of the
    stream (with [split_batches], when the batch size is a multiple of the
    process count). *)
Theorem stream_shard_partition {A} (self : IterableDatasetShard.t A)
    (j : nat) (batch : list A) :
  let P := IterableDatasetShard.num_processes self in
  let b := IterableDatasetShard.batch_size self in
  let pb := process_batch_size self in
  0 < P → 0 < b →
  (IterableDatasetShard.split_batches self = true → b mod P = 0) →
  stream_batches (IterableDatasetShard.dataset self) (real_batch_size self)
    (IterableDatasetShard.drop_last self) !! j = Some batch →
  concat (map (fun p =>
                 py_slice (stream_shard_output (stream_shard_on self p))
                   (j * pb) ((j + 1) * pb))
            (seq 0 P))
  = batch.
Proof.
  intros P b pb HP Hb Hsplit Hj.
  assert (real_batch_size self = P * pb) as HR.
  { unfold real_batch_size, pb, process_batch_size. fold P b.
    destruct (IterableDatasetShard.split_batches self); [|lia].
    pose proof (Nat.div_mod_eq b P). rewrite Hsplit in * by done. lia. }
  assert (0 < real_batch_size self) as HR0.
  { unfold real_batch_size. fold P b.
    destruct (IterableDatasetShard.split_batches self); nia. }
  pose proof (stream_batches_sizes (IterableDatasetShard.dataset self)
                (real_batch_size self) (IterableDatasetShard.drop_last self)
                HR0) as Hsizes.
  set (batches := stream_batches _ _ _) in *.
  assert (length batch = P * pb) as Hbatch.
  { rewrite <- HR. apply (Forall_lookup_1 _ _ _ _ Hsizes Hj). }
  rewrite <- (take_ge batch (P * pb)) by lia.
  rewrite <- concat_process_slices. f_equal.
  apply map_ext_in. intros p Hin. apply in_seq in Hin.
  unfold stream_shard_output.
  rewrite (stream_shard_closed (stream_shard_on self p)) by (simpl; lia).
  simpl.
  change (process_batch_size (stream_shard_on self p)) with pb.
  change (real_batch_size (stream_shard_on self p))
    with (real_batch_size self).
  fold batches.
  set (L := map (fun x => py_slice x (p * pb) ((p + 1) * pb)) batches).
  assert (Forall (fun x => length x = pb) L) as HL.
  { unfold L. apply Forall_forall. intros x Hx.
    apply list_elem_of_fmap in Hx as (y & -> & Hy).
    rewrite length_py_slice; [lia|].
    rewrite (proj1 (Forall_forall _ _) Hsizes y Hy). nia. }
  pose proof (window_full L [] pb j HL) as Hw.
  rewrite app_nil_r in Hw. unfold window in Hw. rewrite Hw.
  - unfold batch_at, L. by rewrite list_lookup_fmap, Hj.
  - unfold L. rewrite length_map. by apply lookup_lt_Some in Hj.
Qed.

Lemma stream_shard_partition_witness :
  concat (map (fun p =>
                 py_slice
                   (stream_shard_output
                      (stream_shard_on
                         {| IterableDatasetShard.dataset := [0; 1; 2; 3; 4; 5; 6];
                            IterableDatasetShard.batch_size := 2;
                            IterableDatasetShard.drop_last := false;
                            IterableDatasetShard.num_processes := 2;
                            IterableDatasetShard.process_index := 0;
                            IterableDatasetShard.split_batches := true |} p))
                   (3 * 1) ((3 + 1) * 1))
            (seq 0 2))
  = [6; 0].
Proof.
  apply (stream_shard_partition
           {| IterableDatasetShard.dataset := [0; 1; 2; 3; 4; 5; 6];
              IterableDatasetShard.batch_size := 2;
              IterableDatasetShard.drop_last := false;
              IterableDatasetShard.num_processes := 2;
              IterableDatasetShard.process_index := 0;
              IterableDatasetShard.split_batches := true |} 3 [6; 0]);
    [simpl; lia | simpl; lia | reflexivity | reflexivity].
Defined.

(** ** Shards without evening out, and the length of a shard *)

Lemma at_positions_app {X} keep (l k : list X) :
  ∀ idx,
    at_positions keep idx (l ++ k)
    = at_positions keep idx l ++ at_positions keep (idx + length l) k.
Proof.
  induction l as [|x l IH]; intros idx; simpl.
  - by rewrite Nat.add_0_r.
  - rewrite IH, <- app_assoc. do 3 f_equal. lia.
Qed.

Lemma stride_snoc {X} (l : list X) x P p :
  stride (l ++ [x]) P p
  = stride l P p ++ (if length l mod P =? p then [x] else []).
Proof. unfold stride. rewrite at_positions_app. simpl. by rewrite app_nil_r. Qed.

Lemma no_split_uneven_loop {A} (self : BatchSamplerShard.t A) pre :
  let P := BatchSamplerShard.num_processes self in
  let p := BatchSamplerShard.process_index self in
  let st :=
    for_enumerate (BatchSamplerShard.no_split_body self)
      {| BatchSamplerShard.ns_initial_data := [];
         BatchSamplerShard.ns_batch_to_yield := [];
         BatchSamplerShard.ns_cur := None;
         BatchSamplerShard.ns_yielded := [] |} 0 pre in
  0 < P → p < P →
  Forall (fun x => round_closes self x = true ∧ 0 < length x) pre →
  if p <? length pre mod P
  then 0 < length (BatchSamplerShard.ns_batch_to_yield st) ∧
       BatchSamplerShard.ns_yielded st
       ++ [BatchSamplerShard.ns_batch_to_yield st] = stride pre P p
  else BatchSamplerShard.ns_batch_to_yield st = [] ∧
       BatchSamplerShard.ns_yielded st = stride pre P p.
Proof.
  intros P p st HP Hp. subst st.
  induction pre as [|x pre IH] using rev_ind; intros Hall.
  - simpl. rewrite Nat.Div0.mod_0_l.
    destruct (p <? 0) eqn:E; [apply Nat.ltb_lt in E; lia|]. done.
  - apply Forall_app in Hall as [Hpre Hx].
    apply Forall_singleton in Hx as [Hok Hne].
    specialize (IH Hpre).
    rewrite for_enumerate_app, stride_snoc, length_app. simpl.
    set (st := for_enumerate _ _ 0 pre) in *.
    set (n := length pre) in *.
    unfold BatchSamplerShard.no_split_body. fold P p.
    unfold round_closes in Hok. rewrite Hok, andb_true_r.
    pose proof (Nat.mod_upper_bound n P ltac:(lia)) as Hub.
    destruct (n mod P =? P - 1) eqn:Elast.
    + apply Nat.eqb_eq in Elast.
      destruct (mod_succ_wrap n P HP Elast) as [-> _].
      destruct (p <? 0) eqn:E; [apply Nat.ltb_lt in E; lia|]. simpl.
      split; [done|].
      destruct (n mod P =? p) eqn:Ep.
      * apply Nat.eqb_eq in Ep.
        destruct (p <? n mod P) eqn:E'; [apply Nat.ltb_lt in E'; lia|].
        destruct IH as [_ ->]. done.
      * apply Nat.eqb_neq in Ep.
        destruct (p <? n mod P) eqn:E'; [|apply Nat.ltb_ge in E'; lia].
        destruct IH as [_ ->]. by rewrite app_nil_r.
    + apply Nat.eqb_neq in Elast.
      destruct (mod_succ_step n P HP Elast) as [-> _]. simpl.
      destruct (n mod P =? p) eqn:Ep.
      * apply Nat.eqb_eq in Ep.
        destruct (p <? n mod P) eqn:E'; [apply Nat.ltb_lt in E'; lia|].
        destruct (p <? n mod P + 1) eqn:E''; [|apply Nat.ltb_ge in E''; lia].
        destruct IH as [_ ->]. done.
      * apply Nat.eqb_neq in Ep. rewrite app_nil_r.
        destruct (p <? n mod P) eqn:E'.
        -- apply Nat.ltb_lt in E'.
           destruct (p <? n mod P + 1) eqn:E''; [|apply Nat.ltb_ge in E''; lia].
           done.
        -- apply Nat.ltb_ge in E'.
           destruct (p <? n mod P + 1) eqn:E''; [apply Nat.ltb_lt in E''; lia|].
           done.
Qed.

Lemma no_split_uneven {A} (self : BatchSamplerShard.t A) :
  let P := BatchSamplerShard.num_processes self in
  let p := BatchSamplerShard.process_index self in
  let batches := sampler_batches (BatchSamplerShard.batch_sampler self) in
  0 < P → p < P →
  BatchSamplerShard.even_batches self = false →
  BatchSamplerShard.drop_last self = false →
  Forall (fun x => 0 < length x) batches →
  (∀ i x, batches !! i = Some x → i + 1 < length batches →
          round_closes self x = true) →
  BatchSamplerShard._iter_with_no_split self = Done (stride batches P p).
Proof.
  intros P p batches HP Hp Heven Hdrop Hne Hfull.
  unfold BatchSamplerShard._iter_with_no_split.
  rewrite check_num_processes_ok by done. simpl.
  fold batches. rewrite Heven, Hdrop. simpl.
  rewrite no_split_initial_data, Hdrop. simpl. fold P.
  rewrite Nat.sub_0_r.
  destruct (decide (batches = [])) as [->|Hnil]; [by rewrite take_nil|].
  destruct (exists_last Hnil) as (pre & x & Hbatches).
  assert ((0 <? length (concat (take P batches))) = true) as ->.
  { apply Nat.ltb_lt. destruct batches as [|y l]; [done|].
    apply Forall_cons in Hne as [Hy _].
    destruct P; [lia|]. simpl. rewrite length_app. lia. }
  assert (Forall (fun y => round_closes self y = true ∧ 0 < length y) pre)
    as Hpre.
  { apply Forall_lookup. intros i y Hi. split.
    - apply (Hfull i); rewrite Hbatches.
      + by apply lookup_app_l_Some.
      + apply lookup_lt_Some in Hi. rewrite length_app. simpl. lia.
    - rewrite Hbatches in Hne. apply Forall_app in Hne as [Hne _].
      apply (Forall_lookup_1 _ _ _ _ Hne Hi). }
  assert (0 < length x) as Hx.
  { rewrite Hbatches, Forall_app, Forall_singleton in Hne. by destruct Hne. }
  destruct (round_closes self x) eqn:Hok.
  - assert (Forall (fun y => round_closes self y = true ∧ 0 < length y)
              batches) as Hall.
    { rewrite Hbatches. apply Forall_app. split; [done|].
      by apply Forall_singleton. }
    pose proof (no_split_uneven_loop self batches HP Hp Hall) as Hinv.
    simpl in Hinv. fold P p in Hinv.
    destruct (p <? length batches mod P).
    + destruct Hinv as [Hlen <-].
      by destruct (0 <? _) eqn:E; [|apply Nat.ltb_ge in E; lia].
    + destruct Hinv as [-> <-]. done.
  - pose proof (no_split_uneven_loop self pre HP Hp Hpre) as Hinv.
    simpl in Hinv. fold P p in Hinv.
    rewrite Hbatches, for_enumerate_app, stride_snoc. simpl.
    set (st := for_enumerate _ _ 0 pre) in *.
    set (n := length pre) in *.
    unfold BatchSamplerShard.no_split_body. fold P p.
    unfold round_closes in Hok. rewrite Hok, andb_false_r. simpl.
    destruct (n mod P =? p) eqn:Ep.
    + apply Nat.eqb_eq in Ep.
      destruct (p <? n mod P) eqn:E'; [apply Nat.ltb_lt in E'; lia|].
      destruct Hinv as [_ ->].
      by destruct (0 <? length x) eqn:E; [|apply Nat.ltb_ge in E; lia].
    + rewrite app_nil_r. destruct (p <? n mod P).
      * destruct Hinv as [Hlen <-].
        by destruct (0 <? _) eqn:E; [|apply Nat.ltb_ge in E; lia].
      * destruct Hinv as [-> <-]. done.
Qed.

Lemma length_stride {X} (l : list X) P p :
  0 < P → p < P →
  length (stride l P p)
  = length l / P + (if p <? length l mod P then 1 else 0).
Proof.
  intros HP Hp. induction l as [|x l IH] using rev_ind.
  - simpl. rewrite Nat.Div0.mod_0_l, Nat.Div0.div_0_l.
    by destruct (p <? 0) eqn:E; [apply Nat.ltb_lt in E; lia|].
  - rewrite stride_snoc, !length_app, IH. simpl.
    set (n := length l).
    pose proof (Nat.mod_upper_bound n P ltac:(lia)) as Hub.
    destruct (decide (n mod P = P - 1)) as [Elast|Elast].
    + destruct (mod_succ_wrap n P HP Elast) as [-> ->].
      destruct (p <? 0) eqn:E; [apply Nat.ltb_lt in E; lia|].
      destruct (n mod P =? p) eqn:Ep.
      * apply Nat.eqb_eq in Ep.
        destruct (p <? n mod P) eqn:E'; [apply Nat.ltb_lt in E'; lia|].
        simpl. lia.
      * apply Nat.eqb_neq in Ep.
        destruct (p <? n mod P) eqn:E'; [|apply Nat.ltb_ge in E'; lia].
        simpl. lia.
    + destruct (mod_succ_step n P HP Elast) as [-> ->].
      destruct (n mod P =? p) eqn:Ep.
      * apply Nat.eqb_eq in Ep.
        destruct (p <? n mod P) eqn:E'; [apply Nat.ltb_lt in E'; lia|].
        destruct (p <? n mod P + 1) eqn:E''; [|apply Nat.ltb_ge in E''; lia].
        simpl. lia.
      * apply Nat.eqb_neq in Ep.
        destruct (p <? n mod P) eqn:E'.
        -- apply Nat.ltb_lt in E'.
           destruct (p <? n mod P + 1) eqn:E''; [|apply Nat.ltb_ge in E''; lia].
           simpl. lia.
        -- apply Nat.ltb_ge in E'.
           destruct (p <? n mod P + 1) eqn:E''; [apply Nat.ltb_lt in E''; lia|].
           simpl. lia.
Qed.

Lemma no_split_drop_last {A} (self : BatchSamplerShard.t A) :
  let P := BatchSamplerShard.num_processes self in
  let p := BatchSamplerShard.process_index self in
  let batches := sampler_batches (BatchSamplerShard.batch_sampler self) in
  0 < P → p < P →
  BatchSamplerShard.drop_last self = true →
  Forall (fun x => round_closes self x = true ∧ 0 < length x) batches →
  BatchSamplerShard._iter_with_no_split self
  = Done (take (length batches / P) (stride batches P p)).
Proof.
  intros P p batches HP Hp Hdrop Hall.
  unfold BatchSamplerShard._iter_with_no_split.
  rewrite check_num_processes_ok by done. simpl.
  fold batches. rewrite Hdrop. simpl. f_equal.
  pose proof (no_split_uneven_loop self batches HP Hp Hall) as Hinv.
  simpl in Hinv. fold P p in Hinv.
  pose proof (length_stride batches P p HP Hp) as Hlen.
  set (st := for_enumerate _ _ 0 batches) in *.
  destruct (p <? length batches mod P).
  - destruct Hinv as [_ Heq]. rewrite <- Heq in Hlen |- *.
    rewrite length_app in Hlen. simpl in Hlen.
    rewrite take_app_le, take_ge by lia. done.
  - destruct Hinv as [_ Heq]. rewrite <- Heq in Hlen |- *.
    rewrite take_ge by lia. done.
Qed.

Lemma round_closes_full {A} (self : BatchSamplerShard.t A) (x : list A) :
  (∀ b, BatchSamplerShard.batch_size self = Some b → length x = b) →
  round_closes self x = true.
Proof.
  intros Hfull. unfold round_closes, BatchSamplerShard.len_is.
  destruct (BatchSamplerShard.batch_size self) as [b|]; [|done].
  simpl. apply Nat.eqb_eq. by apply Hfull.
Qed.

(** X4: without [split_batches], [even_batches] and [drop_last], the
    shard of process [p] yields the batches of the source at the positions
    [p], [p + P], [p + 2 P], ..., as they are, for a source of non-empty
    batches that has no batch size or whose batches, but for the last, have
    that size. *)
Theorem shard_uneven_stride {A} (self : BatchSamplerShard.t A) :
  let P := BatchSamplerShard.num_processes self in
  let p := BatchSamplerShard.process_index self in
  let batches := sampler_batches (BatchSamplerShard.batch_sampler self) in
  0 < P → p < P →
  BatchSamplerShard.split_batches self = false →
  BatchSamplerShard.even_batches self = false →
  BatchSamplerShard.drop_last self = false →
  Forall (fun x => 0 < length x) batches →
  (∀ b, BatchSamplerShard.batch_size self = Some b →
        ∀ i x, batches !! i = Some x → i + 1 < length batches →
               length x = b) →
  BatchSamplerShard.__iter__ self = Done (stride batches P p).
Proof.
  intros P p batches HP Hp Hsplit Heven Hdrop Hne Hfull.
  unfold BatchSamplerShard.__iter__. rewrite Hsplit.
  apply no_split_uneven; try done.
  intros i x Hi Hlt. apply round_closes_full. intros b Hb.
  by apply (Hfull b Hb i).
Qed.

Lemma shard_uneven_stride_witness :
  BatchSamplerShard.__iter__
    {| BatchSamplerShard.batch_sampler :=
         {| sampler_batches := [[0]; [1; 2; 3]; [4; 5]];
            sampler_batch_size := NoAttr;
            sampler_drop_last := NoAttr |};
       BatchSamplerShard.num_processes := 2;
       BatchSamplerShard.process_index := 0;
       BatchSamplerShard.split_batches := false;
       BatchSamplerShard.even_batches := false;
       BatchSamplerShard.batch_size := None;
       BatchSamplerShard.drop_last := false |}
  = Done [[0]; [4; 5]].
Proof.
  apply (shard_uneven_stride
           {| BatchSamplerShard.batch_sampler :=
                {| sampler_batches := [[0]; [1; 2; 3]; [4; 5]];
                   sampler_batch_size := NoAttr;
                   sampler_drop_last := NoAttr |};
              BatchSamplerShard.num_processes := 2;
              BatchSamplerShard.process_index := 0;
              BatchSamplerShard.split_batches := false;
              BatchSamplerShard.even_batches := false;
              BatchSamplerShard.batch_size := None;
              BatchSamplerShard.drop_last := false |});
    try reflexivity; simpl; try lia.
  - repeat constructor.
  - discriminate.
Defined.

(** X5: without [split_batches] and with [drop_last], the shard of
    process [p] yields the first [L / P] of the batches at the positions
    [p], [p + P], ... of a source of [L] non-empty batches that all have
    the batch size of the source, if it has one: the batches of an
    incomplete last round are not yielded. *)
Theorem shard_drop_last_stride {A} (self : BatchSamplerShard.t A) :
  let P := BatchSamplerShard.num_processes self in
  let p := BatchSamplerShard.process_index self in
  let batches := sampler_batches (BatchSamplerShard.batch_sampler self) in
  0 < P → p < P →
  BatchSamplerShard.split_batches self = false →
  BatchSamplerShard.drop_last self = true →
  Forall (fun x => 0 < length x) batches →
  (∀ b, BatchSamplerShard.batch_size self = Some b →
        Forall (fun x => length x = b) batches) →
  BatchSamplerShard.__iter__ self
  = Done (take (length batches / P) (stride batches P p)).
Proof.
  intros P p batches HP Hp Hsplit Hdrop Hne Hfull.
  unfold BatchSamplerShard.__iter__. rewrite Hsplit.
  apply no_split_drop_last; try done.
  apply Forall_forall. intros x Hx. split.
  - apply round_closes_full. intros b Hb.
    apply (proj1 (Forall_forall _ _) (Hfull b Hb) x Hx).
  - apply (proj1 (Forall_forall _ _) Hne x Hx).
Qed.

Lemma shard_drop_last_stride_witness :
  BatchSamplerShard.__iter__
    (shard_of [[0; 1]; [2; 3]; [4; 5]; [6; 7]; [8; 9]] 2 true 2 1 false true)
  = Done [[2; 3]; [6; 7]].
Proof.
  apply (shard_drop_last_stride
           (shard_of [[0; 1]; [2; 3]; [4; 5]; [6; 7]; [8; 9]] 2 true 2 1
              false true));
    try reflexivity; simpl; try lia.
  - repeat constructor.
  - intros b [= <-]. repeat constructor.
Defined.

(** X6: without [split_batches], [len] of a shard is the number of
    batches that its traversal yields, whatever [drop_last] and
    [even_batches], for a well-formed source (all of whose batches are full
    when [drop_last] is set). *)
Theorem shard_len_is_count {A} (batches : list (list A)) (b P p : nat)
    (drop_last even : bool) :
  0 < P → p < P →
  well_formed b batches →
  (drop_last = true → Forall (fun x => length x = b) batches) →
  let self := shard_of batches b drop_last P p false even in
  ∃ ys,
    BatchSamplerShard.__iter__ self = Done ys ∧
    BatchSamplerShard.__len__ self = Done (length ys).
Proof.
  intros HP Hp Hwf Hfull self.
  assert (Forall (fun x => 0 < length x) batches) as Hne.
  { apply Forall_lookup. intros i x Hi.
    destruct Hwf as [_ Hwf]. destruct (Hwf i x Hi) as [? _]. lia. }
  assert (BatchSamplerShard.__len__ self
          = Done (spec_shard_len (length batches) P p drop_last even)) as ->.
  { unfold BatchSamplerShard.__len__, spec_shard_len. simpl.
    assert ((P =? 0) = false) as -> by (apply Nat.eqb_neq; lia).
    destruct (length batches mod P =? 0) eqn:Hr.
    - apply Nat.eqb_eq in Hr.
      destruct drop_last; [done|]. destruct even.
      + by rewrite ceil_div_exact.
      + rewrite Hr. by destruct (p <? 0) eqn:E; [apply Nat.ltb_lt in E; lia|].
    - apply Nat.eqb_neq in Hr.
      destruct drop_last; [done|]. destruct even; [|by destruct (_ <? _)].
      by rewrite ceil_div_inexact. }
  unfold spec_shard_len. destruct drop_last.
  - eexists. split.
    + apply no_split_drop_last; try done. simpl.
      apply Forall_forall. intros x Hx. split.
      * apply round_closes_full. simpl. intros ? [= <-].
        apply (proj1 (Forall_forall _ _) (Hfull eq_refl) x Hx).
      * apply (proj1 (Forall_forall _ _) Hne x Hx).
    + rewrite length_take, length_stride by done. simpl. f_equal.
      destruct (p <? length batches mod P); lia.
  - destruct even.
    + destruct (no_split_even_closed batches b P p HP Hp Hwf) as (m & _ & Hrun).
      eexists. split; [exact Hrun|].
      by rewrite length_map, length_seq.
    + eexists. split.
      * apply no_split_uneven; try done.
        intros i x Hi Hlt. apply round_closes_full. simpl. intros ? [= <-].
        destruct Hwf as [_ Hwf]. destruct (Hwf i x Hi) as [_ Hx]. by apply Hx.
      * rewrite length_stride by done. simpl. f_equal.
        destruct (p <? length batches mod P); lia.
Qed.

Lemma shard_len_is_count_witness :
  ∃ ys,
    BatchSamplerShard.__iter__
      (shard_of [[0; 1; 2]; [3; 4; 5]; [6]] 3 false 2 0 false false) = Done ys ∧
    BatchSamplerShard.__len__
      (shard_of [[0; 1; 2]; [3; 4; 5]; [6]] 3 false 2 0 false false)
    = Done (length ys).
Proof.
  apply (shard_len_is_count [[0; 1; 2]; [3; 4; 5]; [6]] 3 2 0 false false);
    [lia | lia | | discriminate].
  split; [lia|]. intros i batch Hi.
  destruct i as [|[|[|i]]]; simpl in Hi; simplify_eq; simpl; lia.
Defined.

(** ** The traversal of a sharded loader *)

Lemma shard_loop_yields {X} ps (self : DataLoaderShard.t X) rest :
  let skip := Z.to_nat (DataLoaderShard.skip_batches self) in
  ∀ sess idx cur drawn acc sess' ys,
    DataLoaderShard.loop ps self sess idx cur rest drawn acc
    = Done (sess', ys) →
    (DataLoaderStateMixin.end_of_dataloader (DataLoaderShard.mixin sess') = true ∧
     DataLoaderStateMixin.remainder (DataLoaderShard.mixin sess')
     = DataLoaderStateMixin.remainder (DataLoaderShard.mixin sess) ∧
     DataLoaderShard.gradient_state sess' = DataLoaderShard.gradient_state sess ∧
     DataLoaderShard.iteration sess' = DataLoaderShard.iteration sess ∧
     snapshot ps (DataLoaderShard.base_dataloader self)
       (drawn + length rest) true (DataLoaderShard.dl_state_dict sess')) ∧
    ∃ new,
      ys = acc ++ new ∧
      map DataLoaderShard.yield_batch new = drop (skip - idx) (cur :: rest) ∧
      ∀ i y, new !! i = Some y →
        DataLoaderShard.yield_end_of_dataloader y
        = (if decide (skip - idx + i = length rest) then true
           else DataLoaderStateMixin.end_of_dataloader
                  (DataLoaderShard.mixin sess)) ∧
        snapshot ps (DataLoaderShard.base_dataloader self)
          (drawn + (skip - idx + i))
          (DataLoaderShard.yield_end_of_dataloader y)
          (DataLoaderShard.yield_state_dict y).
Proof.
  intros skip. induction rest as [|next rest IH];
    intros sess idx cur drawn acc sess' ys Hrun; simpl in Hrun.
  - bind_inv Hrun. bind_inv Hrun. injection Hrun as <- <-. simpl.
    split.
    { repeat split; try done. rewrite Nat.add_0_r. by eexists. }
    unfold DataLoaderShard.yield_if_due. simpl.
    destruct (DataLoaderShard.skip_batches self <=? Z.of_nat idx)%Z eqn:E.
    + apply Z.leb_le in E. replace (skip - idx) with 0 by lia.
      eexists. split; [done|]. split; [done|].
      intros [|i] y Hy; [|done]. injection Hy as <-. simpl.
      split; [done|]. rewrite Nat.add_0_r. by eexists.
    + apply Z.leb_gt in E. exists []. rewrite app_nil_r.
      split; [done|]. split; [|done].
      replace (skip - idx) with (S (skip - idx - 1)) by lia.
      simpl. by rewrite drop_nil.
  - bind_inv Hrun.
    apply IH in Hrun as ((Heod & Hrem & Hgs & Hit & Hsnap)
                         & new & -> & Hbatches & Hnew).
    simpl in *. split.
    { repeat split; try done.
      replace (drawn + S (length rest)) with (drawn + 1 + length rest) by lia.
      done. }
    unfold DataLoaderShard.yield_if_due. simpl.
    destruct (DataLoaderShard.skip_batches self <=? Z.of_nat idx)%Z eqn:E.
    + apply Z.leb_le in E.
      replace (skip - idx) with 0 in * by lia.
      replace (skip - (idx + 1)) with 0 in * by lia.
      eexists. split; [by rewrite <- app_assoc|]. split.
      { simpl. by rewrite Hbatches. }
      intros [|i] y Hy; simpl in Hy.
      * injection Hy as <-. simpl. split; [done|].
        rewrite Nat.add_0_r. by eexists.
      * destruct (Hnew i y Hy) as [Hend Hsn]. split.
        -- rewrite Hend. simpl. repeat case_decide; try done; lia.
        -- replace (drawn + (0 + S i)) with (drawn + 1 + (0 + i)) by lia. done.
    + apply Z.leb_gt in E.
      replace (skip - idx) with (S (skip - (idx + 1))) in * by lia.
      exists new. split; [done|]. split; [done|].
      intros i y Hy. destruct (Hnew i y Hy) as [Hend Hsn]. split.
      * rewrite Hend. repeat case_decide; try done; lia.
      * replace (drawn + (S (skip - (idx + 1)) + i))
          with (drawn + 1 + (skip - (idx + 1) + i)) by lia. done.
Qed.

Lemma adapter_update_total {X} ps (base : DataLoader X) n e old :
  loader_state_dict base = None ∨ distributed ps = false →
  ∃ d, DataLoaderAdapter._update_state_dict ps base n e old = Done d.
Proof.
  intros Hplain. unfold DataLoaderAdapter._update_state_dict.
  destruct (loader_state_dict base) as [sd|]; [|eauto].
  destruct Hplain as [?|Hnd]; [done|].
  unfold DataLoaderAdapter.adjust_state_dict_for_prefetch. rewrite Hnd.
  simpl. eauto.
Qed.

Lemma shard_loop_total {X} ps (self : DataLoaderShard.t X) rest :
  loader_state_dict (DataLoaderShard.base_dataloader self) = None
  ∨ distributed ps = false →
  ∀ sess idx cur drawn acc,
    ∃ sess' ys,
      DataLoaderShard.loop ps self sess idx cur rest drawn acc
      = Done (sess', ys).
Proof.
  intros Hplain. induction rest as [|next rest IH];
    intros sess idx cur drawn acc; simpl.
  - destruct (adapter_update_total ps (DataLoaderShard.base_dataloader self)
                drawn
                (DataLoaderStateMixin.end_of_dataloader
                   (DataLoaderShard.mixin sess))
                (DataLoaderShard.dl_state_dict sess) Hplain) as [d ->].
    simpl.
    destruct (adapter_update_total ps (DataLoaderShard.base_dataloader self)
                drawn true d Hplain) as [d' ->].
    simpl. eauto.
  - destruct (adapter_update_total ps (DataLoaderShard.base_dataloader self)
                drawn
                (DataLoaderStateMixin.end_of_dataloader
                   (DataLoaderShard.mixin sess))
                (DataLoaderShard.dl_state_dict sess) Hplain) as [d ->].
    simpl. apply IH.
Qed.

Lemma begin_end_of_dataloader v id m gs :
  DataLoaderStateMixin.end_of_dataloader
    (DataLoaderStateMixin.begin v id m gs).1 = false.
Proof.
  unfold DataLoaderStateMixin.begin. simpl. by repeat case_match.
Qed.

(** X8: a traversal of a [DataLoaderShard] that completes yields the
    batches of its base loader from position [skip_batches] on, and the
    consumer finds [end_of_dataloader] true with the last batch of the base
    loader and false with every other batch; the traversal completes
    whenever the base loader has no [state_dict] or the run is not
    distributed. *)
Theorem shard_loader_yields {X} (ps : PartialState)
    (self : DataLoaderShard.t X) (sess : DataLoaderShard.session) :
  let batches := loader_batches (DataLoaderShard.base_dataloader self) in
  let skip := Z.to_nat (DataLoaderShard.skip_batches self) in
  (∀ sess' ys,
      DataLoaderShard.__iter__ ps self sess = Done (sess', ys) →
      map DataLoaderShard.yield_batch ys = drop skip batches ∧
      ∀ i y, ys !! i = Some y →
        DataLoaderShard.yield_end_of_dataloader y
        = bool_decide (skip + i + 1 = length batches)) ∧
  (loader_state_dict (DataLoaderShard.base_dataloader self) = None
   ∨ distributed ps = false →
   ∃ sess' ys, DataLoaderShard.__iter__ ps self sess = Done (sess', ys)).
Proof.
  intros batches skip. split.
  - intros sess' ys Hrun. unfold DataLoaderShard.__iter__ in Hrun.
    pose proof (begin_end_of_dataloader (DataLoaderShard.self_view self)
                  (DataLoaderShard.self_id self) (DataLoaderShard.mixin sess)
                  (DataLoaderShard.gradient_state sess)) as Hbegin.
    destruct (DataLoaderStateMixin.begin _ _ _ _) as [m gs].
    fold batches in Hrun. destruct batches as [|cur rest].
    + injection Hrun as _ <-. by rewrite drop_nil.
    + apply outcome_bind_Done in Hrun as ([sess1 ys1] & Hloop & Hrun).
      injection Hrun as _ <-.
      apply shard_loop_yields in Hloop as (_ & new & -> & Hbatches & Hnew).
      simpl in *. rewrite Nat.sub_0_r in *. fold skip in Hbatches, Hnew.
      split; [done|]. intros i y Hy.
      destruct (Hnew i y Hy) as [-> _]. rewrite Hbegin.
      case_decide; case_bool_decide; try done; lia.
  - intros Hplain. unfold DataLoaderShard.__iter__.
    destruct (DataLoaderStateMixin.begin _ _ _ _) as [m gs].
    destruct (loader_batches _) as [|cur rest]; [eauto|].
    edestruct (shard_loop_total ps self rest Hplain) as (sess1 & ys1 & ->).
    simpl. eauto.
Qed.

Lemma shard_loader_yields_witness :
  ∃ sess' ys,
    DataLoaderShard.__iter__
      {| distributed := true; state_num_processes := 2;
         state_process_index := 0 |}
      {| DataLoaderShard.base_dataloader :=
           {| loader_batches := [[0; 1]; [2; 3]; [4; 5]];
              loader_state_dict := None;
              loader_batch_size := Some 2%Z |};
         DataLoaderShard.skip_batches := 1;
         DataLoaderShard.self_id := 0;
         DataLoaderShard.self_view :=
           {| DataLoaderStateMixin._drop_last := Attr false;
              DataLoaderStateMixin.dataset_len := inr 6%Z;
              DataLoaderStateMixin.dataset_total_dataset_length := NoAttr;
              DataLoaderStateMixin.total_batch_size := inr 4%Z |} |}
      {| DataLoaderShard.mixin :=
           {| DataLoaderStateMixin.end_of_dataloader := false;
              DataLoaderStateMixin.remainder := -1 |};
         DataLoaderShard.dl_state_dict := None;
         DataLoaderShard.gradient_state :=
           {| GradientState.dataloader_references := [] |};
         DataLoaderShard.iteration := 0 |}
    = Done (sess', ys).
Proof.
  refine (proj2 (shard_loader_yields _ _ _) _). left. reflexivity.
Defined.

(** X9: after a traversal of a [DataLoaderShard], [end_of_dataloader] is
    true and [iteration] is one more than before, unless the base loader
    had no batch: then [end_of_dataloader] is false and [iteration] is as
    before.  In both cases [remainder] is as [begin] set it and the loader
    is taken out of the registry again. *)
Theorem shard_loader_session {X} (ps : PartialState)
    (self : DataLoaderShard.t X) (sess sess' : DataLoaderShard.session)
    (ys : list (DataLoaderShard.yield X)) :
  DataLoaderShard.__iter__ ps self sess = Done (sess', ys) →
  let started :=
    DataLoaderStateMixin.begin (DataLoaderShard.self_view self)
      (DataLoaderShard.self_id self) (DataLoaderShard.mixin sess)
      (DataLoaderShard.gradient_state sess) in
  let empty :=
    bool_decide (loader_batches (DataLoaderShard.base_dataloader self) = []) in
  DataLoaderStateMixin.end_of_dataloader (DataLoaderShard.mixin sess')
  = negb empty ∧
  DataLoaderShard.iteration sess'
  = (DataLoaderShard.iteration sess + if empty then 0 else 1)%Z ∧
  DataLoaderStateMixin.remainder (DataLoaderShard.mixin sess')
  = DataLoaderStateMixin.remainder started.1 ∧
  DataLoaderShard.gradient_state sess'
  = DataLoaderStateMixin.end_ (DataLoaderShard.self_id self) started.2.
Proof.
  intros Hrun started empty. subst started empty.
  unfold DataLoaderShard.__iter__ in Hrun.
  pose proof (begin_end_of_dataloader (DataLoaderShard.self_view self)
                (DataLoaderShard.self_id self) (DataLoaderShard.mixin sess)
                (DataLoaderShard.gradient_state sess)) as Hbegin.
  destruct (DataLoaderStateMixin.begin _ _ _ _) as [m gs].
  destruct (loader_batches _) as [|cur rest].
  - injection Hrun as <- _. simpl in *. rewrite Z.add_0_r. done.
  - apply outcome_bind_Done in Hrun as ([sess1 ys1] & Hloop & Hrun).
    injection Hrun as <- _.
    apply shard_loop_yields in Hloop as ((Heod & Hrem & Hgs & Hit & _) & _).
    simpl in *. rewrite Heod, Hrem, Hgs, Hit. done.
Qed.

Lemma shard_loader_session_witness :
  ∃ sess' ys,
    DataLoaderShard.__iter__
      {| distributed := false; state_num_processes := 1;
         state_process_index := 0 |}
      empty_shard_loader third_epoch_session = Done (sess', ys) ∧
    DataLoaderStateMixin.end_of_dataloader (DataLoaderShard.mixin sess') = false
    ∧ DataLoaderShard.iteration sess' = 3%Z.
Proof.
  assert (∃ s ys,
            DataLoaderShard.__iter__
              {| distributed := false; state_num_processes := 1;
                 state_process_index := 0 |}
              empty_shard_loader third_epoch_session = Done (s, ys))
    as (s & ys & Hs) by (vm_compute; eauto).
  destruct (shard_loader_session _ _ _ _ _ Hs) as (Heod & Hit & _).
  exists s, ys. split; [done|]. split; [exact Heod|exact Hit].
Defined.

(** X10: over a base loader with a [state_dict], the checkpoint that the
    consumer finds with the batch at position [j] of the base loader is the
    state of the base loader after [j + 1] batches were drawn, adjusted for
    prefetching, with [_iterator_finished] set exactly with the last
    batch. *)
Theorem shard_loader_checkpoints {X} (ps : PartialState)
    (self : DataLoaderShard.t X) (sess sess' : DataLoaderShard.session)
    (ys : list (DataLoaderShard.yield X))
    (state_dict : nat → gmap string pyval) :
  let base := DataLoaderShard.base_dataloader self in
  let skip := Z.to_nat (DataLoaderShard.skip_batches self) in
  loader_state_dict base = Some state_dict →
  DataLoaderShard.__iter__ ps self sess = Done (sess', ys) →
  ∀ i y, ys !! i = Some y →
    ∃ d,
      DataLoaderAdapter.adjust_state_dict_for_prefetch ps
        (loader_batch_size base) (state_dict (skip + i + 1)) = Done d ∧
      DataLoaderShard.yield_state_dict y
      = Some (<["_iterator_finished" :=
                  PyBool (bool_decide
                            (skip + i + 1 = length (loader_batches base)))]> d).
Proof.
  intros base skip Hsd Hrun i y Hy.
  unfold DataLoaderShard.__iter__ in Hrun.
  pose proof (begin_end_of_dataloader (DataLoaderShard.self_view self)
                (DataLoaderShard.self_id self) (DataLoaderShard.mixin sess)
                (DataLoaderShard.gradient_state sess)) as Hbegin.
  destruct (DataLoaderStateMixin.begin _ _ _ _) as [m gs].
  fold base in Hrun. destruct (loader_batches base) as [|cur rest].
  { injection Hrun as _ <-. done. }
  apply outcome_bind_Done in Hrun as ([sess1 ys1] & Hloop & Hrun).
  injection Hrun as _ <-.
  apply shard_loop_yields in Hloop as (_ & new & -> & _ & Hnew).
  simpl in Hy. destruct (Hnew i y Hy) as [Hend [old Hsnap]].
  simpl in Hbegin, Hend. rewrite Hbegin in Hend.
  rewrite Nat.sub_0_r in Hsnap, Hend. fold skip base in Hsnap, Hend.
  assert (DataLoaderShard.yield_end_of_dataloader y
          = bool_decide (skip + i + 1 = length (cur :: rest))) as Hflag.
  { rewrite Hend. simpl. case_decide; case_bool_decide; try done; lia. }
  rewrite <- Hflag.
  unfold DataLoaderAdapter._update_state_dict in Hsnap.
  rewrite Hsd in Hsnap. bind_inv Hsnap. injection Hsnap as <-.
  exists x. split; [|done].
  replace (skip + i + 1) with (1 + (skip + i)) by lia. done.
Qed.

Lemma shard_loader_checkpoints_witness :
  ∃ sess' ys y,
    DataLoaderShard.__iter__ two_processes stateful_shard_loader
      third_epoch_session = Done (sess', ys) ∧
    ys !! 2 = Some y ∧
    checkpoint_entry (Done (DataLoaderShard.yield_state_dict y))
      "_iterator_finished" = Some (PyBool true).
Proof.
  assert (∃ s ys y,
            DataLoaderShard.__iter__ two_processes stateful_shard_loader
              third_epoch_session = Done (s, ys) ∧ ys !! 2 = Some y)
    as (s & ys & y & Hs & Hy) by (vm_compute; eauto).
  destruct (shard_loader_checkpoints two_processes stateful_shard_loader
              _ _ _ _ eq_refl Hs 2 y Hy) as (d & _ & Hd).
  exists s, ys, y. split; [done|]. split; [done|].
  rewrite Hd. simpl. by rewrite lookup_insert_eq.
Defined.

(** ** The rounds of a dispatched traversal *)

Lemma fetch_loop_spec {A} (self : DataLoaderDispatcher.t A) n :
  ∀ sess it bs sess' it' bs' stopped,
    DataLoaderDispatcher.fetch_loop self n sess it bs
    = Done (sess', it', bs', stopped) →
    if n <=? length (DataLoaderDispatcher.rest it)
    then stopped = false ∧
         bs' = bs ++ take n (DataLoaderDispatcher.rest it) ∧
         DataLoaderDispatcher.rest it' = drop n (DataLoaderDispatcher.rest it)
    else stopped = true ∧
         bs' = bs ++ DataLoaderDispatcher.rest it ∧
         DataLoaderDispatcher.rest it' = [].
Proof.
  induction n as [|n IH]; intros sess it bs sess' it' bs' stopped Hrun;
    simpl in Hrun.
  - injection Hrun as _ <- <- <-. simpl. by rewrite app_nil_r.
  - bind_inv Hrun. unfold DataLoaderDispatcher.next in Hrun.
    destruct (DataLoaderDispatcher.rest it) as [|b r] eqn:Hr.
    + injection Hrun as _ <- <- <-. simpl. rewrite Hr. by rewrite app_nil_r.
    + apply IH in Hrun. simpl in Hrun.
      change (S n <=? length (b :: r)) with (n <=? length r).
      destruct (n <=? length r).
      * destruct Hrun as (-> & -> & ->). by rewrite <- app_assoc.
      * destruct Hrun as (-> & -> & ->). by rewrite <- app_assoc.
Qed.

Lemma update_state_dict_fields {A} (self : DataLoaderDispatcher.t A)
    n sess sess' :
  DataLoaderDispatcher.update_state_dict self n sess = Done sess' →
  DataLoaderDispatcher.mixin sess' = DataLoaderDispatcher.mixin sess ∧
  DataLoaderDispatcher.gradient_state sess'
  = DataLoaderDispatcher.gradient_state sess ∧
  DataLoaderDispatcher.iteration sess' = DataLoaderDispatcher.iteration sess ∧
  DataLoaderDispatcher._stop_iteration sess'
  = DataLoaderDispatcher._stop_iteration sess.
Proof.
  unfold DataLoaderDispatcher.update_state_dict. intros H. bind_inv H.
  by injection H as <-.
Qed.

Lemma update_on_main_fields {A} (self : DataLoaderDispatcher.t A)
    it sess sess' :
  DataLoaderDispatcher.update_state_dict_on_main self it sess = Done sess' →
  DataLoaderDispatcher.mixin sess' = DataLoaderDispatcher.mixin sess ∧
  DataLoaderDispatcher.gradient_state sess'
  = DataLoaderDispatcher.gradient_state sess ∧
  DataLoaderDispatcher.iteration sess' = DataLoaderDispatcher.iteration sess ∧
  DataLoaderDispatcher._stop_iteration sess'
  = DataLoaderDispatcher._stop_iteration sess.
Proof.
  unfold DataLoaderDispatcher.update_state_dict_on_main.
  destruct (_ =? 0); [apply update_state_dict_fields|].
  by intros [= <-].
Qed.

Lemma fetch_loop_fields {A} (self : DataLoaderDispatcher.t A) n :
  ∀ sess it bs sess' it' bs' stopped,
    DataLoaderDispatcher.fetch_loop self n sess it bs
    = Done (sess', it', bs', stopped) →
    DataLoaderDispatcher.mixin sess' = DataLoaderDispatcher.mixin sess ∧
    DataLoaderDispatcher.gradient_state sess'
    = DataLoaderDispatcher.gradient_state sess ∧
    DataLoaderDispatcher.iteration sess' = DataLoaderDispatcher.iteration sess.
Proof.
  induction n as [|n IH]; intros sess it bs sess' it' bs' stopped Hrun;
    simpl in Hrun.
  - by injection Hrun as <- _ _ _.
  - bind_inv Hrun. apply update_on_main_fields in Hx as (Hm & Hg & Hi & _).
    destruct (DataLoaderDispatcher.next it) as [[b it1]|].
    + apply IH in Hrun as (-> & -> & ->). done.
    + by injection Hrun as <- _ _ _.
Qed.

Lemma fetch_batches_spec {A} (self : DataLoaderDispatcher.t A)
    sess it sess' it' nb nbi :
  DataLoaderDispatcher._fetch_batches self sess it
  = Done (sess', it', nb, nbi) →
  (nb, DataLoaderDispatcher._stop_iteration sess',
   DataLoaderDispatcher.rest it')
  = fetch_outcome self (DataLoaderDispatcher.rest it) ∧
  bool_decide (nbi.1 = None) = bool_decide (nb = None) ∧
  DataLoaderDispatcher.mixin sess' = DataLoaderDispatcher.mixin sess ∧
  DataLoaderDispatcher.gradient_state sess'
  = DataLoaderDispatcher.gradient_state sess ∧
  DataLoaderDispatcher.iteration sess' = DataLoaderDispatcher.iteration sess.
Proof.
  intros Hrun. unfold DataLoaderDispatcher._fetch_batches in Hrun.
  unfold fetch_outcome.
  apply outcome_bind_Done in Hrun
    as ([[[[s1 it1] bs1] b1] i1] & Hfirst & Hrun).
  destruct (DataLoaderDispatcher.split_batches self).
  - bind_inv Hfirst. apply update_on_main_fields in Hx as (Hm & Hg & Hi & _).
    unfold DataLoaderDispatcher.next in Hfirst.
    destruct (DataLoaderDispatcher.rest it) as [|b r] eqn:Hr;
      injection Hfirst as <- <- <- <- <-; simpl in Hrun;
      injection Hrun as <- <- <- <-; simpl; rewrite ?Hr; done.
  - destruct (DataLoaderDispatcher.submesh_tp self).
    + bind_inv Hfirst. apply update_on_main_fields in Hx as (Hm & Hg & Hi & _).
      unfold DataLoaderDispatcher.next in Hfirst.
      destruct (DataLoaderDispatcher.rest it) as [|b r] eqn:Hr;
        injection Hfirst as <- <- <- <- <-; simpl in Hrun.
      * destruct (negb (DataLoaderDispatcher._drop_last self));
          injection Hrun as <- <- <- <-; simpl; rewrite ?Hr; done.
      * injection Hrun as <- <- <- <-. simpl. done.
    + apply outcome_bind_Done in Hfirst as ([[[s2 it2] bs2] st2] & Hloop & Hfirst).
      pose proof (fetch_loop_fields _ _ _ _ _ _ _ _ _ Hloop) as (Hm & Hg & Hi).
      apply fetch_loop_spec in Hloop. simpl in Hloop.
      destruct (_ <=? length (DataLoaderDispatcher.rest it)).
      * destruct Hloop as (-> & -> & Hrest).
        injection Hfirst as <- <- <- <- <-. simpl in Hrun.
        injection Hrun as <- <- <- <-. simpl. rewrite Hrest. done.
      * destruct Hloop as (-> & -> & Hrest).
        injection Hfirst as <- <- <- <- <-. simpl in Hrun.
        destruct (DataLoaderDispatcher._drop_last self); simpl in Hrun |- *.
        -- injection Hrun as <- <- <- <-. simpl. rewrite Hrest. done.
        -- destruct (DataLoaderDispatcher.rest it) as [|b r] eqn:Hr;
             injection Hrun as <- <- <- <-; simpl; rewrite Hrest; done.
Qed.

Lemma math_ceil_div_small n P : 0 < n → n < P → math_ceil_div n P = 1.
Proof.
  intros Hn HP. unfold math_ceil_div.
  rewrite Nat.mod_small, Nat.div_small by lia.
  destruct (n =? 0) eqn:E; [apply Nat.eqb_eq in E; lia|done].
Qed.

Lemma math_ceil_div_step n P :
  0 < P → P ≤ n → math_ceil_div n P = S (math_ceil_div (n - P) P).
Proof.
  intros HP Hn. unfold math_ceil_div.
  assert (n mod P = (n - P) mod P) as ->.
  { replace n with (n - P + 1 * P) at 1 by lia. apply Nat.Div0.mod_add. }
  assert (n / P = S ((n - P) / P)) as ->.
  { replace n with (1 * P + (n - P)) at 1 by lia.
    rewrite Nat.div_add_l by lia. lia. }
  destruct (_ =? 0); lia.
Qed.

Lemma div_step n P : 0 < P → P ≤ n → n / P = S ((n - P) / P).
Proof.
  intros HP Hn. replace n with (1 * P + (n - P)) at 1 by lia.
  rewrite Nat.div_add_l by lia. lia.
Qed.

Lemma combined_fetch {A} (self : DataLoaderDispatcher.t A) r :
  0 < state_num_processes (DataLoaderDispatcher.state self) →
  combined_batches self r
  = match fetch_outcome self r with
    | (Some batch, stop, r') =>
        batch :: (if stop : bool then [] else combined_batches self r')
    | (None, _, _) => []
    end.
Proof.
  intros HP. unfold combined_batches, fetch_outcome.
  set (P := state_num_processes _) in *.
  destruct (DataLoaderDispatcher.split_batches self); [by destruct r|].
  destruct (DataLoaderDispatcher.submesh_tp self); [by destruct r|].
  destruct (P <=? length r) eqn:E.
  - apply Nat.leb_le in E.
    assert ((if DataLoaderDispatcher._drop_last self then length r / P
             else math_ceil_div (length r) P)
            = S (if DataLoaderDispatcher._drop_last self
                 then length (drop P r) / P
                 else math_ceil_div (length (drop P r)) P)) as ->.
    { rewrite length_drop. destruct (DataLoaderDispatcher._drop_last self).
      - by apply div_step.
      - by apply math_ceil_div_step. }
    rewrite <- cons_seq. simpl. rewrite drop_0. f_equal.
    rewrite <- seq_shift, map_map. apply map_ext. intros j.
    by rewrite drop_drop.
  - apply Nat.leb_gt in E.
    destruct (DataLoaderDispatcher._drop_last self); simpl.
    + by rewrite Nat.div_small.
    + destruct (0 <? length r) eqn:E0.
      * apply Nat.ltb_lt in E0. rewrite math_ceil_div_small by done.
        simpl. rewrite drop_0, take_ge by lia. done.
      * apply Nat.ltb_ge in E0. destruct r; [|simpl in E0; lia].
        unfold math_ceil_div. simpl. rewrite Nat.Div0.mod_0_l.
        by rewrite Nat.Div0.div_0_l.
Qed.

Lemma iter_loop_batches {A} (self : DataLoaderDispatcher.t A) fuel :
  0 < state_num_processes (DataLoaderDispatcher.state self) →
  ∀ sess it batch nbi fb idx rs sess' rs',
    DataLoaderDispatcher.iter_loop self fuel sess it (Some batch) nbi fb idx rs
    = Done (sess', rs') →
    map DataLoaderDispatcher.round_batch rs'
    = map DataLoaderDispatcher.round_batch rs
      ++ batch :: (if DataLoaderDispatcher._stop_iteration sess then []
                   else combined_batches self (DataLoaderDispatcher.rest it)) ∧
    DataLoaderStateMixin.end_of_dataloader (DataLoaderDispatcher.mixin sess')
    = true ∧
    DataLoaderDispatcher.gradient_state sess'
    = DataLoaderDispatcher.gradient_state sess ∧
    DataLoaderDispatcher.iteration sess' = DataLoaderDispatcher.iteration sess ∧
    ∃ pre r_last,
      rs' = pre ++ [r_last] ∧
      DataLoaderStateMixin.remainder (DataLoaderDispatcher.mixin sess')
      = Z.of_nat (length (DataLoaderDispatcher.round_batch r_last)).
Proof.
  intros HP. induction fuel as [|fuel IH];
    intros sess it batch nbi fb idx rs sess' rs' Hrun; [done|].
  cbn [DataLoaderDispatcher.iter_loop] in Hrun.
  apply outcome_bind_Done in Hrun
    as ([[[[sess1 it1] nb1] nbi1] stop] & Hnext & Hrun).
  apply outcome_bind_Done in Hrun as ([sliced bs] & Hsl & Hrun).
  apply outcome_bind_Done in Hrun as (sess2 & Hsess2 & Hrun).
  clear Hsl.
  assert (stop = true →
          DataLoaderStateMixin.end_of_dataloader
            (DataLoaderDispatcher.mixin sess2) = true ∧
          DataLoaderDispatcher.gradient_state sess2
          = DataLoaderDispatcher.gradient_state sess1 ∧
          DataLoaderDispatcher.iteration sess2
          = DataLoaderDispatcher.iteration sess1 ∧
          DataLoaderStateMixin.remainder (DataLoaderDispatcher.mixin sess2)
          = Z.of_nat (length batch)) as Hfinal.
  { intros ->. bind_inv Hsess2. injection Hsess2 as <-. simpl.
    apply update_state_dict_fields in Hx as (-> & -> & -> & _). done. }
  destruct (DataLoaderDispatcher._stop_iteration sess) eqn:Hstop;
    simpl in Hnext.
  - injection Hnext as <- <- <- <- <-.
    destruct (Hfinal eq_refl) as (Heod & Hgs & Hit & Hrem).
    injection Hrun as <- <-. rewrite map_app. simpl.
    repeat split; try done. eexists _, _. split; [done|]. done.
  - apply outcome_bind_Done in Hnext as ([[[s3 it3] nb3] nbi3] & Hfetch & Hnext).
    injection Hnext as <- <- <- <- <-.
    apply fetch_batches_spec in Hfetch as (Hout & Hnone & Hm & Hgs & Hit).
    rewrite (combined_fetch self (DataLoaderDispatcher.rest it)) by done.
    rewrite <- Hout. rewrite Hnone in *.
    destruct nb3 as [batch3|]; simpl in *.
    + rewrite andb_false_r in *. injection Hsess2 as <-.
      apply IH in Hrun as (Hbatches & Heod & Hgs' & Hit' & Hlast).
      rewrite Hbatches, map_app, <- app_assoc. simpl.
      repeat split; try done; congruence.
    + assert (DataLoaderDispatcher._stop_iteration s3 = true) as Hs3.
      { unfold fetch_outcome in Hout.
        repeat case_match; by simplify_eq. }
      rewrite Hs3 in *. simpl in *.
      destruct (Hfinal eq_refl) as (Heod & Hgs' & Hit' & Hrem).
      injection Hrun as <- <-. rewrite map_app. simpl.
      repeat split; try done; try congruence.
      eexists _, _. split; [done|]. done.
Qed.

Lemma fetch_outcome_none {A} (self : DataLoaderDispatcher.t A) r stop r' :
  fetch_outcome self r = (None, stop, r') → stop = true.
Proof. unfold fetch_outcome. intros H. repeat case_match; by simplify_eq. Qed.

Lemma rounds_facts {A} (self : DataLoaderDispatcher.t A) sess sess' rs :
  0 < state_num_processes (DataLoaderDispatcher.state self) →
  DataLoaderDispatcher.rounds self sess = Done (sess', rs) →
  let started :=
    DataLoaderStateMixin.begin (DataLoaderDispatcher.self_view self)
      (DataLoaderDispatcher.self_id self) (DataLoaderDispatcher.mixin sess)
      (DataLoaderDispatcher.gradient_state sess) in
  map DataLoaderDispatcher.round_batch rs = dispatch_batches self ∧
  DataLoaderStateMixin.end_of_dataloader (DataLoaderDispatcher.mixin sess')
  = true ∧
  DataLoaderDispatcher.gradient_state sess'
  = DataLoaderStateMixin.end_ (DataLoaderDispatcher.self_id self) started.2 ∧
  DataLoaderDispatcher.iteration sess'
  = DataLoaderDispatcher.iteration sess + 1 ∧
  ∃ pre r_last,
    rs = pre ++ [r_last] ∧
    DataLoaderStateMixin.remainder (DataLoaderDispatcher.mixin sess')
    = Z.of_nat (length (DataLoaderDispatcher.round_batch r_last)).
Proof.
  intros HP Hrun. unfold DataLoaderDispatcher.rounds in Hrun. cbv zeta.
  destruct (DataLoaderStateMixin.begin _ _ _ _) as [m gs].
  apply outcome_bind_Done in Hrun as ([[[s1 it1] nb1] nbi1] & Hfetch & Hrun).
  apply outcome_bind_Done in Hrun as ([s2 rs2] & Hloop & Hrun).
  injection Hrun as <- <-.
  apply fetch_batches_spec in Hfetch as (Hout & _ & _ & Hgs & Hit).
  simpl in Hout, Hgs, Hit.
  unfold dispatch_batches. rewrite combined_fetch, <- Hout by done.
  destruct nb1 as [batch|]; [|rewrite Nat.add_1_r in Hloop; done].
  apply iter_loop_batches in Hloop as (-> & Heod & Hgs' & Hit' & Hlast);
    [|done].
  simpl. rewrite Hgs', Hgs, Hit', Hit. done.
Qed.

(** X11: in a traversal of a dispatcher that completes, the combined
    batches of the passes are, in order, the batches of the base loader with
    [split_batches], each of them [num_processes] times over with a "tp"
    submesh, and otherwise the batches joined [num_processes] at a time, an
    incomplete last group included unless [_drop_last] is set; without a
    "tp" submesh, [len] of the dispatcher is the number of passes. *)
Theorem dispatch_rounds {A} (self : DataLoaderDispatcher.t A)
    (sess sess' : DataLoaderDispatcher.session)
    (rs : list (DataLoaderDispatcher.round A)) :
  0 < state_num_processes (DataLoaderDispatcher.state self) →
  DataLoaderDispatcher.rounds self sess = Done (sess', rs) →
  map DataLoaderDispatcher.round_batch rs = dispatch_batches self ∧
  (DataLoaderDispatcher.submesh_tp self = false →
   DataLoaderDispatcher.__len__ self = Done (length rs)).
Proof.
  intros HP Hrun.
  destruct (rounds_facts self sess sess' rs HP Hrun) as (Hbatches & _).
  split; [done|]. intros Htp.
  rewrite <- (length_map DataLoaderDispatcher.round_batch), Hbatches.
  unfold dispatch_batches, combined_batches, DataLoaderDispatcher.__len__,
    DataLoaderAdapter.__len__.
  rewrite Htp.
  destruct (DataLoaderDispatcher.split_batches self); [done|].
  destruct (_ =? 0) eqn:E; [apply Nat.eqb_eq in E; lia|].
  rewrite length_map, length_seq.
  by destruct (DataLoaderDispatcher._drop_last self).
Qed.

Lemma dispatch_rounds_witness :
  ∃ sess' rs,
    DataLoaderDispatcher.rounds uneven_dispatcher fresh_session
    = Done (sess', rs) ∧
    map DataLoaderDispatcher.round_batch rs = [[0; 1; 2; 3; 4; 5]; [6; 7]] ∧
    DataLoaderDispatcher.__len__ uneven_dispatcher = Done (length rs).
Proof.
  assert (∃ s rs, DataLoaderDispatcher.rounds uneven_dispatcher fresh_session
                  = Done (s, rs)) as (s & rs & Hs) by (vm_compute; eauto).
  destruct (dispatch_rounds uneven_dispatcher _ _ _ ltac:(simpl; lia) Hs)
    as [Hbatches Hlen].
  exists s, rs. split; [done|]. split; [exact Hbatches|].
  by apply Hlen.
Defined.

(** X13: after a traversal of a dispatcher, [end_of_dataloader] is
    true, [remainder] is the size of the last combined batch (before it is
    completed from the pool), [iteration] is one more than before and the
    loader is taken out of the registry again. *)
Theorem dispatch_session {A} (self : DataLoaderDispatcher.t A)
    (sess sess' : DataLoaderDispatcher.session)
    (rs : list (DataLoaderDispatcher.round A)) :
  0 < state_num_processes (DataLoaderDispatcher.state self) →
  DataLoaderDispatcher.rounds self sess = Done (sess', rs) →
  let started :=
    DataLoaderStateMixin.begin (DataLoaderDispatcher.self_view self)
      (DataLoaderDispatcher.self_id self) (DataLoaderDispatcher.mixin sess)
      (DataLoaderDispatcher.gradient_state sess) in
  DataLoaderStateMixin.end_of_dataloader (DataLoaderDispatcher.mixin sess')
  = true ∧
  (fun batch => Z.of_nat (length batch)) <$> last (dispatch_batches self)
  = Some (DataLoaderStateMixin.remainder (DataLoaderDispatcher.mixin sess')) ∧
  DataLoaderDispatcher.iteration sess'
  = DataLoaderDispatcher.iteration sess + 1 ∧
  DataLoaderDispatcher.gradient_state sess'
  = DataLoaderStateMixin.end_ (DataLoaderDispatcher.self_id self) started.2.
Proof.
  intros HP Hrun started.
  destruct (rounds_facts self sess sess' rs HP Hrun)
    as (Hbatches & Heod & Hgs & Hit & pre & r_last & -> & Hrem).
  repeat split; try done.
  rewrite <- Hbatches, map_app. simpl. rewrite last_snoc. simpl.
  by rewrite Hrem.
Qed.

Lemma dispatch_session_witness :
  ∃ sess' rs,
    DataLoaderDispatcher.rounds uneven_dispatcher fresh_session
    = Done (sess', rs) ∧
    DataLoaderStateMixin.end_of_dataloader (DataLoaderDispatcher.mixin sess')
    = true ∧
    DataLoaderStateMixin.remainder (DataLoaderDispatcher.mixin sess') = 2%Z.
Proof.
  assert (∃ s rs, DataLoaderDispatcher.rounds uneven_dispatcher fresh_session
                  = Done (s, rs)) as (s & rs & Hs) by (vm_compute; eauto).
  destruct (dispatch_session uneven_dispatcher _ _ _ ltac:(simpl; lia) Hs)
    as (Heod & Hrem & _).
  exists s, rs. split; [done|]. split; [exact Heod|].
  change (Some 2%Z
          = Some (DataLoaderStateMixin.remainder (DataLoaderDispatcher.mixin s)))
    in Hrem.
  by injection Hrem as <-.
Defined.

Lemma outcome_bind_Raised {T U} (m : outcome T) (k : T → outcome U) e :
  m ≫= k = Raised e → m = Raised e ∨ ∃ x, m = Done x ∧ k x = Raised e.
Proof.
  destruct m as [x| |]; intros H; [right; eauto|left; by inversion H|inversion H].
Qed.

Lemma update_state_dict_plain {A} (self : DataLoaderDispatcher.t A) n sess :
  loader_state_dict (DataLoaderDispatcher.base_dataloader self) = None →
  ∃ sess', DataLoaderDispatcher.update_state_dict self n sess = Done sess'.
Proof.
  intros Hplain. unfold DataLoaderDispatcher.update_state_dict,
    DataLoaderAdapter._update_state_dict.
  rewrite Hplain. simpl. eauto.
Qed.

Lemma update_on_main_plain {A} (self : DataLoaderDispatcher.t A) it sess :
  loader_state_dict (DataLoaderDispatcher.base_dataloader self) = None →
  ∃ sess',
    DataLoaderDispatcher.update_state_dict_on_main self it sess = Done sess'.
Proof.
  intros Hplain. unfold DataLoaderDispatcher.update_state_dict_on_main.
  destruct (_ =? 0); [by apply update_state_dict_plain|eauto].
Qed.

Lemma fetch_loop_plain {A} (self : DataLoaderDispatcher.t A) n :
  loader_state_dict (DataLoaderDispatcher.base_dataloader self) = None →
  ∀ sess it bs,
    ∃ res, DataLoaderDispatcher.fetch_loop self n sess it bs = Done res.
Proof.
  intros Hplain. induction n as [|n IH]; intros sess it bs; simpl; [eauto|].
  destruct (update_on_main_plain self it sess Hplain) as [sess1 ->]. simpl.
  destruct (DataLoaderDispatcher.next it) as [[b it1]|]; [apply IH|eauto].
Qed.

Lemma fetch_batches_plain {A} (self : DataLoaderDispatcher.t A) sess it :
  loader_state_dict (DataLoaderDispatcher.base_dataloader self) = None →
  ∃ res, DataLoaderDispatcher._fetch_batches self sess it = Done res.
Proof.
  intros Hplain. unfold DataLoaderDispatcher._fetch_batches.
  destruct (DataLoaderDispatcher.split_batches self).
  - destruct (update_on_main_plain self it sess Hplain) as [sess1 ->]. simpl.
    destruct (DataLoaderDispatcher.next it) as [[b it1]|]; simpl; eauto.
  - destruct (DataLoaderDispatcher.submesh_tp self).
    + destruct (update_on_main_plain self it sess Hplain) as [sess1 ->]. simpl.
      destruct (DataLoaderDispatcher.next it) as [[b it1]|]; simpl; [eauto|].
      destruct (negb _); simpl; eauto.
    + destruct (fetch_loop_plain self
                  (state_num_processes (DataLoaderDispatcher.state self))
                  Hplain sess it []) as [[[[s1 it1] bs1] st1] ->].
      simpl. destruct st1; simpl; [|eauto].
      destruct (negb _); simpl; [|eauto]. destruct bs1; eauto.
Qed.

Lemma iter_loop_plain {A} (self : DataLoaderDispatcher.t A) fuel e :
  loader_state_dict (DataLoaderDispatcher.base_dataloader self) = None →
  ∀ sess it batch nbi fb idx rs,
    DataLoaderDispatcher.iter_loop self fuel sess it (Some batch) nbi fb idx rs
    ≠ Raised e.
Proof.
  intros Hplain. induction fuel as [|fuel IH];
    intros sess it batch nbi fb idx rs Hrun; [done|].
  cbn [DataLoaderDispatcher.iter_loop] in Hrun.
  apply outcome_bind_Raised in Hrun
    as [Hnext|([[[[sess1 it1] nb1] nbi1] stop] & Hnext & Hrun)].
  { destruct (DataLoaderDispatcher._stop_iteration sess); [done|].
    simpl in Hnext.
    destruct (fetch_batches_plain self sess it Hplain)
      as [[[[s3 it3] nb3] nbi3] Hf].
    rewrite Hf in Hnext. done. }
  apply outcome_bind_Raised in Hrun as [Hsl|([sliced bs] & Hsl & Hrun)].
  { destruct (DataLoaderDispatcher._drop_last self); simpl in Hsl; [done|].
    destruct fb; simpl in Hsl; by destruct (stop && _). }
  apply outcome_bind_Raised in Hrun as [Hup|(sess2 & Hup & Hrun)].
  { destruct stop; [|done].
    edestruct (update_state_dict_plain self) as [s' Hs']; [done|].
    rewrite Hs' in Hup. done. }
  destruct stop; [done|]. injection Hup as <-.
  destruct (DataLoaderDispatcher._stop_iteration sess); [done|].
  simpl in Hnext. bind_inv Hnext. destruct x as [[[s3 it3] nb3] nbi3].
  injection Hnext as <- <- <- <- Hstop.
  apply fetch_batches_spec in Hx as (Hout & Hnone & _).
  destruct nb3 as [batch3|]; [by eapply IH|].
  symmetry in Hout. apply fetch_outcome_none in Hout.
  rewrite Hout, Hnone in Hstop. done.
Qed.

(** X12: over a base loader without [state_dict], a traversal of a
    dispatcher raises [ValueError] when there is no pass to make: the base
    loader has no batch, or it has fewer batches than processes and
    [_drop_last] is set (without [split_batches] and "tp" submesh); in
    every other case the traversal completes. *)
Theorem dispatch_no_round_raises {A} (self : DataLoaderDispatcher.t A)
    (sess : DataLoaderDispatcher.session) :
  let P := state_num_processes (DataLoaderDispatcher.state self) in
  let batches := loader_batches (DataLoaderDispatcher.base_dataloader self) in
  loader_state_dict (DataLoaderDispatcher.base_dataloader self) = None →
  0 < P →
  (batches = [] ∨
   DataLoaderDispatcher.split_batches self = false ∧
   DataLoaderDispatcher.submesh_tp self = false ∧
   DataLoaderDispatcher._drop_last self = true ∧ length batches < P →
   DataLoaderDispatcher.rounds self sess = Raised ValueError) ∧
  (batches ≠ [] →
   DataLoaderDispatcher.split_batches self = true ∨
   DataLoaderDispatcher.submesh_tp self = true ∨
   DataLoaderDispatcher._drop_last self = false ∨ P ≤ length batches →
   ∃ sess' rs, DataLoaderDispatcher.rounds self sess = Done (sess', rs)).
Proof.
  intros P batches Hplain HP.
  pose proof (rounds_terminate self sess HP) as Hterm.
  unfold DataLoaderDispatcher.rounds in *.
  destruct (DataLoaderStateMixin.begin _ _ _ _) as [m gs].
  destruct (fetch_batches_plain self
              {| DataLoaderDispatcher.mixin := m;
                 DataLoaderDispatcher.dl_state_dict :=
                   DataLoaderDispatcher.dl_state_dict sess;
                 DataLoaderDispatcher.gradient_state := gs;
                 DataLoaderDispatcher.iteration :=
                   DataLoaderDispatcher.iteration sess;
                 DataLoaderDispatcher._stop_iteration := false |}
              {| DataLoaderDispatcher.drawn := 0;
                 DataLoaderDispatcher.rest := batches |} Hplain)
    as [[[[s1 it1] nb1] nbi1] Hfetch].
  fold batches in Hterm |- *. rewrite Hfetch in *. simpl in *.
  apply fetch_batches_spec in Hfetch as (Hout & _). simpl in Hout.
  unfold fetch_outcome in Hout. fold P in Hout.
  rewrite Nat.add_1_r in *.
  split.
  - intros [Hnil|(Hsplit & Htp & Hdrop & Hlt)].
    + rewrite Hnil in Hout.
      assert (nb1 = None) as ->.
      { destruct (DataLoaderDispatcher.split_batches self); [by simplify_eq|].
        destruct (DataLoaderDispatcher.submesh_tp self); [by simplify_eq|].
        destruct (P <=? length []) eqn:E;
          [apply Nat.leb_le in E; simpl in E; lia|].
        simpl in Hout. rewrite andb_false_r in Hout. by simplify_eq. }
      cbn [DataLoaderDispatcher.iter_loop]. reflexivity.
    + rewrite Hsplit, Htp, Hdrop in Hout.
      destruct (P <=? length batches) eqn:E; [apply Nat.leb_le in E; lia|].
      simpl in Hout. injection Hout as -> _ _.
      cbn [DataLoaderDispatcher.iter_loop]. reflexivity.
  - intros Hne Hcase.
    assert (∃ batch, nb1 = Some batch) as [batch ->].
    { destruct (DataLoaderDispatcher.split_batches self).
      { destruct batches; [done|]. simplify_eq. eauto. }
      destruct (DataLoaderDispatcher.submesh_tp self).
      { destruct batches; [done|]. simplify_eq. eauto. }
      destruct (P <=? length batches) eqn:E; [simplify_eq; eauto|].
      apply Nat.leb_gt in E.
      destruct (DataLoaderDispatcher._drop_last self).
      { destruct Hcase as [?|[?|[?|?]]]; try done. lia. }
      simpl in Hout.
      destruct (0 <? length batches) eqn:E0; [simplify_eq; eauto|].
      apply Nat.ltb_ge in E0. destruct batches; [done|simpl in E0; lia]. }
    destruct (DataLoaderDispatcher.iter_loop _ _ _ _ _ _ _ _ _)
      as [[s2 rs]|e|] eqn:Hloop.
    + simpl. eauto.
    + by apply iter_loop_plain in Hloop.
    + exfalso. by apply Hterm.
Qed.

Lemma dispatch_no_round_raises_witness :
  DataLoaderDispatcher.rounds (dispatcher_of [[0; 1]] 2 0 false true)
    fresh_session = Raised ValueError.
Proof.
  apply (proj1 (dispatch_no_round_raises
                  (dispatcher_of [[0; 1]] 2 0 false true) fresh_session
                  eq_refl ltac:(simpl; lia))).
  right. repeat split. simpl. lia.
Defined.

(** X14: with a "tp" submesh and without [split_batches], every process
    receives every batch of the base loader whole: its slices are the
    batches of the base loader, in order. *)
Theorem dispatch_tp_replicates {A} (self : DataLoaderDispatcher.t A)
    (sess sess' : DataLoaderDispatcher.session)
    (rs : list (DataLoaderDispatcher.round A)) :
  let P := state_num_processes (DataLoaderDispatcher.state self) in
  let p := state_process_index (DataLoaderDispatcher.state self) in
  p < P →
  DataLoaderDispatcher.split_batches self = false →
  DataLoaderDispatcher.submesh_tp self = true →
  DataLoaderDispatcher.rounds self sess = Done (sess', rs) →
  map DataLoaderDispatcher.round_slice rs
  = loader_batches (DataLoaderDispatcher.base_dataloader self).
Proof.
  intros P p Hp Hsplit Htp Hrun.
  assert (0 < P) as HP by lia.
  destruct (rounds_facts self sess sess' rs HP Hrun) as (Hbatches & _).
  unfold dispatch_batches, combined_batches in Hbatches.
  rewrite Hsplit, Htp in Hbatches. fold P in Hbatches.
  apply rounds_ok in Hrun as (first & rest & _ & Hall & _).
  rewrite Forall_lookup in Hall.
  apply list_eq. intros k.
  assert ((DataLoaderDispatcher.round_batch <$> rs) !! k
          = ((fun batch => concat (replicate P batch))
             <$> loader_batches (DataLoaderDispatcher.base_dataloader self))
            !! k) as Hk by (exact (f_equal (fun l => l !! k) Hbatches)).
  change (map DataLoaderDispatcher.round_slice rs)
    with (DataLoaderDispatcher.round_slice <$> rs).
  rewrite !list_lookup_fmap in Hk. rewrite list_lookup_fmap.
  destruct (rs !! k) as [r|] eqn:Hr; simpl in *.
  - destruct (loader_batches _ !! k) as [b|]; simpl in Hk |- *; [|done].
    injection Hk as Hb. f_equal.
    destruct (Hall k r Hr) as (_ & Hslice & Hcase). simpl in Hcase.
    fold P p in Hslice, Hcase.
    assert (length (DataLoaderDispatcher.round_batch r) = P * length b)
      as Hlen by (rewrite Hb; apply length_copies).
    rewrite Hlen in Hcase.
    assert ((P * length b) mod P = 0) as Hmod
      by (rewrite Nat.mul_comm; apply Nat.Div0.mod_mul).
    rewrite Hmod in Hcase. simpl in Hcase. rewrite andb_false_r in Hcase.
    destruct Hcase as [Hsl Hbs].
    rewrite Nat.mul_comm, Nat.div_mul in Hbs by lia.
    rewrite Hslice, Hsl, Hbs, Hb.
    pose proof (window_full (replicate P b) [] (length b) p) as Hw.
    rewrite app_nil_r in Hw. unfold window in Hw. rewrite Hw.
    + unfold batch_at. by rewrite lookup_replicate_2.
    + apply Forall_forall. intros x Hx.
      by apply elem_of_replicate in Hx as [-> _].
    + by rewrite length_replicate.
  - by destruct (loader_batches _ !! k).
Qed.

Lemma dispatch_tp_replicates_witness :
  ∃ sess' rs,
    DataLoaderDispatcher.rounds tp_dispatcher fresh_session
    = Done (sess', rs) ∧
    map DataLoaderDispatcher.round_slice rs = [[0; 1]; [2; 3]; [4]].
Proof.
  assert (∃ s rs, DataLoaderDispatcher.rounds tp_dispatcher fresh_session
                  = Done (s, rs)) as (s & rs & Hs) by (vm_compute; eauto).
  pose proof (dispatch_tp_replicates tp_dispatcher _ _ _ ltac:(simpl; lia)
                eq_refl eq_refl Hs) as Hslices.
  exists s, rs. split; [done|exact Hslices].
Defined.

Lemma iter_loop_yielded {A} (self : DataLoaderDispatcher.t A) fuel :
  ∀ sess it nb nbi fb idx rs sess' rs',
    DataLoaderDispatcher.iter_loop self fuel sess it nb nbi fb idx rs
    = Done (sess', rs') →
    ∃ new,
      rs' = rs ++ new ∧
      ∀ i r, new !! i = Some r →
        DataLoaderDispatcher.round_yielded r
        = (DataLoaderDispatcher.skip_batches self <=? Z.of_nat (idx + i))%Z.
Proof.
  induction fuel as [|fuel IH];
    intros sess it nb nbi fb idx rs sess' rs' Hrun; [done|].
  cbn [DataLoaderDispatcher.iter_loop] in Hrun.
  destruct nb as [batch|]; [|done].
  apply outcome_bind_Done in Hrun
    as ([[[[sess1 it1] nb1] nbi1] stop] & _ & Hrun).
  apply outcome_bind_Done in Hrun as ([sliced bs] & _ & Hrun).
  apply outcome_bind_Done in Hrun as (sess2 & _ & Hrun).
  destruct stop.
  - injection Hrun as <- <-. eexists. split; [done|].
    intros [|i] r Hr; [|done]. injection Hr as <-. simpl.
    by rewrite Nat.add_0_r.
  - apply IH in Hrun as (new & -> & Hnew).
    eexists. split; [by rewrite <- app_assoc|].
    intros [|i] r Hr; simpl in Hr.
    + injection Hr as <-. simpl. by rewrite Nat.add_0_r.
    + rewrite (Hnew i r Hr). do 2 f_equal. lia.
Qed.

Lemma filter_from {X} (f : X → bool) (k : Z) (l : list X) :
  ∀ idx,
    (∀ i x, l !! i = Some x → f x = (k <=? Z.of_nat (idx + i))%Z) →
    List.filter f l = drop (Z.to_nat k - idx) l.
Proof.
  induction l as [|x l IH]; intros idx Hf; simpl.
  - by rewrite drop_nil.
  - pose proof (Hf 0 x eq_refl) as Hx. rewrite Nat.add_0_r in Hx.
    rewrite (IH (idx + 1)).
    + rewrite Hx. destruct (k <=? Z.of_nat idx)%Z eqn:E.
      * apply Z.leb_le in E.
        replace (Z.to_nat k - idx) with 0 by lia.
        replace (Z.to_nat k - (idx + 1)) with 0 by lia. done.
      * apply Z.leb_gt in E.
        replace (Z.to_nat k - idx) with (S (Z.to_nat k - (idx + 1))) by lia.
        done.
    + intros i y Hy. rewrite (Hf (S i) y Hy). do 2 f_equal. lia.
Qed.

(** X15: a dispatcher with [skip_batches] makes every pass of its
    traversal and yields the slices of the passes from position
    [skip_batches] on. *)
Theorem dispatch_skip {A} (self : DataLoaderDispatcher.t A)
    (sess sess' : DataLoaderDispatcher.session) (ys : list (list A)) :
  DataLoaderDispatcher.__iter__ self sess = Done (sess', ys) →
  ∃ rs,
    DataLoaderDispatcher.rounds self sess = Done (sess', rs) ∧
    ys = drop (Z.to_nat (DataLoaderDispatcher.skip_batches self))
           (map DataLoaderDispatcher.round_slice rs).
Proof.
  intros Hrun. unfold DataLoaderDispatcher.__iter__ in Hrun.
  apply outcome_bind_Done in Hrun as ([s rs] & Hrounds & Hrun).
  injection Hrun as <- <-. exists rs. split; [done|].
  unfold DataLoaderDispatcher.rounds in Hrounds.
  destruct (DataLoaderStateMixin.begin _ _ _ _) as [m gs].
  apply outcome_bind_Done in Hrounds
    as ([[[s1 it1] nb1] nbi1] & _ & Hrounds).
  apply outcome_bind_Done in Hrounds as ([s2 rs2] & Hloop & Hrounds).
  injection Hrounds as _ <-.
  apply iter_loop_yielded in Hloop as (new & -> & Hnew). simpl.
  rewrite (filter_from _ (DataLoaderDispatcher.skip_batches self) new 0)
    by done.
  rewrite Nat.sub_0_r.
  change (map DataLoaderDispatcher.round_slice (drop ?n new))
    with (DataLoaderDispatcher.round_slice <$> drop n new).
  by rewrite fmap_drop.
Qed.

Lemma dispatch_skip_witness :
  ∃ sess' rs,
    DataLoaderDispatcher.__iter__ skipping_dispatcher fresh_session
    = Done (sess', [[6]]) ∧
    DataLoaderDispatcher.rounds skipping_dispatcher fresh_session
    = Done (sess', rs) ∧
    [[6]] = drop 1 (map DataLoaderDispatcher.round_slice rs).
Proof.
  assert (∃ s, DataLoaderDispatcher.__iter__ skipping_dispatcher fresh_session
               = Done (s, [[6]])) as (s & Hs) by (vm_compute; eauto).
  destruct (dispatch_skip skipping_dispatcher _ _ _ Hs) as (rs & Hrs & Hys).
  exists s, rs. split; [done|]. split; [done|exact Hys].
Defined.

(** ** Split batches without evening out *)

Lemma length_py_slice_gen {A} (l : list A) lo hi :
  length (py_slice l lo hi) = (hi - lo) `min` (length l - lo).
Proof. unfold py_slice. by rewrite length_take, length_drop. Qed.

Lemma filter_nonempty_slices {A} (full : list (list A)) b lo hi :
  lo < hi → hi ≤ b →
  Forall (fun x => length x = b) full →
  List.filter (fun y : list A => 0 <? length y)
    (map (fun x => py_slice x lo hi) full)
  = map (fun x => py_slice x lo hi) full.
Proof.
  intros Hlo Hhi Hfull. induction Hfull as [|x l Hx _ IH]; simpl; [done|].
  rewrite IH, length_py_slice_gen.
  by destruct (0 <? _) eqn:E; [|apply Nat.ltb_ge in E; lia].
Qed.

Lemma split_uneven_closed {A} (batches : list (list A)) b P p :
  0 < P → p < P → b mod P = 0 →
  well_formed b batches →
  BatchSamplerShard._iter_with_split
    (shard_of batches b false P p true false)
  = Done (List.filter (fun y : list A => 0 <? length y)
            (map (fun x => py_slice x (b / P * p) (b / P * (p + 1)))
               batches)).
Proof.
  intros HP Hp Hmod Hwf. pose proof Hwf as [Hb _].
  assert (0 < b / P) as Hbl.
  { pose proof (Nat.div_mod_eq b P) as H. rewrite Hmod in H.
    destruct (b / P); lia. }
  pose proof (split_window_bound b P p HP Hp) as Hhi.
  unfold BatchSamplerShard._iter_with_split. simpl.
  destruct (P =? 0) eqn:E; [apply Nat.eqb_eq in E; lia|]. simpl.
  rewrite (split_loop_yielded _ _ b) by done. simpl.
  destruct (well_formed_cases b batches Hwf)
    as [->|(full & last & -> & Hfull & Hlast)]; [done|].
  rewrite split_loop_initial_data by (by destruct full).
  rewrite split_loop_cur.
  assert (0 < length (batch_at (full ++ [last]) 0)) as Hfirst.
  { unfold batch_at. destruct full as [|x full]; simpl; [lia|].
    apply Forall_cons in Hfull as [-> _]. done. }
  destruct (0 <? _) eqn:E0; [|apply Nat.ltb_ge in E0; lia].
  rewrite List.filter_app, filter_full by done.
  rewrite !map_app, List.filter_app.
  rewrite (filter_nonempty_slices full b) by (try done; nia).
  simpl. rewrite length_py_slice_gen.
  set (bl := b / P) in *.
  replace (bl * (p + 1)) with (bl * p + bl) in * by lia.
  set (lo := bl * p) in *.
  destruct (length last =? b) eqn:Elast.
  - apply Nat.eqb_eq in Elast.
    destruct (length last <? b) eqn:E1; [apply Nat.ltb_lt in E1; lia|].
    simpl.
    by destruct (0 <? _ `min` _) eqn:E2; [|apply Nat.ltb_ge in E2; lia].
  - apply Nat.eqb_neq in Elast.
    destruct (length last <? b) eqn:E1; [|apply Nat.ltb_ge in E1; lia].
    simpl. rewrite app_nil_r.
    destruct (lo <? length last) eqn:E2.
    + apply Nat.ltb_lt in E2.
      by destruct (0 <? _ `min` _) eqn:E3; [|apply Nat.ltb_ge in E3; lia].
    + apply Nat.ltb_ge in E2.
      destruct (0 <? _ `min` _) eqn:E3; [apply Nat.ltb_lt in E3; lia|].
      by rewrite app_nil_r.
Qed.

(** X7: with [split_batches] and without [even_batches] and [drop_last],
    the shard of process [p] yields its slice of every batch of the source
    except where that slice is empty (the slice of a short last batch that
    ends before the window of the process); the slices of the processes
    [0 .. P - 1] of a batch, put together, are that batch. *)
Theorem shard_split_uneven {A} (batches : list (list A)) (b P p : nat) :
  0 < P → p < P → b mod P = 0 →
  well_formed b batches →
  shard_batches batches b false P p true false
  = Done (List.filter (fun y : list A => 0 <? length y)
            (map (fun x => py_slice x (b / P * p) (b / P * (p + 1)))
               batches)) ∧
  ∀ x, x ∈ batches →
       concat (map (fun q => py_slice x (b / P * q) (b / P * (q + 1)))
                 (seq 0 P))
       = x.
Proof.
  intros HP Hp Hmod Hwf. split.
  - unfold shard_batches. rewrite init_shard_of by done. simpl.
    by apply split_uneven_closed.
  - intros x Hx. apply list_elem_of_lookup in Hx as [i Hi].
    destruct Hwf as [_ Hwf]. destruct (Hwf i x Hi) as [Hlen _].
    transitivity (take (P * (b / P)) x).
    + rewrite <- concat_process_slices. f_equal. apply map_ext.
      intros q. f_equal; lia.
    + apply take_ge.
      pose proof (Nat.div_mod_eq b P) as H. rewrite Hmod in H. lia.
Qed.

Lemma shard_split_uneven_witness :
  shard_batches [[0; 1; 2; 3]; [4]] 4 false 2 1 true false = Done [[2; 3]].
Proof.
  refine (proj1 (shard_split_uneven [[0; 1; 2; 3]; [4]] 4 2 1 _ _ _ _));
    [lia | lia | reflexivity |].
  split; [lia|]. intros i batch Hi.
  destruct i as [|[|i]]; simpl in Hi; simplify_eq; simpl; lia.
Defined.

(** ** What the adjustment of a checkpoint leaves alone *)

Lemma decrement_if_positive_frame (d d' : gmap string pyval) key delta :
  DataLoaderAdapter.decrement_if_positive d key delta = Done d' →
  is_Some (d !! key) ∧ dom d' = dom d ∧ ∀ k, k ≠ key → d' !! k = d !! k.
Proof.
  unfold DataLoaderAdapter.decrement_if_positive, py_getitem. intros H.
  destruct (d !! key) as [v|] eqn:Hkey; [|done]. simpl in H.
  bind_inv H. destruct x.
  - bind_inv H. injection H as <-. split; [eauto|]. split.
    + apply dom_insert_lookup_L. eauto.
    + intros k Hk. by rewrite lookup_insert_ne.
  - injection H as <-. eauto.
Qed.

Lemma decrement_if_positive_missing (d : gmap string pyval) key delta :
  d !! key = None →
  DataLoaderAdapter.decrement_if_positive d key delta = Raised KeyError.
Proof.
  intros H. unfold DataLoaderAdapter.decrement_if_positive, py_getitem.
  by rewrite H.
Qed.

(** X16: [adjust_state_dict_for_prefetch] leaves the state dict as it is
    in a run that is not distributed; when it returns, the state dict has
    the keys it had and every entry but [_sampler_iter_yielded],
    [_num_yielded] and [_index_sampler_state] is unchanged; in a distributed
    run it returns only for a state dict that has these three keys. *)
Theorem adjust_state_dict_frame (ps : PartialState) (batch_size : option Z)
    (d : gmap string pyval) :
  (distributed ps = false →
   DataLoaderAdapter.adjust_state_dict_for_prefetch ps batch_size d = Done d) ∧
  (∀ d',
     DataLoaderAdapter.adjust_state_dict_for_prefetch ps batch_size d
     = Done d' →
     dom d' = dom d ∧
     (∀ k, k ∉ prefetch_keys → d' !! k = d !! k) ∧
     (distributed ps = true → ∀ key, key ∈ prefetch_keys → is_Some (d !! key))).
Proof.
  unfold DataLoaderAdapter.adjust_state_dict_for_prefetch, prefetch_keys.
  split; [by intros ->|].
  intros d' Hrun. destruct (distributed ps); [|by injection Hrun as <-].
  apply outcome_bind_Done in Hrun as (d1 & H1 & Hrun).
  apply decrement_if_positive_frame in H1 as (Hs1 & Hd1 & Hf1).
  apply outcome_bind_Done in Hrun as (d2 & H2 & Hrun).
  apply decrement_if_positive_frame in H2 as (Hs2 & Hd2 & Hf2).
  apply outcome_bind_Done in Hrun as (iss & H3 & Hrun).
  unfold py_getitem in H3.
  destruct (d2 !! "_index_sampler_state") as [v|] eqn:Hs3; [|done].
  injection H3 as ->.
  rewrite Hf1 in Hs2 by done.
  assert (is_Some (d !! "_index_sampler_state")) as Hs3'
    by (rewrite <- Hf1, <- Hf2 by done; eauto).
  assert (dom d' = dom d ∧
          ∀ k, k ≠ "_sampler_iter_yielded" → k ≠ "_num_yielded" →
               k ≠ "_index_sampler_state" → d' !! k = d !! k) as [Hdom Hframe].
  { assert (dom d2 = dom d) as Hd0 by congruence.
    assert (∀ k, k ≠ "_sampler_iter_yielded" → k ≠ "_num_yielded" →
                 d2 !! k = d !! k) as Hf0
      by (intros k ? ?; rewrite Hf2, Hf1 by done; done).
    destruct iss as [| | |inner]; try done.
    - injection Hrun as <-. split; [done|]. intros k ? ? ?. by apply Hf0.
    - destruct (inner !! "samples_yielded") as [w|].
      + apply outcome_bind_Done in Hrun as (positive & Hpos & Hrun).
        destruct positive.
        * destruct batch_size as [bs|]; [|done].
          apply outcome_bind_Done in Hrun as (w' & Hw' & Hrun).
          injection Hrun as <-. split.
          -- rewrite dom_insert_lookup_L by eauto. done.
          -- intros k ? ? ?. rewrite lookup_insert_ne by done. by apply Hf0.
        * injection Hrun as <-. split; [done|]. intros k ? ? ?. by apply Hf0.
      + injection Hrun as <-. split; [done|]. intros k ? ? ?. by apply Hf0. }
  split; [done|]. split.
  - intros k Hk. apply Hframe; intros ->; apply Hk; repeat constructor.
  - intros _ key Hkey. set_unfold in Hkey.
    destruct Hkey as [->|[->|[->|[]]]]; done.
Qed.

Lemma adjust_state_dict_frame_witness :
  ∃ d',
    DataLoaderAdapter.adjust_state_dict_for_prefetch two_processes (Some 2%Z)
      checkpoint_with_epoch = Done d' ∧
    d' !! "epoch" = Some (PyInt 7).
Proof.
  assert (∃ d',
            DataLoaderAdapter.adjust_state_dict_for_prefetch two_processes
              (Some 2%Z) checkpoint_with_epoch = Done d')
    as [d' Hd'] by (vm_compute; eauto).
  exists d'. split; [done|].
  destruct (proj2 (adjust_state_dict_frame _ _ _) d' Hd') as (_ & Hframe & _).
  rewrite Hframe; [reflexivity|].
  unfold prefetch_keys. rewrite !elem_of_cons, elem_of_nil.
  intros [?|[?|[?|[]]]]; discriminate.
Defined.

(** ** The checks of prepare_data_loader *)

(** X17: with a device mesh, outside DeepSpeed, [prepare_data_loader]
    counts [dp_shard * dp_replicate] processes and gives process [p] the
    index [p // (tp * cp)]: for [p] below the product of the four sizes the
    index is below that count, and the processes of one "tp" and "cp" group
    get the same index. *)
Theorem mesh_topology_in_range (mesh : prepare_data_loader.DeviceMesh)
    (num_processes p : nat) :
  let tp := prepare_data_loader.submesh_size mesh "tp" in
  let cp := prepare_data_loader.submesh_size mesh "cp" in
  let dp := prepare_data_loader.submesh_size mesh "dp_replicate" in
  let fsdp := prepare_data_loader.submesh_size mesh "dp_shard" in
  0 < tp → 0 < cp →
  p < fsdp * dp * (tp * cp) →
  ∃ p',
    prepare_data_loader.topology false (Some mesh) num_processes p
    = Done (fsdp * dp, p') ∧
    p' < fsdp * dp ∧
    ∀ q, q / (tp * cp) = p / (tp * cp) →
         prepare_data_loader.topology false (Some mesh) num_processes q
         = Done (fsdp * dp, p').
Proof.
  intros tp cp dp fsdp Htp Hcp Hp.
  unfold prepare_data_loader.topology. fold tp cp dp fsdp.
  destruct (tp * cp =? 0) eqn:E; [apply Nat.eqb_eq in E; nia|].
  eexists. split; [done|]. split.
  - apply Nat.Div0.div_lt_upper_bound. lia.
  - intros q ->. done.
Qed.

Lemma mesh_topology_in_range_witness :
  ∃ p',
    prepare_data_loader.topology false
      (Some [("dp_replicate", 2); ("dp_shard", 2); ("tp", 3)]) 12 7
    = Done (4, p') ∧
    p' < 4.
Proof.
  destruct (mesh_topology_in_range
              [("dp_replicate", 2); ("dp_shard", 2); ("tp", 3)] 12 7)
    as (p' & Hrun & Hlt & _); [vm_compute; lia..|].
  exists p'. split; [exact Hrun|exact Hlt].
Defined.

(** X18: when the checks of [prepare_data_loader] pass for a loader with
    a batch size, the construction of the [IterableDatasetShard] with that
    batch size and the process count and index of the checks does not
    raise. *)
Theorem prepare_checks_cover_stream_shard {A} (state : PartialState)
    (deepspeed : bool) (a : prepare_data_loader.args)
    (dl : prepare_data_loader.loader) (dispatch : bool) (P p b : nat)
    (dataset : list A) (drop_last : bool) :
  prepare_data_loader.checks state deepspeed a dl = Done (dispatch, P, p) →
  prepare_data_loader.loader_batch_size dl = Some b →
  ∃ self,
    IterableDatasetShard.__init__ dataset b drop_last P p
      (prepare_data_loader.split_batches a) = Done self.
Proof.
  intros Hrun Hb. unfold prepare_data_loader.checks in Hrun.
  apply outcome_bind_Done in Hrun as (d & _ & Hrun).
  apply outcome_bind_Done in Hrun as ([P' p'] & _ & Hrun).
  apply outcome_bind_Done in Hrun as ([] & Hcheck & Hrun).
  injection Hrun as _ -> ->.
  unfold prepare_data_loader.sanity_check in Hcheck. rewrite Hb in Hcheck.
  unfold IterableDatasetShard.__init__.
  destruct (prepare_data_loader.split_batches a); simpl in *; [|eauto].
  destruct (1 <? b); [|eauto].
  destruct (P =? 0); [done|].
  destruct (b mod P =? 0); simpl in *; [eauto|done].
Qed.

Lemma prepare_checks_cover_stream_shard_witness :
  ∃ self,
    IterableDatasetShard.__init__ (seq 0 8) 4 false 2 0 true = Done self.
Proof.
  apply (prepare_checks_cover_stream_shard two_processes false split_args
           stream_loader false 2 0 4 (seq 0 8) false);
    reflexivity.
Defined.

(** ** The seeds of a seedable sampler *)

(** X19: the [k]-th of [n] traversals in a row of a
    [SeedableRandomSampler] draws from a generator seeded with
    [epoch + k + initial_seed], whatever the state of the generator before;
    afterwards [epoch] is [n] more than before. *)
Theorem seedable_sampler_epochs (n : nat) (self : SeedableRandomSampler.t) :
  let result := SeedableRandomSampler.traversals n self in
  result.2
  = map (fun k => SeedableRandomSampler.draw self
                    (SeedableRandomSampler.epoch self + Z.of_nat k
                     + SeedableRandomSampler.initial_seed self)%Z)
      (seq 0 n) ∧
  SeedableRandomSampler.epoch result.1
  = (SeedableRandomSampler.epoch self + Z.of_nat n)%Z ∧
  SeedableRandomSampler.initial_seed result.1
  = SeedableRandomSampler.initial_seed self.
Proof.
  revert self. induction n as [|n IH]; intros self.
  - simpl. by rewrite Z.add_0_r.
  - cbn [SeedableRandomSampler.traversals].
    destruct (SeedableRandomSampler.__iter__ self) as [self1 ys] eqn:Hiter.
    assert (ys = SeedableRandomSampler.draw self
                   (SeedableRandomSampler.epoch self
                    + SeedableRandomSampler.initial_seed self)%Z ∧
            SeedableRandomSampler.epoch self1
            = (SeedableRandomSampler.epoch self + 1)%Z ∧
            SeedableRandomSampler.initial_seed self1
            = SeedableRandomSampler.initial_seed self ∧
            SeedableRandomSampler.draw self1 = SeedableRandomSampler.draw self)
      as (-> & Hepoch & Hseed & Hdraw).
    { unfold SeedableRandomSampler.__iter__ in Hiter.
      destruct (SeedableRandomSampler.generator self);
        by injection Hiter as <- <-. }
    specialize (IH self1).
    destruct (SeedableRandomSampler.traversals n self1) as [self2 rest].
    simpl in *. destruct IH as (-> & -> & ->).
    rewrite Hepoch, Hseed, Hdraw.
    split; [|split; [lia|done]].
    rewrite Z.add_0_r. f_equal.
    rewrite <- seq_shift, map_map. apply map_ext. intros k.
    f_equal. lia.
Qed.
